(** * fastqp: the streaming metrics engine of [fastqp/cli.py]

    A shallow embedding of [get_metrics] (src/fastqp/cli.py): the choice of
    the sampling bin size, the per-read loop that fills the cycle tallies,
    and the derived statistics computed from them, together with the
    properties the specification states about them.

    Conventions of the embedding.
    - A Python [str] is the list of its characters ([pystr]); a character is
      an [ascii].
    - A [defaultdict] is a finite map ([gmap]) read with a default: reading a
      missing key returns the default and, as in Python, stores it.
    - Python 3 semantics throughout ([/] is true division, [map] is lazy).
      The GC percentage by position is computed in IEEE 754 binary64
      ([SpecFloat]); the floats of the kmer statistics and of the duplicate
      rate are modelled by the rationals they denote.
    - An uncaught exception or [sys.exit] ends the run: [outcome]. *)

From Stdlib Require Import ZArith QArith Qabs Ascii String List Lia.
From Stdlib Require Import Floats.SpecFloat.
From stdpp Require Import gmap strings list fin_maps sorting.
Close Scope Q_scope.
Open Scope Z_scope.

(** ** Python values and control *)

Abbreviation pystr := (list ascii).

Inductive exn :=
  NameError | ZeroDivisionError | IndexError | KeyError | TypeError | ValueError.

Inductive outcome (A : Type) : Type :=
| Ok (a : A)
| Raised (e : exn)
| SysExit (status : Z) (msg : string).
Arguments Ok {A} a.
Arguments Raised {A} e.
Arguments SysExit {A} status msg.

#[global] Instance outcome_bind : MBind outcome := λ A B k c,
  match c with
  | Ok a => k a
  | Raised e => Raised e
  | SysExit s m => SysExit s m
  end.

#[global] Instance outcome_ret : MRet outcome := @Ok.

(** [sys.exit(msg)] with a [str] argument prints [msg] on stderr and ends the
    process with status 1. *)
Definition sys_exit {A} (msg : string) : outcome A := SysExit 1 msg.

(** Truth value of an optional integer argument ([if binsize:]): [None] and
    [0] are false. *)
Definition truthy (b : option Z) : option Z :=
  match b with
  | Some v => if v =? 0 then None else Some v
  | None => None
  end.

(** ** defaultdict *)

(** [d[k] += 1] on a [defaultdict(int)]. *)
Definition incr `{Countable K} (k : K) (d : gmap K nat) : gmap K nat :=
  <[k := S (d !!! k)]> d.

(** [d[p][s] += 1] on a [defaultdict(lambda: defaultdict(int))]. *)
Definition incr2 `{Countable K} `{Countable Sym}
    (p : K) (s : Sym) (d : gmap K (gmap Sym nat)) : gmap K (gmap Sym nat) :=
  <[p := incr s (d !!! p)]> d.

(** Reading [d[k]] stores the default under a missing key. *)
Definition touch `{Countable K} {V : Type} (dflt : V) (k : K) (d : gmap K V)
    : gmap K V :=
  match d !! k with
  | Some _ => d
  | None => <[k := dflt]> d
  end.

(** [sum(d.values())] *)
Definition total `{Countable K} (d : gmap K nat) : nat :=
  map_fold (λ _ v acc, (v + acc)%nat) 0%nat d.

(** [enumerate] *)
Fixpoint enumerate_from {A} (i : nat) (l : list A) : list (nat * A) :=
  match l with
  | [] => []
  | x :: l' => (i, x) :: enumerate_from (S i) l'
  end.

Definition enumerate {A} (l : list A) : list (nat * A) := enumerate_from 0 l.

(** [s[a:b]] for bounds [0 <= a] and [0 <= b], the only ones [get_metrics]
    uses: slicing clamps to the length and never raises. *)
Definition slice {A} (s : list A) (a b : Z) : list A :=
  take (Z.to_nat (b - a)) (drop (Z.to_nat a) s).

(** [s[a:]] for [0 <= a]. *)
Definition slice_from {A} (s : list A) (a : Z) : list A :=
  drop (Z.to_nat a) s.

(** ** Arguments of [get_metrics] *)

Record params := {
  binsize : option Z;
  nreads : Z;
  count_duplicates : bool;
  leftlimit : Z;
  rightlimit : Z;
  kmer : nat;
  base_probs : list Q  (* the parsed [base_probs] string *)
}.

(** The keyword defaults of [get_metrics]. *)
Definition default_params : params := {|
  binsize := None;
  nreads := 2000000;
  count_duplicates := false;
  leftlimit := 1;
  rightlimit := -1;
  kmer := 5;
  base_probs := [1 # 4; 1 # 4; 1 # 4; 1 # 4; 1 # 10]%Q
|}.

(** [get_metrics] reads the role filters from a name [args] that is neither
    a parameter nor assigned in the module: whether it is bound is part of
    the environment. *)
Record role_flags := { aligned_only : bool; unaligned_only : bool }.

Record env := {
  args : option role_flags;
  pybloom : bool  (* [from pybloom import ScalableBloomFilter] succeeds *)
}.

(** ** Sampling bin size (lines 84-125)

    [est_nlines] is [None] for gzipped input with [binsize] given and for
    stdin; in both cases [n] was set to [binsize], or to 1 on stdin without
    one.  [math.floor(est_nlines / nreads)] floors a float quotient; for
    [|est_nlines| < 2^53] the correctly rounded quotient has the floor of the
    exact one, which is [Z.div]. *)
Definition empty_message : string :=
  "The input file appears empty. Please check the file for data.".

Definition bin_size (est_nlines : option Z) (binsize : option Z) (nreads : Z)
    : outcome Z :=
  match est_nlines with
  | None =>
      match truthy binsize with Some b => Ok b | None => Ok 1 end
  | Some e =>
      if e =? 0 then sys_exit empty_message
      else match truthy binsize with
           | Some b => Ok b
           | None =>
               if nreads =? 0 then Raised ZeroDivisionError
               else let nf := e / nreads in
                    if 1 <=? nf then Ok nf else Ok 1
           end
  end.

(** ** Reads

    A FASTQ record has a sequence and a quality string.  A [Sam] record also
    says whether it is mapped and on the reverse strand; [parse_md] is the
    reference derived from its MD tag, [None] when the tag is missing
    ([KeyError]). *)
Inductive Read :=
| FastqRead (seq qual : pystr)
| SamRead (seq qual : pystr) (mapped reverse : bool) (parse_md : option pystr).

(** ** The duplicate detector

    [pybloom.ScalableBloomFilter] is used through membership and [add]
    only. *)
Class BloomFilter (B : Type) := {
  bloom_new : B;
  bloom_contains : pystr → B → bool;
  bloom_add : pystr → B → B
}.

(** An exact set of sequences is one such detector. *)
#[global] Instance exact_bloom : BloomFilter (gset pystr) := {|
  bloom_new := ∅;
  bloom_contains s b := bool_decide (s ∈ b);
  bloom_add s b := {[s]} ∪ b
|}.

(** ** Tallies (lines 132-140)

    The keys of a quality tally are quality characters during the pass and
    integers once the quantile computation has re-keyed it. *)
Abbreviation qkey := (ascii + Z)%type.

Record tallies := {
  read_len : gmap nat nat;
  cycle_nuc : gmap Z (gmap ascii nat);
  cycle_qual : gmap Z (gmap qkey nat);
  cycle_gc : gmap nat nat;
  cycle_kmers : gmap Z (gmap pystr nat);
  cycle_mismatch : gmap ascii (gmap Z (gmap ascii nat))
}.

Definition empty_tallies : tallies := {|
  read_len := ∅;
  cycle_nuc := ∅;
  cycle_qual := ∅;
  cycle_gc := ∅;
  cycle_kmers := ∅;
  cycle_mismatch :=
    <["C"%char := ∅]> (<["G"%char := ∅]> (<["A"%char := ∅]> (<["T"%char := ∅]> ∅)))
|}.

Definition set_read_len (f : gmap nat nat → gmap nat nat) (t : tallies) :=
  {| read_len := f (read_len t); cycle_nuc := cycle_nuc t;
     cycle_qual := cycle_qual t; cycle_gc := cycle_gc t;
     cycle_kmers := cycle_kmers t; cycle_mismatch := cycle_mismatch t |}.

Definition set_cycle_nuc
    (f : gmap Z (gmap ascii nat) → gmap Z (gmap ascii nat)) (t : tallies) :=
  {| read_len := read_len t; cycle_nuc := f (cycle_nuc t);
     cycle_qual := cycle_qual t; cycle_gc := cycle_gc t;
     cycle_kmers := cycle_kmers t; cycle_mismatch := cycle_mismatch t |}.

Definition set_cycle_qual
    (f : gmap Z (gmap qkey nat) → gmap Z (gmap qkey nat)) (t : tallies) :=
  {| read_len := read_len t; cycle_nuc := cycle_nuc t;
     cycle_qual := f (cycle_qual t); cycle_gc := cycle_gc t;
     cycle_kmers := cycle_kmers t; cycle_mismatch := cycle_mismatch t |}.

Definition set_cycle_gc (f : gmap nat nat → gmap nat nat) (t : tallies) :=
  {| read_len := read_len t; cycle_nuc := cycle_nuc t;
     cycle_qual := cycle_qual t; cycle_gc := f (cycle_gc t);
     cycle_kmers := cycle_kmers t; cycle_mismatch := cycle_mismatch t |}.

Definition set_cycle_kmers
    (f : gmap Z (gmap pystr nat) → gmap Z (gmap pystr nat)) (t : tallies) :=
  {| read_len := read_len t; cycle_nuc := cycle_nuc t;
     cycle_qual := cycle_qual t; cycle_gc := cycle_gc t;
     cycle_kmers := f (cycle_kmers t); cycle_mismatch := cycle_mismatch t |}.

Definition set_cycle_mismatch
    (f : gmap ascii (gmap Z (gmap ascii nat)) →
         gmap ascii (gmap Z (gmap ascii nat))) (t : tallies) :=
  {| read_len := read_len t; cycle_nuc := cycle_nuc t;
     cycle_qual := cycle_qual t; cycle_gc := cycle_gc t;
     cycle_kmers := cycle_kmers t; cycle_mismatch := f (cycle_mismatch t) |}.

(** ** Helpers imported from the [fastqp] package *)

Definition count (c : ascii) (s : pystr) : nat :=
  length (filter (λ x, x = c) s).

(** Modelled from the spec: [gc] is imported from the [fastqp] package,
    whose module is not part of the sources; section 4.3 step 4 gives the
    integer GC percentage of a read as the count of G and C over its length
    (2 of 4 bases is 50). *)
Definition gc (s : pystr) : nat :=
  (100 * (count "G" s + count "C" s) / length s)%nat.

(** Modelled from the spec: [window] is imported from the [fastqp] package;
    section 4.3 step 7 and the glossary give the contiguous substrings of
    length [n], by starting position. *)
Fixpoint window (n : nat) (s : pystr) : list pystr :=
  match s with
  | [] => []
  | _ :: s' => if (n <=? length s)%nat then take n s :: window n s' else []
  end.

(** ** The read loop (lines 150-232) *)

Record state (B : Type) := {
  tal : tallies;
  bloom_filter : B;
  duplicates : nat;
  percent_complete : Z;
  act_nlines : Z
}.
Arguments tal {B} s.
Arguments bloom_filter {B} s.
Arguments duplicates {B} s.
Arguments percent_complete {B} s.
Arguments act_nlines {B} s.

(** Lines 155-169: the role filters and the strand.  [None] is [continue]. *)
Definition select_read (a : option role_flags) (read : Read)
    : outcome (option (pystr * pystr)) :=
  match read with
  | SamRead seq qual mapped reverse _ =>
      match a with
      | None => Raised NameError
      | Some a =>
          if aligned_only a && negb mapped then Ok None
          else if unaligned_only a && mapped then Ok None
          else if reverse then Ok (Some (rev seq, rev qual))
          else Ok (Some (seq, qual))
      end
  | FastqRead seq qual => Ok (Some (seq, qual))
  end.

(** Lines 172-189.  The slices cannot raise, so the [IndexError] handlers
    are never entered. *)
Definition set_up_limits (leftlimit rightlimit : Z) (sq : pystr * pystr)
    : pystr * pystr :=
  let '(seq, qual) := sq in
  if (leftlimit =? 1) && (rightlimit <? 0) then (seq, qual)
  else if (1 <=? leftlimit) && (0 <? rightlimit) then
    (slice seq (leftlimit - 1) rightlimit, slice qual (leftlimit - 1) rightlimit)
  else if (1 <? leftlimit) && (rightlimit <? 0) then
    (slice_from seq (leftlimit - 1), slice_from qual (leftlimit - 1))
  else (seq, qual).

(** Lines 201-203: the body and the loop over [enumerate(zip(seq, qual))]. *)
Definition cycle_step (leftlimit : Z) (t : tallies)
    (x : nat * (ascii * ascii)) : tallies :=
  let '(i, (s, q)) := x in
  set_cycle_qual (incr2 (leftlimit + Z.of_nat i) (inl q))
    (set_cycle_nuc (incr2 (leftlimit + Z.of_nat i) s) t).

Definition tally_cycles (leftlimit : Z) (seq qual : pystr) (t : tallies)
    : tallies :=
  foldl (cycle_step leftlimit) t (enumerate (zip seq qual)).

(** Lines 209-210. *)
Definition kmer_step (leftlimit : Z) (t : tallies) (x : nat * pystr)
    : tallies :=
  let '(i, k_mer) := x in
  set_cycle_kmers (incr2 (leftlimit + Z.of_nat i) k_mer) t.

Definition tally_kmers (leftlimit : Z) (k : nat) (seq : pystr) (t : tallies)
    : tallies :=
  foldl (kmer_step leftlimit) t (enumerate (window k seq)).

(** Lines 212-222: a reference base that is not a key of [cycle_mismatch]
    raises [KeyError], which drops that observation; a missing MD tag drops
    the whole comparison. *)
Definition mismatch_step (leftlimit : Z) (t : tallies)
    (x : nat * (ascii * ascii)) : tallies :=
  let '(i, (s, r)) := x in
  if decide (s = r) then t
  else match cycle_mismatch t !! r with
       | Some d =>
           set_cycle_mismatch
             (<[r := incr2 (leftlimit + Z.of_nat i) s d]>) t
       | None => t
       end.

Definition tally_mismatch (leftlimit : Z) (read : Read) (seq : pystr)
    (t : tallies) : tallies :=
  match read with
  | SamRead _ _ true _ (Some ref) =>
      foldl (mismatch_step leftlimit) t (enumerate (zip seq ref))
  | _ => t
  end.

(** Lines 224-231: the progress threshold; the notice itself goes to
    stderr. *)
Definition progress (est_nlines : option Z) (act_nlines percent_complete : Z)
    : Z :=
  match est_nlines with
  | Some e =>
      if Qle_bool (inject_Z percent_complete)
                  (inject_Z act_nlines / inject_Z e * 100)%Q
      then percent_complete + 10 else percent_complete
  | None => percent_complete
  end.

Section loop.
Context {B : Type} `{BloomFilter B}.
Variable (e : env) (p : params) (est_nlines : option Z) (n : Z).

(** [act_nlines += n; continue] *)
Definition skip_read (st : state B) : state B :=
  {| tal := tal st; bloom_filter := bloom_filter st;
     duplicates := duplicates st;
     percent_complete := percent_complete st;
     act_nlines := act_nlines st + n |}.

(** Lines 193-232, for a read whose trimmed sequence is not empty. *)
Definition tally_read (read : Read) (seq qual : pystr) (st : state B)
    : state B :=
  let t := set_cycle_gc (incr (gc seq)) (tal st) in
  let '(bf, dup) :=
    if count_duplicates p then
      if bloom_contains seq (bloom_filter st)
      then (bloom_filter st, S (duplicates st))
      else (bloom_add seq (bloom_filter st), duplicates st)
    else (bloom_filter st, duplicates st) in
  let t := tally_cycles (leftlimit p) seq qual t in
  let t := set_read_len (incr (length qual)) t in
  let t := tally_kmers (leftlimit p) (kmer p) seq t in
  let t := tally_mismatch (leftlimit p) read seq t in
  {| tal := t; bloom_filter := bf; duplicates := dup;
     percent_complete :=
       progress est_nlines (act_nlines st) (percent_complete st);
     act_nlines := act_nlines st + n |}.

(** One iteration of [for read in reads]. *)
Definition loop_body (st : state B) (read : Read) : outcome (state B) :=
  sel ← select_read (args e) read;
  match sel with
  | None => Ok st
  | Some sq =>
      let '(seq, qual) := set_up_limits (leftlimit p) (rightlimit p) sq in
      if (length seq =? 0)%nat then Ok (skip_read st)
      else Ok (tally_read read seq qual st)
  end.

Fixpoint run_reads (st : state B) (reads : list Read) : outcome (state B) :=
  match reads with
  | [] => Ok st
  | read :: reads' => st' ← loop_body st read; run_reads st' reads'
  end.

Definition initial_state (bf : B) : state B :=
  {| tal := empty_tallies; bloom_filter := bf; duplicates := 0;
     percent_complete := 10; act_nlines := 0 |}.
End loop.

(** ** Numbers of the derived statistics

    A float is not-a-number, an infinity or a finite value; only [<] and
    [abs] are used on the regression results.  Comparisons with
    not-a-number are false. *)
Inductive pyfloat := Fnan | Finf (negative : bool) | Ffin (q : Q).

Definition flt (a b : pyfloat) : bool :=
  match a, b with
  | Fnan, _ | _, Fnan => false
  | Finf true, Finf true => false
  | Finf true, _ => true
  | _, Finf true => false
  | Finf false, _ => false
  | Ffin _, Finf false => true
  | Ffin x, Ffin y => negb (Qle_bool y x)
  end.

Definition fabs (a : pyfloat) : pyfloat :=
  match a with
  | Fnan => Fnan
  | Finf _ => Finf false
  | Ffin q => Ffin (Qabs q)
  end.

(** [a / b] on floats: a zero divisor raises. *)
Definition py_div (a b : Q) : outcome Q :=
  if Qeq_bool b 0 then Raised ZeroDivisionError else Ok (a / b)%Q.

(** *** Binary64 arithmetic

    A Python [float] is an IEEE 754 binary64 number; [SpecFloat] gives its
    operations, rounded to nearest, ties to even. *)
Abbreviation float := spec_float.

(** [float(z)] *)
Definition float_of_int (z : Z) : float := binary_normalize 53 1024 z 0 false.
Definition float_div : float → float → float := SFdiv 53 1024.
Definition float_mul : float → float → float := SFmul 53 1024.

(** The rational a finite float denotes. *)
Definition float_value (f : float) : option Q :=
  match f with
  | S754_zero _ => Some 0%Q
  | S754_finite s m e =>
      let v := if 0 <=? e then inject_Z (Z.pos m * 2 ^ e)
               else (Z.pos m # Pos.pow 2 (Z.to_pos (- e)))%Q in
      Some (if s then (- v)%Q else v)
  | _ => None
  end.

(** A number that is an [int] or a [float]. *)
Inductive number := Int (z : Z) | Float (f : float).

(** [a / b] on ints, true division: a zero divisor raises.  Counts below
    [2^53] convert to floats exactly, and the quotient is rounded once. *)
Definition int_truediv (a b : Z) : outcome float :=
  if b =? 0 then Raised ZeroDivisionError
  else Ok (float_div (float_of_int a) (float_of_int b)).

(** [l[i]] with Python's negative indices. *)
Definition py_index {A} (l : list A) (i : Z) : outcome A :=
  let len := Z.of_nat (length l) in
  let j := if i <? 0 then i + len else i in
  if (0 <=? j) && (j <? len) then
    match l !! Z.to_nat j with
    | Some x => Ok x
    | None => Raised IndexError
    end
  else Raised IndexError.

(** [sorted(d.keys())] *)
Definition sorted_keys {V} (d : gmap Z V) : list Z :=
  merge_sort Z.le (map fst (map_to_list d)).

(** [d[p][s]] on a [defaultdict(lambda: defaultdict(int))]: the value read,
    and the dictionary after the read. *)
Definition get2 `{Countable K} `{Countable Sym}
    (p : K) (s : Sym) (d : gmap K (gmap Sym nat)) : nat :=
  (d !!! p) !!! s.

Definition touch2 `{Countable K} `{Countable Sym}
    (p : K) (s : Sym) (d : gmap K (gmap Sym nat)) : gmap K (gmap Sym nat) :=
  <[p := touch 0%nat s (d !!! p)]> d.

(** The set of symbols over all positions
    ([set(chain.from_iterable(d[k].keys() for k in sorted(d.keys())))]). *)
Definition all_symbols `{Countable K} `{Countable Sym}
    (d : gmap K (gmap Sym nat)) : gset Sym :=
  map_fold (λ _ v acc, dom v ∪ acc) ∅ d.

(** *** Quantiles (lines 242-249) *)

Definition quantile_values : list Q := [1 # 20; 1 # 4; 1 # 2; 3 # 4; 19 # 20]%Q.

(** [ord(str(q))]: a character key is its own string; an integer key has a
    one-character string only when it is a single digit. *)
Definition ord_str (q : qkey) : outcome Z :=
  match q with
  | inl c => Ok (Z.of_nat (nat_of_ascii c))
  | inr z => if (0 <=? z) && (z <=? 9) then Ok (48 + z) else Raised TypeError
  end.

(** [for q in tuple(v.keys()): v[ord(str(q)) - 33] = v.pop(q)] *)
Fixpoint rekey (keys : list qkey) (v : gmap qkey nat)
    : outcome (gmap qkey nat) :=
  match keys with
  | [] => Ok v
  | q :: keys' =>
      match v !! q with
      | None => Raised KeyError
      | Some x =>
          o ← ord_str q;
          rekey keys' (<[inr (o - 33) := x]> (delete q v))
      end
  end.

Section derived.
Context {B : Type}.
(** [percentile] (imported from the [fastqp] package) reads a re-keyed
    tally; [stats.linregress] returns the slope and the two-sided p-value
    among its results, or raises. *)
Variable percentile : gmap qkey nat → Q → Q.
Variable linregress : list Z → list nat → outcome (pyfloat * pyfloat).
Variable p : params.

(** The quality tally is re-keyed in place, position by position. *)
Fixpoint quantile_pass (positions : list Z) (cq : gmap Z (gmap qkey nat))
    : outcome (gmap Z (gmap qkey nat) * list (list Q)) :=
  match positions with
  | [] => Ok (cq, [])
  | k :: positions' =>
      let v := cq !!! k in
      v' ← rekey (map fst (map_to_list v)) v;
      let line := map (percentile v') quantile_values in
      '(cq', quantiles) ← quantile_pass positions' (<[k := v']> cq);
      Ok (cq', line :: quantiles)
  end.

(** *** Kmer profiles (lines 257-274) *)

Definition expected_fraction (k_mer : pystr) : Q :=
  foldl Qmult 1%Q
    (map (λ '(b, pr), (pr ^ Z.of_nat (count b k_mer))%Q)
         (zip ["A"; "T"; "C"; "G"; "N"]%char (base_probs p))).

Definition sequenced_bases (rl : gmap nat nat) : nat :=
  map_fold (λ l n acc, (l * n + acc)%nat) 0%nat rl.

Definition flagged (slope p_value : pyfloat) : bool :=
  flt (Ffin 2) (fabs slope) && flt p_value (Ffin (1 # 20)).

(** The body of [for k_mer in kmers], on the kmer tally, the
    observed/expected table and [bad_kmers]. *)
Definition kmer_body (rl : gmap nat nat) (k_mer : pystr)
    (acc : gmap Z (gmap pystr nat) * list (pystr * Q)
           * list (pystr * pyfloat * pyfloat))
    : outcome (gmap Z (gmap pystr nat) * list (pystr * Q)
               * list (pystr * pyfloat * pyfloat)) :=
  let '(ck, observed_expected, bad_kmers) := acc in
  let keys := sorted_keys ck in
  let kmer_counts := map (λ i, (i, get2 i k_mer ck)) keys in
  let ck := foldl (λ d i, touch2 i k_mer d) ck keys in
  let expected :=
    (expected_fraction k_mer * inject_Z (Z.of_nat (sequenced_bases rl)))%Q in
  oe ← py_div (inject_Z (Z.of_nat (sum_list (map snd kmer_counts)))) expected;
  '(slope, p_value) ← linregress (map fst kmer_counts) (map snd kmer_counts);
  Ok (ck, observed_expected ++ [(k_mer, oe)],
      if flagged slope p_value
      then bad_kmers ++ [(k_mer, slope, p_value)] else bad_kmers).

Fixpoint kmer_loop (rl : gmap nat nat) (kmers : list pystr)
    (acc : gmap Z (gmap pystr nat) * list (pystr * Q)
           * list (pystr * pyfloat * pyfloat))
    : outcome (gmap Z (gmap pystr nat) * list (pystr * Q)
               * list (pystr * pyfloat * pyfloat)) :=
  match kmers with
  | [] => Ok acc
  | k_mer :: kmers' => acc' ← kmer_body rl k_mer acc; kmer_loop rl kmers' acc'
  end.

(** [sorted(l, key=lambda x: x[2])]: a stable sort that compares keys
    with [<]. *)
Fixpoint insert_by_p (x : pystr * pyfloat * pyfloat)
    (l : list (pystr * pyfloat * pyfloat)) :=
  match l with
  | [] => [x]
  | y :: l' => if flt (snd y) (snd x) then y :: insert_by_p x l' else x :: l
  end.

Definition sorted_by_p (l : list (pystr * pyfloat * pyfloat)) :=
  foldr insert_by_p [] l.

(** *** GC by position (lines 276-285) *)

Definition pos_gc_at (i : Z) (cn : gmap Z (gmap ascii nat))
    : gmap Z (gmap ascii nat) * number :=
  let c := get2 i "C"%char cn in
  let cn := touch2 i "C"%char cn in
  let g := get2 i "G"%char cn in
  let cn := touch2 i "G"%char cn in
  let a := get2 i "A"%char cn in
  let cn := touch2 i "A"%char cn in
  let t := get2 i "T"%char cn in
  let cn := touch2 i "T"%char cn in
  let pg :=
    match int_truediv (Z.of_nat (c + g)) (Z.of_nat (c + g + a + t)) with
    | Ok q => Float (float_mul q (float_of_int 100))
    | _ => Int 0  (* except ZeroDivisionError *)
    end in
  (cn, pg).

Fixpoint pos_gc_loop (positions : list Z) (cn : gmap Z (gmap ascii nat))
    : gmap Z (gmap ascii nat) * list number :=
  match positions with
  | [] => (cn, [])
  | i :: positions' =>
      let '(cn, pg) := pos_gc_at i cn in
      let '(cn, pos_gc) := pos_gc_loop positions' cn in
      (cn, pg :: pos_gc)
  end.

End derived.

(** ** [get_metrics]

    The report keeps the state after the derived statistics, the values
    returned to the caller and, of the tidy text output, the rows whose
    value is computed while writing: the total, GC by position, the GC
    histogram and the duplicate rate. *)
Record report (B : Type) := {
  final : state B;
  positions : list Z;
  quantiles : list (list Q);
  pos_gc : list number;
  observed_expected : list (pystr * Q);
  bad_kmers : list (pystr * pyfloat * pyfloat);
  text_reads : Z;
  text_pos_gc : list (Z * number);
  text_read_gc : list (nat * nat);
  text_duplicate : option Q
}.
Arguments final {B} r.
Arguments positions {B} r.
Arguments quantiles {B} r.
Arguments pos_gc {B} r.
Arguments observed_expected {B} r.
Arguments bad_kmers {B} r.
Arguments text_reads {B} r.
Arguments text_pos_gc {B} r.
Arguments text_read_gc {B} r.
Arguments text_duplicate {B} r.

Definition pybloom_message : string :=
  "--count-duplicates option requires 'pybloom' package.".

Section get_metrics.
Context {B : Type} `{BloomFilter B}.
Variable percentile : gmap qkey nat → Q → Q.
Variable linregress : list Z → list nat → outcome (pyfloat * pyfloat).
Variable (e : env) (p : params).

(** Lines 311-315: [cycle_nuc[position][base]] for every base and
    position. *)
Definition touch_bases (bases : list ascii) (positions : list Z)
    (cn : gmap Z (gmap ascii nat)) : gmap Z (gmap ascii nat) :=
  foldl (λ d base, foldl (λ d position, touch2 position base d) d positions)
        cn bases.

(** Lines 320-323: [cycle_gc[i]] for [i in range(101)]. *)
Definition touch_read_gc (cgc : gmap nat nat) : gmap nat nat :=
  foldl (λ d i, touch 0%nat i d) cgc (seq 0 101).

(** Lines 234-333. *)
Definition derive (st : state B) : outcome (report B) :=
  let t := tal st in
  let positions := sorted_keys (cycle_qual t) in
  let bases := elements (all_symbols (cycle_nuc t)) in
  '(cq, quantiles) ← quantile_pass percentile positions (cycle_qual t);
  let kmers := elements (all_symbols (cycle_kmers t)) in
  '(ck, observed_expected, bad) ←
    kmer_loop linregress p (read_len t) kmers (cycle_kmers t, [], []);
  let bad_kmers := take 10 (sorted_by_p bad) in
  let '(cn, pos_gc) := pos_gc_loop positions (cycle_nuc t) in
  let cn := touch_bases bases positions cn in
  text_pos_gc ←
    mapM (λ position, pg ← py_index pos_gc (position - 1);
                      Ok (position, pg)) positions;
  let text_read_gc := map (λ i, (i, cycle_gc t !!! i)) (seq 0 101) in
  let cgc := touch_read_gc (cycle_gc t) in
  text_duplicate ←
    (if count_duplicates p then
       rate ← py_div (inject_Z (Z.of_nat (duplicates st)))
                     (inject_Z (act_nlines st));
       Ok (Some rate)
     else Ok None);
  Ok {| final :=
          {| tal := {| read_len := read_len t; cycle_nuc := cn;
                       cycle_qual := cq; cycle_gc := cgc;
                       cycle_kmers := ck;
                       cycle_mismatch := cycle_mismatch t |};
             bloom_filter := bloom_filter st;
             duplicates := duplicates st;
             percent_complete := percent_complete st;
             act_nlines := act_nlines st |};
        positions := positions;
        quantiles := quantiles;
        pos_gc := pos_gc;
        observed_expected := observed_expected;
        bad_kmers := bad_kmers;
        text_reads := act_nlines st;
        text_pos_gc := text_pos_gc;
        text_read_gc := text_read_gc;
        text_duplicate := text_duplicate |}.

(** [est_nlines] is the estimate of lines 47-110 and [infile] the reader:
    [infile n] is what [infile.subsample(n)] yields. *)
Definition get_metrics (est_nlines : option Z) (infile : Z → list Read)
    : outcome (report B) :=
  n ← bin_size est_nlines (binsize p) (nreads p);
  bf ← (if count_duplicates p then
          if pybloom e then Ok bloom_new else sys_exit pybloom_message
        else Ok bloom_new);
  st ← run_reads e p est_nlines n (initial_state bf) (infile n);
  derive st.
End get_metrics.

(** ** Sample inputs *)

Definition no_percentile : gmap qkey nat → Q → Q := λ _ _, 0%Q.
Definition flat_regress : list Z → list nat → outcome (pyfloat * pyfloat) :=
  λ _ _, Ok (Ffin 0, Ffin 1).
Definition plain_env : env := {| args := None; pybloom := true |}.
Definition acgt : Read := FastqRead ["A"; "C"; "G"; "T"]%char ["I"; "I"; "I"; "I"]%char.

Definition with_window (ll rl : Z) (p : params) : params :=
  {| binsize := binsize p; nreads := nreads p;
     count_duplicates := count_duplicates p;
     leftlimit := ll; rightlimit := rl; kmer := kmer p;
     base_probs := base_probs p |}.

(** ** Retained reads

    A read is retained when it passes the role filters and its trimmed
    sequence is not empty; [retained] is then the trimmed sequence and
    quality that are tallied. *)
Definition retained (ev : env) (p : params) (read : Read)
    : option (pystr * pystr) :=
  match select_read (args ev) read with
  | Ok (Some sq) =>
      let sq' := set_up_limits (leftlimit p) (rightlimit p) sq in
      if (length sq'.1 =? 0)%nat then None else Some sq'
  | _ => None
  end.

(** The retained read has a base and a quality symbol at cycle [pos]. *)
Definition tallied_at (ev : env) (p : params) (pos : Z) (read : Read) : bool :=
  match retained ev p read with
  | Some (seq, qual) =>
      bool_decide (leftlimit p ≤ pos
                   < leftlimit p + Z.of_nat (length (zip seq qual)))
  | None => false
  end.

(** ** The cycle window, as the specification words it

    Follows the spec's words (section 4.3, step 3): the cycle window
    [[leftlimit, rightlimit]] is 1-based and inclusive, and
    [rightlimit < 0] means to the end of the read.  A read of [len] bases
    has the cycles [1..len]. *)
Definition in_window (p : params) (len : nat) (pos : Z) : bool :=
  bool_decide (1 ≤ pos ∧ leftlimit p ≤ pos ≤ Z.of_nat len
               ∧ (rightlimit p < 0 ∨ pos ≤ rightlimit p)).

(** The window of a read that passed the role filters covers cycle
    [pos]. *)
Definition covers (ev : env) (p : params) (pos : Z) (read : Read) : bool :=
  match select_read (args ev) read with
  | Ok (Some (seq, _)) => in_window p (length seq) pos
  | _ => false
  end.

Definition short_qual_read : Read :=
  FastqRead ["A"; "C"; "G"; "T"]%char ["I"; "I"]%char.

Fixpoint count_reads (f : Read → bool) (reads : list Read) : nat :=
  match reads with
  | [] => 0
  | read :: reads' => ((if f read then 1 else 0) + count_reads f reads')%nat
  end.

(** A record with one quality symbol per base. *)
Definition well_formed (read : Read) : Prop :=
  match read with
  | FastqRead seq qual | SamRead seq qual _ _ _ => length seq = length qual
  end.

Definition aligned_only_env : env :=
  {| args := Some {| aligned_only := true; unaligned_only := false |};
     pybloom := true |}.

Definition unmapped_read : Read :=
  SamRead ["A"; "C"; "G"; "T"]%char ["I"; "I"; "I"; "I"]%char false false None.

Definition counting_params : params :=
  {| binsize := None; nreads := 2000000; count_duplicates := true;
     leftlimit := 1; rightlimit := -1; kmer := 5;
     base_probs := base_probs default_params |}.

Definition short_read : Read := FastqRead ["A"; "C"]%char ["I"; "I"]%char.

(** ** Duplicates among the retained reads

    [seen] says whether the detector answers that the trimmed sequence of a
    retained read is already a member; [remember] is the detector after the
    read; [duplicate_reads] counts the reads seen before, in stream order. *)
Section duplicate_reads.
Context {B : Type} `{BloomFilter B}.
Variable (ev : env) (p : params).

Definition seen (bf : B) (read : Read) : bool :=
  match retained ev p read with
  | Some (seq, _) => bloom_contains seq bf
  | None => false
  end.

Definition remember (bf : B) (read : Read) : B :=
  match retained ev p read with
  | Some (seq, _) => if bloom_contains seq bf then bf else bloom_add seq bf
  | None => bf
  end.

Fixpoint duplicate_reads (bf : B) (reads : list Read) : nat :=
  match reads with
  | [] => 0
  | read :: reads' =>
      ((if seen bf read then 1 else 0)
       + duplicate_reads (remember bf read) reads')%nat
  end.
End duplicate_reads.

(** The read passes the role filters (it is processed by the loop body). *)
Definition processed (ev : env) (read : Read) : bool :=
  if select_read (args ev) read is Ok (Some _) then true else false.

(** ** GC percentage of a position, as the corrected claim words it

    The binary64 quotient [(C+G) / (A+C+G+T)] over the nucleotide tally of
    the position, times 100 in binary64; the integer 0 when the denominator
    is zero. *)
Definition gc_percent (cn : gmap Z (gmap ascii nat)) (i : Z) : number :=
  let c := get2 i "C"%char cn in
  let g := get2 i "G"%char cn in
  let a := get2 i "A"%char cn in
  let t := get2 i "T"%char cn in
  if (a + c + g + t =? 0)%nat then Int 0
  else Float (float_mul
                (float_div (float_of_int (Z.of_nat (c + g)))
                           (float_of_int (Z.of_nat (a + c + g + t))))
                (float_of_int 100)).

(** 29 C and 71 A at cycle 1. *)
Definition nuc_29_of_100 : gmap Z (gmap ascii nat) :=
  <[1 := <["C"%char := 29%nat]> (<["A"%char := 71%nat]> ∅)]> ∅.

Definition sample_nuc : gmap Z (gmap ascii nat) :=
  <[1 := <["C"%char := 1%nat]> (<["A"%char := 1%nat]> ∅)]>
    (<[2 := <["N"%char := 2%nat]> ∅]> ∅).

(** ** Kmer profile and test regression

    [kmer_profile] is what [linregress] receives for a kmer: the sorted
    positions and the count of the kmer at each. *)
Definition kmer_profile (ck : gmap Z (gmap pystr nat)) (k_mer : pystr)
    : list Z * list nat :=
  (sorted_keys ck, map (λ i, get2 i k_mer ck) (sorted_keys ck)).

(** A stand-in for [stats.linregress] on test data: the least-squares slope
    over the rationals, with a p-value of 1/100 for a non-zero slope and 1
    for a flat profile. *)
Definition sum_Q (l : list Q) : Q := foldr Qplus 0%Q l.

Definition slope_regress (xs : list Z) (ys : list nat)
    : outcome (pyfloat * pyfloat) :=
  let x := map inject_Z xs in
  let y := map (λ v, inject_Z (Z.of_nat v)) ys in
  let n := inject_Z (Z.of_nat (length xs)) in
  let sxy := sum_Q (zip_with Qmult x y) in
  let sxx := sum_Q (zip_with Qmult x x) in
  let d := (n * sxx - sum_Q x * sum_Q x)%Q in
  if Qeq_bool d 0 then Raised ValueError
  else let slope := Qred ((n * sxy - sum_Q x * sum_Q y) / d)%Q in
       Ok (Ffin slope, Ffin (if Qeq_bool slope 0 then 1 else 1 # 100)%Q).

Definition sample_kmers : gmap Z (gmap pystr nat) :=
  <[1 := <[["A"; "C"]%char := 1%nat]> (<[["G"; "T"]%char := 3%nat]> ∅)]>
    (<[2 := <[["A"; "C"]%char := 6%nat]> (<[["G"; "T"]%char := 3%nat]> ∅)]>
       (<[3 := <[["A"; "C"]%char := 11%nat]> (<[["G"; "T"]%char := 3%nat]> ∅)]>
          ∅)).

Definition sample_read_len : gmap nat nat := <[4%nat := 10%nat]> ∅.

(** [x] is not after [y]: the p-value of [y] is not below that of [x]. *)
Definition p_le (x y : pystr * pyfloat * pyfloat) : Prop :=
  flt (snd y) (snd x) = false.

(** ** Quality tallies keyed by characters

    During the pass every key of a quality tally is a quality character;
    [ord c - 33] is the score it stands for. *)
Definition char_keyed (cq : gmap Z (gmap qkey nat)) : Prop :=
  ∀ (pos : Z) (v : gmap qkey nat) (q : qkey),
    cq !! pos = Some v → is_Some (v !! q) → ∃ c : ascii, q = inl c.

Definition score (c : ascii) : Z := Z.of_nat (nat_of_ascii c) - 33.

Definition one_base_read : Read := FastqRead ["A"]%char ["I"]%char.

(** ** Tallies at shifted cycle positions

    [shift_tallies d t] is [t] with every cycle position [pos] of the four
    cycle tallies moved to [d + pos]; the histograms do not have cycle
    positions. *)
#[global] Instance outcome_fmap : FMap outcome := λ A B f c,
  match c with
  | Ok a => Ok (f a)
  | Raised e => Raised e
  | SysExit s m => SysExit s m
  end.

Definition shift {V} (d : Z) (m : gmap Z V) : gmap Z V :=
  kmap (M2 := gmap Z) (Z.add d) m.

Definition shift_tallies (d : Z) (t : tallies) : tallies :=
  {| read_len := read_len t;
     cycle_nuc := shift d (cycle_nuc t);
     cycle_qual := shift d (cycle_qual t);
     cycle_gc := cycle_gc t;
     cycle_kmers := shift d (cycle_kmers t);
     cycle_mismatch := shift d <$> cycle_mismatch t |}.

Definition shift_state {B : Type} (d : Z) (st : state B) : state B :=
  {| tal := shift_tallies d (tal st); bloom_filter := bloom_filter st;
     duplicates := duplicates st; percent_complete := percent_complete st;
     act_nlines := act_nlines st |}.

(** * fastqd: the parallel download wrapper of [fastqp/fastqd.py] *)

(** ** [split_blocks] (lines 47-56)

    [int(total / n_pieces)] truncates a float quotient towards zero; for
    [|total| < 2^53] this is [Z.quot].  [%] is Python's remainder, with the
    sign of the divisor, which is [Z.modulo].  [out[i][1] += ...] updates
    the block at index [i] of [out]. *)
Definition block_step (avg total n_pieces : Z) (acc : list (Z * Z) * Z)
    (i : Z) : list (Z * Z) * Z :=
  let '(out, last) := acc in
  let out := out ++ [(last, last + avg - 1)] in
  let last := last + avg in
  let out :=
    if i =? n_pieces - 1
    then alter (λ b, (b.1, b.2 + total `mod` n_pieces)) (Z.to_nat i) out
    else out in
  (out, last).

Definition split_blocks (start end_ n_pieces : Z) : outcome (list (Z * Z)) :=
  let total := end_ - start + 1 in
  if n_pieces =? 0 then Raised ZeroDivisionError
  else
    let avg := total `quot` n_pieces in
    Ok (foldl (block_step avg total n_pieces) ([], start)
              (seqZ 0 n_pieces)).1.

(** ** [partition] (lines 67-74) *)
Definition partition {A} (f : A → bool) (l : list A) : list A * list A :=
  foldl (λ r i, if f i then (r.1 ++ [i], r.2) else (r.1, r.2 ++ [i]))
        ([], []) l.

(** ** The blocks of [pfd] (lines 15-30)

    [n_spots] is what [get_spot_count] returned; each block is handed to one
    [fastq-dump] process as its [-N] and [-X] bounds. *)
Record pfd_args := {
  threads : Z;
  minSpotId : Z;
  maxSpotId : option Z
}.

Definition pfd_blocks (a : pfd_args) (n_spots : Z) : outcome (list (Z * Z)) :=
  let start := Z.max (minSpotId a) 1 in
  let end_ :=
    match maxSpotId a with
    | Some m => Z.min m n_spots
    | None => n_spots
    end in
  blocks ← split_blocks start end_ (threads a);
  mapM (λ i, py_index blocks i) (seqZ 0 (threads a)).

(** A spot id lies in a block. *)
Definition in_block (s : Z) (b : Z * Z) : bool :=
  (b.1 <=? s) && (s <=? b.2).

(** The block of index [j] in closed form. *)
Definition nth_block (start avg total n_pieces j : Z) : Z * Z :=
  (start + j * avg,
   start + (j + 1) * avg - 1
   + (if j =? n_pieces - 1 then total `mod` n_pieces else 0)).

(** Blocks that follow one another from [lo] up to [hi], none of negative
    size. *)
Fixpoint tiles (lo : Z) (blocks : list (Z * Z)) (hi : Z) : Prop :=
  match blocks with
  | [] => lo = hi + 1
  | b :: blocks' => b.1 = lo ∧ lo ≤ b.2 + 1 ∧ tiles (b.2 + 1) blocks' hi
  end.

(** The number of blocks a spot id lies in. *)
Definition count_blocks (s : Z) (blocks : list (Z * Z)) : nat :=
  length (List.filter (in_block s) blocks).

Definition sample_pfd_args : pfd_args :=
  {| threads := 2; minSpotId := -3; maxSpotId := Some 100 |}.

(** The read is retained (it passes the role filters and its trimmed
    sequence is not empty). *)
Definition is_retained (ev : env) (p : params) (read : Read) : bool :=
  if retained ev p read is Some _ then true else false.

(** The number of quality symbols the retained reads keep after trimming. *)
Definition trimmed_bases (ev : env) (p : params) (reads : list Read) : nat :=
  sum_list (map (λ read, if retained ev p read is Some (_, qual)
                         then length qual else 0%nat) reads).


(** ** The longest retained read

    The largest number of (base, quality) pairs a retained read
    contributes; 0 when no read is retained. *)
Definition longest_retained (ev : env) (p : params) (reads : list Read) : nat :=
  foldr Nat.max 0%nat
    (map (λ read, if retained ev p read is Some (seq, qual)
                  then length (zip seq qual) else 0%nat) reads).


(** ** Symbols of a retained read at a cycle position

    [enumerate] pairs the element of index [i] with cycle [leftlimit + i];
    [at_cycle] is the element paired with cycle [pos]. *)
Definition at_cycle {A} (ll : Z) (l : list A) (pos : Z) : option A :=
  if ll <=? pos then l !! Z.to_nat (pos - ll) else None.

(** The (base, quality) pair and the kmer of a retained read at [pos]. *)
Definition pair_at (ev : env) (p : params) (pos : Z) (read : Read)
    : option (ascii * ascii) :=
  '(seq, qual) ← retained ev p read;
  at_cycle (leftlimit p) (zip seq qual) pos.

Definition kmer_at (ev : env) (p : params) (pos : Z) (read : Read)
    : option pystr :=
  '(seq, _) ← retained ev p read;
  at_cycle (leftlimit p) (window (kmer p) seq) pos.

(** The retained read is mapped and has a reference string from its MD
    tag, and the symbol of index [pos - leftlimit] of its sequence as
    tallied (trimmed, and reversed for a reverse-strand read) is [s] while
    the symbol of the same index of the reference string, which is neither
    trimmed nor reversed, is [r], one of C, G, A, T and different from
    [s]. *)
Definition mismatch_at (ev : env) (p : params) (pos : Z) (s r : ascii)
    (read : Read) : bool :=
  match read, retained ev p read with
  | SamRead _ _ true _ (Some ref), Some (seq, _) =>
      bool_decide (at_cycle (leftlimit p) (zip seq ref) pos = Some (s, r)
                   ∧ s ≠ r ∧ r ∈ ["C"; "G"; "A"; "T"]%char)
  | _, _ => false
  end.

Definition mismatched_read : Read :=
  SamRead ["A"; "C"; "G"; "T"]%char ["I"; "I"; "I"; "I"]%char true false
    (Some ["A"; "C"; "T"; "N"]%char).

(** A reverse-strand read whose bases are those of its reference. *)
Definition reverse_matching_read : Read :=
  SamRead ["A"; "C"]%char ["I"; "I"]%char true true (Some ["A"; "C"]%char).


(** ** Expected count of a kmer (lines 264-266)

    [expected_fraction * sequenced_bases], the divisor of the
    observed/expected ratio. *)
Definition expected (p : params) (rl : gmap nat nat) (k_mer : pystr) : Q :=
  (expected_fraction p k_mer * inject_Z (Z.of_nat (sequenced_bases rl)))%Q.

(** [sum(n for _, n in kmer_counts)] *)
Definition observed (ck : gmap Z (gmap pystr nat)) (k_mer : pystr) : nat :=
  sum_list (kmer_profile ck k_mer).2.


(** ** Sample name and extension (lines 37-41, 47-110)

    [in_file] is the base name of the input path. *)

(** [s.split(sep)] for a one-character separator. *)
Fixpoint split (sep : ascii) (s : pystr) : list pystr :=
  match s with
  | [] => [[]]
  | c :: s' =>
      if decide (c = sep) then [] :: split sep s'
      else match split sep s' with
           | w :: ws => (c :: w) :: ws
           | [] => [[c]]
           end
  end.

(** [name, ext = in_file.split('.')[0], '.' + in_file.split('.')[1]] *)
Definition name_ext (in_file : pystr) : outcome (pystr * pystr) :=
  let parts := split "." in_file in
  name ← py_index parts 0;
  e ← py_index parts 1;
  Ok (name, "."%char :: e).

(** The branch of the [if ext in ...] chain that sets [est_nlines];
    [no_estimate] when none applies and the name is left unbound. *)
Inductive estimate :=
  from_fastq | from_sam | from_bam | from_gz | from_stdin | no_estimate.

Definition estimate_branch (name ext : pystr) : estimate :=
  if bool_decide (ext ∈ [list_ascii_of_string ".fastq";
                         list_ascii_of_string ".fq"]) then from_fastq
  else if bool_decide (ext = list_ascii_of_string ".sam") then from_sam
  else if bool_decide (ext = list_ascii_of_string ".bam") then from_bam
  else if bool_decide (ext = list_ascii_of_string ".gz") then from_gz
  else if bool_decide (name = list_ascii_of_string "<stdin>") then from_stdin
  else no_estimate.

(** * Properties *)

(** ** Sampling *)

Lemma bin_size_estimate (e nr : Z) (b : option Z) :
  e ≠ 0 → nr ≠ 0 → truthy b = None →
  bin_size (Some e) b nr = Ok (Z.max 1 (e / nr)).
Proof.
  intros He Hnr Hb. unfold bin_size. rewrite Hb.
  destruct (Z.eqb_spec e 0) as [|_]; [done|].
  destruct (Z.eqb_spec nr 0) as [|_]; [done|].
  cbv zeta. destruct (Z.leb_spec 1 (e / nr)); f_equal; lia.
Qed.

(** C1: with an estimate [est_nlines] (a positive record count, below the
    2^53 up to which the float quotient floors exactly) and no [binsize]
    override, [get_metrics] samples with
    [n = max(1, floor(est_nlines / nreads))]; [nreads] defaults to 2,000,000
    and [binsize] to none; the same inputs give the same [n], and [n] is the
    stride handed to the reader and to the read loop. *)
Theorem bin_size_is_max_1_floor
    {B : Type} `{BloomFilter B}
    (pc : gmap qkey nat → Q → Q)
    (lr : list Z → list nat → outcome (pyfloat * pyfloat))
    (ev : env) (p : params) (e : Z) (infile : Z → list Read) :
  0 < e < 2 ^ 53 → nreads p ≠ 0 → truthy (binsize p) = None →
  let n := Z.max 1 (e / nreads p) in
  bin_size (Some e) (binsize p) (nreads p) = Ok n
  ∧ (∀ e' b' nr',
       e' = e → b' = binsize p → nr' = nreads p →
       bin_size (Some e') b' nr' = Ok n)
  ∧ nreads default_params = 2000000
  ∧ binsize default_params = None
  ∧ get_metrics pc lr ev p (Some e) infile =
      (bf ← (if count_duplicates p then
               if pybloom ev then Ok bloom_new else sys_exit pybloom_message
             else Ok bloom_new);
       st ← run_reads ev p (Some e) n (initial_state bf) (infile n);
       derive pc lr p st).
Proof.
  intros He Hnr Hb n.
  assert (Hn : bin_size (Some e) (binsize p) (nreads p) = Ok n)
    by (apply bin_size_estimate; [lia|done..]).
  split_and!; try done.
  - by intros ? ? ? -> -> ->.
  - unfold get_metrics. by rewrite Hn.
Qed.

Lemma bin_size_is_max_1_floor_witness :
  0 < 5000000 < 2 ^ 53
  ∧ bin_size (Some 5000000) (binsize default_params) (nreads default_params)
    = Ok 2.
Proof.
  split; [lia|].
  refine (proj1 (bin_size_is_max_1_floor (B := gset pystr)
                   no_percentile flat_regress plain_env default_params
                   5000000 (λ _, []) _ _ _)); [lia|done|reflexivity].
Defined.

(** C2: when the estimated record count is exactly 0, [get_metrics] ends in
    [sys.exit] with the empty-input message and status 1, whatever the
    arguments, the environment and the reader: the read loop is not entered
    and no tally exists in the outcome. *)
Theorem empty_input_is_fatal
    {B : Type} `{BloomFilter B}
    (pc : gmap qkey nat → Q → Q)
    (lr : list Z → list nat → outcome (pyfloat * pyfloat))
    (ev : env) (p : params) (infile : Z → list Read) :
  get_metrics (B := B) pc lr ev p (Some 0) infile
  = SysExit 1 "The input file appears empty. Please check the file for data."
  ∧ (1 ≠ 0)
  ∧ ∀ rep, get_metrics (B := B) pc lr ev p (Some 0) infile ≠ Ok rep.
Proof. by split_and!. Qed.

(** ** Reads that contribute no tally *)

Lemma set_up_limits_outside (ll rl : Z) (seq qual : pystr) :
  1 ≤ ll → rl ≠ 0 → Z.of_nat (length seq) < ll →
  (set_up_limits ll rl (seq, qual)).1 = [].
Proof.
  intros Hll Hrl Hlen. unfold set_up_limits, slice, slice_from.
  destruct (Z.eqb_spec ll 1), (Z.ltb_spec rl 0), (Z.leb_spec 1 ll),
    (Z.ltb_spec 0 rl), (Z.ltb_spec 1 ll); simpl; try lia.
  all: try (destruct seq; [done | simpl in Hlen; lia]).
  all: rewrite drop_ge; [try apply take_nil; done | lia].
Qed.

Section skipped.
Context {B : Type} `{BloomFilter B}.
Variable (ev : env) (p : params) (est_nlines : option Z) (n : Z).

Lemma loop_body_empty (st : state B) (read : Read) (seq qual : pystr) :
  select_read (args ev) read = Ok (Some (seq, qual)) →
  (set_up_limits (leftlimit p) (rightlimit p) (seq, qual)).1 = [] →
  loop_body ev p est_nlines n st read = Ok (skip_read n st).
Proof.
  intros Hsel Hemp. unfold loop_body. rewrite Hsel.
  change (Ok (Some (seq, qual)) ≫= ?k) with (k (Some (seq, qual))).
  cbv beta iota.
  destruct (set_up_limits _ _ _) as [s q]. simpl in Hemp. by subst s.
Qed.

End skipped.



(** ** Counts of the cycle tallies *)

Lemma total_insert `{Countable K} (k : K) (v : nat) (d : gmap K nat) :
  (total (<[k := v]> d) + d !!! k = total d + v)%nat.
Proof.
  unfold total. rewrite lookup_total_alt.
  destruct (d !! k) as [x|] eqn:Hk; simpl.
  - rewrite <-insert_delete_eq.
    rewrite map_fold_insert_L; [|intros; lia|apply lookup_delete_eq].
    rewrite (map_fold_delete_L _ _ k x d); [lia|intros; lia|done].
  - rewrite map_fold_insert_L; [lia|intros; lia|done].
Qed.

Lemma total_incr `{Countable K} (k : K) (d : gmap K nat) :
  total (incr k d) = S (total d).
Proof. unfold incr. pose proof (total_insert k (S (d !!! k)) d). lia. Qed.

Lemma total_incr2 `{Countable Sym} (i pos : Z) (s : Sym)
    (d : gmap Z (gmap Sym nat)) :
  total (incr2 i s d !!! pos)
  = ((if bool_decide (i = pos) then 1 else 0) + total (d !!! pos))%nat.
Proof.
  unfold incr2. case_bool_decide as Hi.
  - subst. by rewrite lookup_total_insert_eq, total_incr.
  - by rewrite lookup_total_insert_ne.
Qed.

Lemma foldl_preserves {A S X} (g : S → X) (f : S → A → S) (l : list A) (s : S) :
  (∀ s a, g (f s a) = g s) → g (foldl f s l) = g s.
Proof.
  intros Hf. revert s. induction l as [|a l IH]; intros s; simpl; [done|].
  by rewrite IH.
Qed.

Lemma tally_cycles_totals (ll pos : Z) (l : list (ascii * ascii)) :
  ∀ (i : nat) (t : tallies),
  let t' := foldl (cycle_step ll) t (enumerate_from i l) in
  let hit := if bool_decide (ll + Z.of_nat i ≤ pos
                             < ll + Z.of_nat i + Z.of_nat (length l))
             then 1%nat else 0%nat in
  total (cycle_nuc t' !!! pos) = (hit + total (cycle_nuc t !!! pos))%nat
  ∧ total (cycle_qual t' !!! pos) = (hit + total (cycle_qual t !!! pos))%nat.
Proof.
  induction l as [|[s q] l IH]; intros i t; cbn [foldl enumerate_from length].
  - case_bool_decide; [lia|done].
  - destruct (IH (S i) (cycle_step ll t (i, (s, q)))) as [IHn IHq].
    rewrite IHn, IHq. simpl. rewrite !total_incr2.
    repeat case_bool_decide; lia.
Qed.

Lemma tally_kmers_cycles (ll : Z) (k : nat) (seq : pystr) (t : tallies) :
  cycle_nuc (tally_kmers ll k seq t) = cycle_nuc t
  ∧ cycle_qual (tally_kmers ll k seq t) = cycle_qual t.
Proof.
  unfold tally_kmers. split.
  - apply (foldl_preserves cycle_nuc). by intros ? [].
  - apply (foldl_preserves cycle_qual). by intros ? [].
Qed.

Lemma mismatch_step_cycles (ll : Z) (t : tallies) (x : nat * (ascii * ascii)) :
  cycle_nuc (mismatch_step ll t x) = cycle_nuc t
  ∧ cycle_qual (mismatch_step ll t x) = cycle_qual t.
Proof.
  destruct x as [i [s r]]. unfold mismatch_step.
  destruct (decide (s = r)); [done|]. by destruct (cycle_mismatch t !! r).
Qed.

Lemma tally_mismatch_cycles (ll : Z) (read : Read) (seq : pystr) (t : tallies) :
  cycle_nuc (tally_mismatch ll read seq t) = cycle_nuc t
  ∧ cycle_qual (tally_mismatch ll read seq t) = cycle_qual t.
Proof.
  unfold tally_mismatch.
  destruct read as [|? ? [] ? [ref|]]; try done. split.
  - apply (foldl_preserves cycle_nuc). intros. apply mismatch_step_cycles.
  - apply (foldl_preserves cycle_qual). intros. apply mismatch_step_cycles.
Qed.

Section totals.
Context {B : Type} `{BloomFilter B}.
Variable (ev : env) (p : params) (est_nlines : option Z) (n : Z).

Lemma tal_tally_read (read : Read) (seq qual : pystr) (st : state B) :
  tal (tally_read p est_nlines n read seq qual st)
  = tally_mismatch (leftlimit p) read seq
      (tally_kmers (leftlimit p) (kmer p) seq
         (set_read_len (incr (length qual))
            (tally_cycles (leftlimit p) seq qual
               (set_cycle_gc (incr (gc seq)) (tal st))))).
Proof.
  unfold tally_read.
  by destruct (count_duplicates p), (bloom_contains seq (bloom_filter st)).
Qed.

Lemma tally_read_totals (read : Read) (seq qual : pystr) (st : state B)
    (pos : Z) :
  let st' := tally_read p est_nlines n read seq qual st in
  let hit := if bool_decide (leftlimit p ≤ pos
                             < leftlimit p + Z.of_nat (length (zip seq qual)))
             then 1%nat else 0%nat in
  total (cycle_nuc (tal st') !!! pos)
    = (hit + total (cycle_nuc (tal st) !!! pos))%nat
  ∧ total (cycle_qual (tal st') !!! pos)
    = (hit + total (cycle_qual (tal st) !!! pos))%nat.
Proof.
  intros st' hit. subst st'. rewrite tal_tally_read.
  destruct (tally_mismatch_cycles (leftlimit p) read seq
    (tally_kmers (leftlimit p) (kmer p) seq
         (set_read_len (incr (length qual))
            (tally_cycles (leftlimit p) seq qual
               (set_cycle_gc (incr (gc seq)) (tal st)))))) as [-> ->].
  destruct (tally_kmers_cycles (leftlimit p) (kmer p) seq
    (set_read_len (incr (length qual))
            (tally_cycles (leftlimit p) seq qual
               (set_cycle_gc (incr (gc seq)) (tal st))))) as [-> ->].
  cbn [set_read_len cycle_nuc cycle_qual].
  destruct (tally_cycles_totals (leftlimit p) pos (zip seq qual) 0
              (set_cycle_gc (incr (gc seq)) (tal st))) as [Hn Hq].
  unfold tally_cycles, enumerate. rewrite Hn, Hq.
  subst hit. cbn [set_cycle_gc cycle_nuc cycle_qual].
  split; repeat case_bool_decide; lia.
Qed.

Lemma loop_body_totals (st st' : state B) (read : Read) (pos : Z) :
  loop_body ev p est_nlines n st read = Ok st' →
  let hit := if tallied_at ev p pos read then 1%nat else 0%nat in
  total (cycle_nuc (tal st') !!! pos)
    = (hit + total (cycle_nuc (tal st) !!! pos))%nat
  ∧ total (cycle_qual (tal st') !!! pos)
    = (hit + total (cycle_qual (tal st) !!! pos))%nat.
Proof.
  unfold loop_body, tallied_at, retained.
  destruct (select_read (args ev) read) as [[sq|]| |]; simpl; try done.
  - destruct (set_up_limits _ _ sq) as [s q]. simpl.
    destruct (length s =? 0)%nat; intros [= <-]; [done|].
    apply tally_read_totals.
  - by intros [= <-].
Qed.

Lemma run_reads_totals (reads : list Read) (pos : Z) :
  ∀ st st' : state B,
  run_reads ev p est_nlines n st reads = Ok st' →
  total (cycle_nuc (tal st') !!! pos)
    = (count_reads (tallied_at ev p pos) reads
       + total (cycle_nuc (tal st) !!! pos))%nat
  ∧ total (cycle_qual (tal st') !!! pos)
    = (count_reads (tallied_at ev p pos) reads
       + total (cycle_qual (tal st) !!! pos))%nat.
Proof.
  induction reads as [|read reads IH]; intros st st'; simpl.
  - by intros [= <-].
  - destruct (loop_body ev p est_nlines n st read) as [st1| |] eqn:Hbody;
      simpl; try done.
    intros Hrun. destruct (IH _ _ Hrun) as [-> ->].
    destruct (loop_body_totals _ _ _ pos Hbody) as [-> ->]. lia.
Qed.
End totals.

Lemma set_up_limits_lengths (ll rl : Z) (seq qual : pystr) :
  length seq = length qual →
  length (set_up_limits ll rl (seq, qual)).1
  = length (set_up_limits ll rl (seq, qual)).2.
Proof.
  intros Hlen. unfold set_up_limits, slice, slice_from.
  repeat case_match; simpl; rewrite ?length_take, ?length_drop; lia.
Qed.

Lemma select_read_lengths (a : option role_flags) (read : Read)
    (seq qual : pystr) :
  well_formed read → select_read a read = Ok (Some (seq, qual)) →
  length seq = length qual.
Proof.
  destruct read as [s q|s q m r md]; simpl; intros Hwf.
  - by intros [= <- <-].
  - destruct a as [a|]; [|done].
    repeat case_match; intros [= <- <-]; rewrite ?length_rev; done.
Qed.

Lemma set_up_limits_length (ll rl : Z) (seq qual : pystr) :
  1 ≤ ll → rl ≠ 0 →
  Z.of_nat (length (set_up_limits ll rl (seq, qual)).1)
  = Z.max 0 ((if rl <? 0 then Z.of_nat (length seq)
              else Z.min rl (Z.of_nat (length seq))) - (ll - 1)).
Proof.
  intros Hll Hrl. unfold set_up_limits, slice, slice_from.
  destruct (Z.eqb_spec ll 1), (Z.ltb_spec rl 0), (Z.leb_spec 1 ll),
    (Z.ltb_spec 0 rl), (Z.ltb_spec 1 ll); cbn [andb fst]; try lia;
    rewrite ?length_take, ?length_drop; lia.
Qed.

Lemma tallied_at_covers (ev : env) (p : params) (pos : Z) (read : Read) :
  1 ≤ leftlimit p → rightlimit p ≠ 0 → well_formed read →
  tallied_at ev p pos read = covers ev p pos read.
Proof.
  intros Hll Hrl Hwf. unfold tallied_at, covers, retained, in_window.
  destruct (select_read (args ev) read) as [[[s q]|]| |] eqn:Hsel; try done.
  pose proof (select_read_lengths _ _ _ _ Hwf Hsel) as Hlen.
  pose proof (set_up_limits_lengths (leftlimit p) (rightlimit p) s q Hlen)
    as Hlen'.
  pose proof (set_up_limits_length (leftlimit p) (rightlimit p) s q Hll Hrl)
    as Htrim.
  cbv zeta. destruct (set_up_limits _ _ _) as [s' q']. cbn [fst snd] in *.
  destruct (Nat.eqb_spec (length s') 0) as [Hz|Hnz].
  - symmetry. apply bool_decide_eq_false_2. rewrite Hz in Htrim.
    destruct (Z.ltb_spec (rightlimit p) 0); lia.
  - rewrite length_zip, Nat.min_l by lia. apply bool_decide_ext.
    destruct (Z.ltb_spec (rightlimit p) 0); lia.
Qed.

Lemma count_reads_ext (f g : Read → bool) (reads : list Read) :
  Forall (λ read, f read = g read) reads →
  count_reads f reads = count_reads g reads.
Proof. induction 1 as [|read reads Hfg _ IH]; simpl; [done|]. by rewrite Hfg, IH. Qed.

Lemma total_at_empty `{Countable Sym} (pos : Z) :
  total ((∅ : gmap Z (gmap Sym nat)) !!! pos) = 0%nat.
Proof. rewrite lookup_total_empty. apply map_fold_empty. Qed.




(** ** Role filters *)

Lemma loop_body_filtered {B : Type} `{BloomFilter B}
    (ev : env) (p : params) (est_nlines : option Z) (n : Z)
    (st : state B) (read : Read) :
  select_read (args ev) read = Ok None →
  loop_body ev p est_nlines n st read = Ok st.
Proof. intros Hsel. unfold loop_body. by rewrite Hsel. Qed.

Lemma loop_body_unbound_args {B : Type} `{BloomFilter B}
    (ev : env) (p : params) (est_nlines : option Z) (n : Z) (st : state B)
    (seq qual : pystr) (mapped reverse : bool) (md : option pystr) :
  args ev = None →
  loop_body ev p est_nlines n st (SamRead seq qual mapped reverse md)
  = Raised NameError.
Proof. intros Ha. unfold loop_body. simpl. by rewrite Ha. Qed.

(** C5 (the code departs from it): an unmapped read met with
    [aligned_only] set leaves the loop at [continue] with the whole state,
    [act_nlines] included, as it was, while a read skipped for its window
    does advance [act_nlines] by [n]; and where [args] is unbound, as in
    this module, the filter raises [NameError] at the first [Sam] read. *)
Theorem role_filtered_read_does_not_advance_counter :
  let st0 := initial_state (B := gset pystr) bloom_new in
  loop_body aligned_only_env default_params (Some 4) 1 st0 unmapped_read
    = Ok st0
  ∧ act_nlines st0 ≠ act_nlines st0 + 1
  ∧ (∃ st1, loop_body aligned_only_env (with_window 5 (-1) default_params)
              (Some 4) 1 st0
              (SamRead ["A"; "C"; "G"]%char ["I"; "I"; "I"]%char
                 true false None) = Ok st1
         ∧ act_nlines st1 = act_nlines st0 + 1)
  ∧ loop_body plain_env default_params (Some 4) 1 st0 unmapped_read
    = Raised NameError.
Proof.
  intros st0. split_and!.
  - by apply loop_body_filtered.
  - simpl. lia.
  - eexists. split; [reflexivity|]. reflexivity.
  - by apply loop_body_unbound_args.
Qed.

(** ** Duplicate rate *)

Section duplicates.
Context {B : Type} `{BloomFilter B}.
Variable (ev : env) (p : params) (est_nlines : option Z) (n : Z).

Lemma loop_body_act_nlines (st st' : state B) (read : Read) :
  loop_body ev p est_nlines n st read = Ok st' →
  act_nlines st' = act_nlines st + (if processed ev read then n else 0).
Proof.
  unfold loop_body, processed.
  destruct (select_read (args ev) read) as [[sq|]| |]; simpl; try done.
  - destruct (set_up_limits _ _ sq) as [s q].
    destruct (length s =? 0)%nat; intros [= <-]; [done|].
    unfold tally_read.
    by destruct (count_duplicates p), (bloom_contains s (bloom_filter st)).
  - intros [= <-]. lia.
Qed.

(** The counter ends at [n] times the number of reads that passed the role
    filters. *)
Lemma run_reads_act_nlines (reads : list Read) :
  ∀ st st' : state B,
  run_reads ev p est_nlines n st reads = Ok st' →
  act_nlines st'
  = act_nlines st + n * Z.of_nat (count_reads (processed ev) reads).
Proof.
  induction reads as [|read reads IH]; intros st st'; simpl.
  - intros [= <-]. lia.
  - destruct (loop_body ev p est_nlines n st read) as [st1| |] eqn:Hbody;
      simpl; try done.
    intros Hrun. rewrite (IH _ _ Hrun), (loop_body_act_nlines _ _ _ Hbody).
    destruct (processed ev read); lia.
Qed.

Lemma loop_body_duplicates (st st' : state B) (read : Read) :
  count_duplicates p = true →
  loop_body ev p est_nlines n st read = Ok st' →
  duplicates st'
  = ((if seen ev p (bloom_filter st) read then 1 else 0) + duplicates st)%nat
  ∧ bloom_filter st' = remember ev p (bloom_filter st) read.
Proof.
  intros Hcd. unfold loop_body, seen, remember, retained.
  destruct (select_read (args ev) read) as [[sq|]| |]; simpl; try done.
  - destruct (set_up_limits _ _ sq) as [s q]. simpl.
    destruct (length s =? 0)%nat; intros [= <-]; [done|].
    unfold tally_read. rewrite Hcd.
    by destruct (bloom_contains s (bloom_filter st)).
  - by intros [= <-].
Qed.

Lemma run_reads_duplicates (reads : list Read) :
  count_duplicates p = true →
  ∀ st st' : state B,
  run_reads ev p est_nlines n st reads = Ok st' →
  duplicates st'
  = (duplicate_reads ev p (bloom_filter st) reads + duplicates st)%nat.
Proof.
  intros Hcd. induction reads as [|read reads IH]; intros st st'; simpl.
  - by intros [= <-].
  - destruct (loop_body ev p est_nlines n st read) as [st1| |] eqn:Hbody;
      simpl; try done.
    intros Hrun. rewrite (IH _ _ Hrun).
    destruct (loop_body_duplicates _ _ _ Hcd Hbody) as [-> ->]. lia.
Qed.
End duplicates.

Lemma derive_duplicate_rate {B : Type}
    (pc : gmap qkey nat → Q → Q)
    (lr : list Z → list nat → outcome (pyfloat * pyfloat))
    (p : params) (st : state B) (rep : report B) :
  count_duplicates p = true →
  derive pc lr p st = Ok rep →
  act_nlines st ≠ 0
  ∧ text_duplicate rep
    = Some (inject_Z (Z.of_nat (duplicates st)) / inject_Z (act_nlines st))%Q.
Proof.
  intros Hcd. unfold derive. rewrite Hcd.
  destruct (quantile_pass _ _ _) as [[cq qs]| |]; simpl; try done.
  destruct (kmer_loop _ _ _ _ _) as [[[ck oe] bad]| |]; simpl; try done.
  destruct (pos_gc_loop _ _) as [cn pg].
  destruct (mapM _ _) as [rows| |]; simpl; try done.
  unfold py_div.
  destruct (Qeq_bool (inject_Z (act_nlines st)) 0) eqn:Hz; simpl; try done.
  intros [= <-]. simpl. split; [|done].
  intros Hact. rewrite Hact in Hz. discriminate.
Qed.

Lemma derive_counters {B : Type}
    (pc : gmap qkey nat → Q → Q)
    (lr : list Z → list nat → outcome (pyfloat * pyfloat))
    (p : params) (st : state B) (rep : report B) :
  derive pc lr p st = Ok rep →
  text_reads rep = act_nlines st
  ∧ act_nlines (final rep) = act_nlines st
  ∧ duplicates (final rep) = duplicates st.
Proof.
  unfold derive.
  destruct (quantile_pass _ _ _) as [[cq qs]| |]; simpl; try done.
  destruct (kmer_loop _ _ _ _ _) as [[[ck oe] bad]| |]; simpl; try done.
  destruct (pos_gc_loop _ _) as [cn pg].
  destruct (mapM _ _) as [rows| |]; simpl; try done.
  destruct (count_duplicates p); simpl.
  - destruct (py_div _ _); simpl; try done. by intros [= <-].
  - by intros [= <-].
Qed.

(** C7: with duplicate counting on, the rate written is
    [duplicates / act_nlines]: [duplicates] is the number of retained reads
    whose trimmed sequence the duplicate set reported as already a member,
    and [act_nlines] is the processed-read counter, the total the report
    writes in its [reads] row, which the loop advances by the stride [n]
    for every read it processes. *)
Theorem duplicate_rate_is_duplicates_over_processed_total
    {B : Type} `{BloomFilter B}
    (pc : gmap qkey nat → Q → Q)
    (lr : list Z → list nat → outcome (pyfloat * pyfloat))
    (ev : env) (p : params) (est_nlines : option Z) (n : Z)
    (infile : Z → list Read) (rep : report B) :
  count_duplicates p = true →
  bin_size est_nlines (binsize p) (nreads p) = Ok n →
  get_metrics pc lr ev p est_nlines infile = Ok rep →
  let dup := duplicate_reads ev p bloom_new (infile n) in
  let done := count_reads (processed ev) (infile n) in
  text_duplicate rep
  = Some (inject_Z (Z.of_nat dup) / inject_Z (text_reads rep))%Q
  ∧ duplicates (final rep) = dup
  ∧ text_reads rep = act_nlines (final rep)
  ∧ text_reads rep = n * Z.of_nat done
  ∧ text_reads rep ≠ 0.
Proof.
  intros Hcd Hn. unfold get_metrics. rewrite Hn, Hcd. simpl.
  destruct (pybloom ev); simpl; [|done].
  destruct (run_reads _ _ _ _ _ _) as [st| |] eqn:Hrun; simpl; try done.
  intros Hrep.
  destruct (derive_duplicate_rate _ _ _ _ _ Hcd Hrep) as [Hnz Hrate].
  destruct (derive_counters _ _ _ _ _ Hrep) as (Htot & Hact' & Hdup').
  pose proof (run_reads_duplicates _ _ _ _ _ Hcd _ _ Hrun) as Hdup.
  pose proof (run_reads_act_nlines _ _ _ _ _ _ _ Hrun) as Hact.
  simpl in Hdup, Hact. rewrite Nat.add_0_r in Hdup.
  rewrite Hrate, Htot, Hact', Hdup', Hdup. split_and!; try done.
Qed.

Lemma duplicate_rate_is_duplicates_over_processed_total_witness :
  count_duplicates counting_params = true
  ∧ bin_size (Some 5000000) (binsize counting_params) (nreads counting_params)
    = Ok 2
  ∧ ∃ rep, get_metrics (B := gset pystr) no_percentile flat_regress plain_env
             counting_params (Some 5000000) (λ _, [short_read; short_read])
           = Ok rep
      ∧ text_reads rep = 4
      ∧ text_duplicate rep
        = Some (inject_Z (Z.of_nat 1) / inject_Z 4)%Q.
Proof.
  split; [reflexivity|]. split; [reflexivity|].
  destruct (get_metrics (B := gset pystr) no_percentile flat_regress plain_env
              counting_params (Some 5000000) (λ _, [short_read; short_read]))
    as [rep| |] eqn:Hrep; [|vm_compute in Hrep; discriminate..].
  exists rep. split; [done|].
  destruct (duplicate_rate_is_duplicates_over_processed_total (B := gset pystr)
           no_percentile flat_regress plain_env counting_params
           (Some 5000000) 2 (λ _, [short_read; short_read]) rep
           eq_refl eq_refl Hrep) as (Hrate & _ & _ & Htot & _).
  assert (Ht : text_reads rep = 4) by (rewrite Htot; reflexivity).
  split; [exact Ht|]. rewrite Hrate, Ht. reflexivity.
Defined.

(** ** Reads of a defaultdict keep every count *)

Lemma lookup_total_touch `{Countable K} (k j : K) (d : gmap K nat) :
  touch 0%nat j d !!! k = d !!! k.
Proof.
  unfold touch. destruct (d !! j) eqn:Hj; [done|].
  destruct (decide (j = k)) as [->|Hne].
  - by rewrite lookup_total_insert_eq, lookup_total_alt, Hj.
  - by rewrite lookup_total_insert_ne.
Qed.

Lemma get2_touch2 `{Countable K} `{Countable Sym}
    (i j : K) (s b : Sym) (d : gmap K (gmap Sym nat)) :
  get2 i s (touch2 j b d) = get2 i s d.
Proof.
  unfold get2, touch2. destruct (decide (j = i)) as [->|Hne].
  - by rewrite lookup_total_insert_eq, lookup_total_touch.
  - by rewrite lookup_total_insert_ne.
Qed.

(** ** GC by position *)

Lemma pos_gc_at_counts (i : Z) (cn : gmap Z (gmap ascii nat)) :
  ∀ (j : Z) (s : ascii), get2 j s (pos_gc_at i cn).1 = get2 j s cn.
Proof. intros j s. unfold pos_gc_at. simpl. by rewrite !get2_touch2. Qed.

Lemma pos_gc_at_value (i : Z) (cn : gmap Z (gmap ascii nat)) :
  (pos_gc_at i cn).2 = gc_percent cn i.
Proof.
  unfold pos_gc_at, gc_percent. cbn [snd]. rewrite !get2_touch2.
  set (c := get2 i "C"%char cn). set (g := get2 i "G"%char cn).
  set (a := get2 i "A"%char cn). set (t := get2 i "T"%char cn).
  unfold int_truediv.
  replace (c + g + a + t)%nat with (a + c + g + t)%nat by lia.
  destruct (Nat.eqb_spec (a + c + g + t) 0) as [Hz|Hnz].
  - by rewrite Hz.
  - by destruct (Z.eqb_spec (Z.of_nat (a + c + g + t)) 0); [lia|].
Qed.

Lemma pos_gc_loop_counts (positions : list Z) :
  ∀ (cn : gmap Z (gmap ascii nat)) (j : Z) (s : ascii),
  get2 j s (pos_gc_loop positions cn).1 = get2 j s cn.
Proof.
  induction positions as [|i positions IH]; intros cn j s;
    cbn [pos_gc_loop]; [done|].
  pose proof (pos_gc_at_counts i cn j s) as Hat.
  destruct (pos_gc_at i cn) as [cn1 pg]. specialize (IH cn1 j s).
  destruct (pos_gc_loop positions cn1) as [cn2 pgs].
  cbn [fst] in *. by rewrite IH.
Qed.

Lemma gc_percent_ext (cn cn' : gmap Z (gmap ascii nat)) (i : Z) :
  (∀ s, get2 i s cn' = get2 i s cn) → gc_percent cn' i = gc_percent cn i.
Proof. intros Hs. unfold gc_percent. by rewrite !Hs. Qed.

Lemma pos_gc_loop_length (positions : list Z) :
  ∀ cn : gmap Z (gmap ascii nat),
  length (pos_gc_loop positions cn).2 = length positions.
Proof.
  induction positions as [|i positions IH]; intros cn;
    cbn [pos_gc_loop]; [done|].
  destruct (pos_gc_at i cn) as [cn1 pg]. specialize (IH cn1).
  destruct (pos_gc_loop positions cn1) as [cn2 pgs].
  cbn [snd length] in *. by f_equal.
Qed.

Lemma pos_gc_loop_value (positions : list Z) :
  ∀ (cn : gmap Z (gmap ascii nat)) (k : nat) (i : Z),
  positions !! k = Some i →
  (pos_gc_loop positions cn).2 !! k = Some (gc_percent cn i).
Proof.
  induction positions as [|j positions IH]; intros cn k i Hk;
    [done|]. cbn [pos_gc_loop].
  pose proof (pos_gc_at_value j cn) as Hval.
  pose proof (pos_gc_at_counts j cn) as Hcnt.
  destruct (pos_gc_at j cn) as [cn1 pg]. cbn [fst snd] in *.
  specialize (IH cn1).
  destruct (pos_gc_loop positions cn1) as [cn2 pgs]. cbn [snd] in *.
  destruct k as [|k]; simpl in Hk.
  - injection Hk as ->. simpl. by rewrite Hval.
  - simpl. rewrite (IH k i Hk). f_equal.
    apply gc_percent_ext. intros s. apply Hcnt.
Qed.

(** C8, as the code has it: the GC percentage derived for each cycle
    position is computed in binary64 as the quotient [(C+G) / (A+C+G+T)]
    over the nucleotide tally of the position, rounded, times 100, rounded
    again; when that denominator is zero it is the integer 0.  The
    computation is a total function, one value per position in the order
    of the positions, read from the counts as they were before the loop,
    with no error left to propagate. *)
Theorem pos_gc_is_twice_rounded_gc_percent
    (positions : list Z) (cn : gmap Z (gmap ascii nat)) (k : nat) (i : Z) :
  positions !! k = Some i →
  length (pos_gc_loop positions cn).2 = length positions
  ∧ ∃ pg, (pos_gc_loop positions cn).2 !! k = Some pg
      ∧ pg = gc_percent cn i
      ∧ (get2 i "A"%char cn + get2 i "C"%char cn
         + get2 i "G"%char cn + get2 i "T"%char cn = 0
         → pg = Int 0)%nat
      ∧ (get2 i "A"%char cn + get2 i "C"%char cn
         + get2 i "G"%char cn + get2 i "T"%char cn ≠ 0
         → pg = Float
                  (float_mul
                     (float_div
                        (float_of_int
                           (Z.of_nat (get2 i "C"%char cn + get2 i "G"%char cn)))
                        (float_of_int
                           (Z.of_nat (get2 i "A"%char cn + get2 i "C"%char cn
                                      + get2 i "G"%char cn
                                      + get2 i "T"%char cn))))
                     (float_of_int 100)))%nat.
Proof.
  intros Hk. split; [apply pos_gc_loop_length|].
  exists (gc_percent cn i). split; [by apply pos_gc_loop_value|].
  split; [done|]. unfold gc_percent.
  by destruct (Nat.eqb_spec (get2 i "A"%char cn + get2 i "C"%char cn
                             + get2 i "G"%char cn + get2 i "T"%char cn) 0).
Qed.

Lemma pos_gc_is_twice_rounded_gc_percent_witness :
  [1; 2] !! 0%nat = Some 1
  ∧ [1; 2] !! 1%nat = Some 2
  ∧ length (pos_gc_loop [1; 2] sample_nuc).2 = 2%nat
  ∧ (pos_gc_loop [1; 2] sample_nuc).2 !! 0%nat = Some (Float (float_of_int 50))
  ∧ (pos_gc_loop [1; 2] sample_nuc).2 !! 1%nat = Some (Int 0).
Proof.
  split; [reflexivity|]. split; [reflexivity|].
  destruct (pos_gc_is_twice_rounded_gc_percent [1; 2] sample_nuc 0 1 eq_refl)
    as (Hlen & pg1 & Hpg1 & _ & _ & Hf).
  destruct (pos_gc_is_twice_rounded_gc_percent [1; 2] sample_nuc 1 2 eq_refl)
    as (_ & pg2 & Hpg2 & _ & Hz & _).
  split; [exact Hlen|]. split.
  - rewrite Hpg1, Hf by (vm_compute; lia). by vm_compute.
  - rewrite Hpg2, Hz by reflexivity. done.
Defined.

(** C8 fails as stated: for 29 C and 71 A at a position the code computes
    [29 / 100 * 100], which in binary64 is 28.999999999999996 (the float
    just below 29), where [100 * (C+G) / (A+C+G+T)] is 29, also when
    evaluated in binary64. *)
Lemma pos_gc_of_29_in_100_is_below_29 :
  get2 1 "C"%char nuc_29_of_100 = 29%nat
  ∧ get2 1 "G"%char nuc_29_of_100 = 0%nat
  ∧ get2 1 "A"%char nuc_29_of_100 = 71%nat
  ∧ get2 1 "T"%char nuc_29_of_100 = 0%nat
  ∧ (pos_gc_loop [1] nuc_29_of_100).2
    = [Float (S754_finite false 8162774324609023 (-48))]
  ∧ float_div (float_mul (float_of_int 100) (float_of_int 29))
              (float_of_int 100)
    = float_of_int 29
  ∧ float_of_int 29 = S754_finite false 8162774324609024 (-48)
  ∧ float_value (S754_finite false 8162774324609023 (-48))
    = Some (8162774324609023 # 281474976710656)%Q
  ∧ (8162774324609023 # 281474976710656 < 100 * 29 / 100)%Q.
Proof. split_and!; by vm_compute. Qed.

(** [derive] reports these values for the sorted positions of the quality
    tally. *)
Lemma derive_pos_gc {B : Type}
    (pc : gmap qkey nat → Q → Q)
    (lr : list Z → list nat → outcome (pyfloat * pyfloat))
    (p : params) (st : state B) (rep : report B) :
  derive pc lr p st = Ok rep →
  positions rep = sorted_keys (cycle_qual (tal st))
  ∧ pos_gc rep = (pos_gc_loop (positions rep) (cycle_nuc (tal st))).2.
Proof.
  unfold derive.
  destruct (quantile_pass _ _ _) as [[cq qs]| |]; simpl; try done.
  destruct (kmer_loop _ _ _ _ _) as [[[ck oe] bad]| |]; simpl; try done.
  destruct (pos_gc_loop _ _) as [cn pg] eqn:Hloop.
  destruct (mapM _ _) as [rows| |]; simpl; try done.
  destruct (count_duplicates p); simpl.
  - destruct (py_div _ _); simpl; try done. intros [= <-]. simpl.
    by rewrite Hloop.
  - intros [= <-]. simpl. by rewrite Hloop.
Qed.

(** ** Sorted positions of a tally *)

Lemma elem_of_sorted_keys {V} (d : gmap Z V) (i : Z) :
  i ∈ sorted_keys d ↔ is_Some (d !! i).
Proof.
  unfold sorted_keys. rewrite merge_sort_Permutation.
  change (map fst (map_to_list d)) with ((map_to_list d).*1).
  rewrite list_elem_of_fmap. split.
  - intros ([j x] & -> & Hjx). apply elem_of_map_to_list in Hjx. by exists x.
  - intros [x Hx]. exists (i, x). split; [done|]. by apply elem_of_map_to_list.
Qed.

Lemma NoDup_sorted_keys {V} (d : gmap Z V) : NoDup (sorted_keys d).
Proof.
  unfold sorted_keys. rewrite merge_sort_Permutation.
  apply NoDup_fst_map_to_list.
Qed.

Lemma sorted_keys_sorted {V} (d : gmap Z V) :
  StronglySorted Z.le (sorted_keys d).
Proof. apply (StronglySorted_merge_sort Z.le). Qed.

(** The sorted positions depend on the set of keys only. *)
Lemma sorted_keys_ext {V W} (d : gmap Z V) (d' : gmap Z W) :
  (∀ i, is_Some (d !! i) ↔ is_Some (d' !! i)) →
  sorted_keys d = sorted_keys d'.
Proof.
  intros Hdom. apply (StronglySorted_unique Z.le);
    [apply sorted_keys_sorted..|].
  apply NoDup_Permutation; [apply NoDup_sorted_keys..|].
  intros i. by rewrite !elem_of_sorted_keys.
Qed.

Lemma touch2_is_Some `{Countable Sym} (i j : Z) (s : Sym)
    (d : gmap Z (gmap Sym nat)) :
  is_Some (d !! j) → (is_Some (touch2 j s d !! i) ↔ is_Some (d !! i)).
Proof.
  intros Hj. unfold touch2. destruct (decide (j = i)) as [->|Hne].
  - rewrite lookup_insert_eq. split; [done|]. by eexists.
  - by rewrite lookup_insert_ne.
Qed.

Lemma touch_all_positions `{Countable Sym} (s : Sym) (keys : list Z) :
  ∀ d : gmap Z (gmap Sym nat),
  (∀ j, j ∈ keys → is_Some (d !! j)) →
  let d' := foldl (λ d i, touch2 i s d) d keys in
  (∀ i, is_Some (d' !! i) ↔ is_Some (d !! i))
  ∧ (∀ i b, get2 i b d' = get2 i b d).
Proof.
  induction keys as [|k keys IH]; intros d Hkeys; simpl; [done|].
  assert (Hk : is_Some (d !! k)) by (apply Hkeys; left).
  destruct (IH (touch2 k s d)) as [Hdom Hget].
  { intros j Hj. apply touch2_is_Some; [done|]. apply Hkeys. by right. }
  split.
  - intros i. rewrite Hdom. by apply touch2_is_Some.
  - intros i b. by rewrite Hget, get2_touch2.
Qed.
(** ** Kmer bias *)

#[local] Arguments kmer_body : simpl never.

Section kmer_bias.
Variable linregress : list Z → list nat → outcome (pyfloat * pyfloat).
Variable p : params.
Variable rl : gmap nat nat.

Lemma kmer_body_spec (k_mer : pystr) (ck ck' : gmap Z (gmap pystr nat))
    (oe oe' : list (pystr * Q)) (bad bad' : list (pystr * pyfloat * pyfloat)) :
  kmer_body linregress p rl k_mer (ck, oe, bad) = Ok (ck', oe', bad') →
  (∀ i, is_Some (ck' !! i) ↔ is_Some (ck !! i))
  ∧ (∀ i b, get2 i b ck' = get2 i b ck)
  ∧ ∃ slope p_value,
      linregress (kmer_profile ck k_mer).1 (kmer_profile ck k_mer).2
        = Ok (slope, p_value)
      ∧ bad' = if flagged slope p_value
               then bad ++ [(k_mer, slope, p_value)] else bad.
Proof.
  unfold kmer_body, kmer_profile. cbn [fst snd].
  rewrite !map_map. cbn [fst snd]. rewrite map_id.
  destruct (py_div _ _) as [q| |]; simpl; try done.
  destruct (linregress _ _) as [[slope p_value]| |]; simpl; try done.
  intros [= <- <- <-].
  destruct (touch_all_positions k_mer (sorted_keys ck) ck) as [Hdom Hget].
  { intros j Hj. by apply elem_of_sorted_keys. }
  split_and!; [done..|]. by exists slope, p_value.
Qed.

Lemma kmer_profile_ext (ck ck' : gmap Z (gmap pystr nat)) (k_mer : pystr) :
  (∀ i, is_Some (ck' !! i) ↔ is_Some (ck !! i)) →
  (∀ i b, get2 i b ck' = get2 i b ck) →
  kmer_profile ck' k_mer = kmer_profile ck k_mer.
Proof.
  intros Hdom Hget. unfold kmer_profile.
  rewrite (sorted_keys_ext ck' ck Hdom). f_equal.
  apply map_ext. intros i. apply Hget.
Qed.

Lemma kmer_loop_spec (kmers : list pystr) :
  ∀ (ck ck' : gmap Z (gmap pystr nat)) (oe oe' : list (pystr * Q))
    (bad bad' : list (pystr * pyfloat * pyfloat)),
  kmer_loop linregress p rl kmers (ck, oe, bad) = Ok (ck', oe', bad') →
  ∀ k_mer slope p_value,
    (k_mer, slope, p_value) ∈ bad'
    ↔ (k_mer, slope, p_value) ∈ bad
      ∨ (k_mer ∈ kmers
         ∧ linregress (kmer_profile ck k_mer).1 (kmer_profile ck k_mer).2
           = Ok (slope, p_value)
         ∧ flagged slope p_value = true).
Proof.
  induction kmers as [|k kmers IH]; intros ck ck' oe oe' bad bad'; simpl.
  - intros [= <- <- <-] k_mer slope p_value. split; [by left|].
    intros [?|[Hk _]]; [done|]. by apply elem_of_nil in Hk.
  - destruct (kmer_body linregress p rl k (ck, oe, bad))
      as [[[ck1 oe1] bad1]| |] eqn:Hbody; simpl; try done.
    intros Hloop k_mer slope p_value.
    destruct (kmer_body_spec _ _ _ _ _ _ _ Hbody)
      as (Hdom & Hget & s1 & p1 & Hlr & Hbad1).
    rewrite (IH _ _ _ _ _ _ Hloop k_mer slope p_value).
    rewrite (kmer_profile_ext ck ck1 k_mer Hdom Hget).
    rewrite elem_of_cons. subst bad1.
    destruct (flagged s1 p1) eqn:Hfl.
    + rewrite elem_of_app, list_elem_of_singleton. split.
      * intros [[?|[= -> -> ->]]|(? & ? & ?)]; [by left|right|by right; auto].
        split_and!; [by left|done..].
      * intros [?|([->|?] & Hlr' & Hfl')];
          [by left; left| |by right; auto].
        assert (E : Ok (s1, p1) = Ok (slope, p_value)) by (by rewrite <-Hlr).
        injection E as <- <-. left. by right.
    + split.
      * intros [?|(? & ? & ?)]; [by left|by right; auto].
      * intros [?|([->|?] & Hlr' & Hfl')]; [by left| |by right; auto].
        assert (E : Ok (s1, p1) = Ok (slope, p_value)) by (by rewrite <-Hlr).
        injection E as <- <-. congruence.
Qed.
End kmer_bias.
(** ** Order of the p-values *)

Lemma flt_not_nan (a b : pyfloat) : flt a b = true → a ≠ Fnan ∧ b ≠ Fnan.
Proof. by destruct a as [|[]|], b as [|[]|]. Qed.

Lemma flt_asym (a b : pyfloat) : flt a b = true → flt b a = false.
Proof.
  destruct a as [|[]|x], b as [|[]|y]; simpl; try done.
  rewrite !negb_true_iff, negb_false_iff. intros Hyx.
  apply Qle_bool_iff. apply Qlt_le_weak, Qnot_le_lt.
  intros Hle. apply Qle_bool_iff in Hle. congruence.
Qed.

Lemma fle_trans (a b c : pyfloat) :
  a ≠ Fnan → b ≠ Fnan → c ≠ Fnan →
  flt b a = false → flt c b = false → flt c a = false.
Proof.
  destruct a as [|[]|x], b as [|[]|y], c as [|[]|z]; simpl; try done.
  intros _ _ _. rewrite !negb_false_iff, !Qle_bool_iff. apply Qle_trans.
Qed.

Lemma flagged_finite (slope p_value : Q) :
  flagged (Ffin slope) (Ffin p_value) = true
  ↔ (2 < Qabs slope ∧ p_value < 1 # 20)%Q.
Proof.
  unfold flagged. cbn [flt fabs]. rewrite andb_true_iff, !negb_true_iff.
  assert (Hlt : ∀ x y : Q, Qle_bool y x = false ↔ (x < y)%Q).
  { intros x y. split.
    - intros Hb. apply Qnot_le_lt. intros Hle.
      apply Qle_bool_iff in Hle. congruence.
    - intros Hxy. destruct (Qle_bool y x) eqn:Hb; [|done].
      apply Qle_bool_iff in Hb. by apply Qle_not_lt in Hb. }
  by rewrite !Hlt.
Qed.

Lemma flagged_not_nan (slope p_value : pyfloat) :
  flagged slope p_value = true → p_value ≠ Fnan.
Proof.
  unfold flagged. intros [_ Hp]%andb_true_iff.
  by apply flt_not_nan in Hp as [? _].
Qed.

Lemma insert_by_p_perm (x : pystr * pyfloat * pyfloat)
    (l : list (pystr * pyfloat * pyfloat)) :
  insert_by_p x l ≡ₚ x :: l.
Proof.
  induction l as [|y l IH]; simpl; [done|].
  destruct (flt (snd y) (snd x)); [|done].
  rewrite IH. apply Permutation_swap.
Qed.

Lemma sorted_by_p_perm (l : list (pystr * pyfloat * pyfloat)) :
  sorted_by_p l ≡ₚ l.
Proof.
  induction l as [|x l IH]; simpl; [done|].
  rewrite insert_by_p_perm. by f_equiv.
Qed.

Lemma insert_by_p_sorted (x : pystr * pyfloat * pyfloat)
    (l : list (pystr * pyfloat * pyfloat)) :
  snd x ≠ Fnan → Forall (λ y, snd y ≠ Fnan) l →
  StronglySorted p_le l → StronglySorted p_le (insert_by_p x l).
Proof.
  intros Hx Hl Hs. induction Hs as [|y l Hs IH Hy]; simpl.
  - repeat constructor.
  - apply Forall_cons in Hl as [Hyn Hl].
    destruct (flt (snd y) (snd x)) eqn:Hyx.
    + constructor; [by apply IH|].
      rewrite insert_by_p_perm. constructor; [|done].
      by apply flt_asym.
    + constructor; [by constructor|].
      constructor; [done|].
      apply Forall_forall. intros z Hz.
      rewrite Forall_forall in Hy, Hl.
      apply (fle_trans (snd x) (snd y) (snd z)); auto.
      by apply Hy.
Qed.

Lemma sorted_by_p_sorted (l : list (pystr * pyfloat * pyfloat)) :
  Forall (λ y, snd y ≠ Fnan) l → StronglySorted p_le (sorted_by_p l).
Proof.
  induction 1 as [|x l Hx Hl IH]; simpl; [constructor|].
  apply insert_by_p_sorted; [done| |done].
  by rewrite sorted_by_p_perm.
Qed.

Lemma kmer_loop_length
    (linregress : list Z → list nat → outcome (pyfloat * pyfloat))
    (p : params) (rl : gmap nat nat) (kmers : list pystr) :
  ∀ (ck ck' : gmap Z (gmap pystr nat)) (oe oe' : list (pystr * Q))
    (bad bad' : list (pystr * pyfloat * pyfloat)),
  kmer_loop linregress p rl kmers (ck, oe, bad) = Ok (ck', oe', bad') →
  (length bad' ≤ length bad + length kmers)%nat.
Proof.
  induction kmers as [|k kmers IH]; intros ck ck' oe oe' bad bad'; simpl.
  - intros [= <- <- <-]. lia.
  - destruct (kmer_body linregress p rl k (ck, oe, bad))
      as [[[ck1 oe1] bad1]| |] eqn:Hbody; simpl; try done.
    intros Hloop.
    destruct (kmer_body_spec _ _ _ _ _ _ _ _ _ _ Hbody)
      as (_ & _ & s1 & p1 & _ & Hbad1).
    pose proof (IH _ _ _ _ _ _ Hloop) as Hlen. subst bad1.
    destruct (flagged s1 p1); rewrite ?length_app in Hlen; simpl in Hlen; lia.
Qed.



(** [derive] hands on the first 10 sorted flagged kmers of the loop over
    the observed kmers. *)
Lemma derive_bad_kmers {B : Type}
    (pc : gmap qkey nat → Q → Q)
    (lr : list Z → list nat → outcome (pyfloat * pyfloat))
    (p : params) (st : state B) (rep : report B) :
  derive pc lr p st = Ok rep →
  ∃ ck oe bad,
    kmer_loop lr p (read_len (tal st))
      (elements (all_symbols (cycle_kmers (tal st))))
      (cycle_kmers (tal st), [], []) = Ok (ck, oe, bad)
    ∧ bad_kmers rep = take 10 (sorted_by_p bad).
Proof.
  unfold derive.
  destruct (quantile_pass _ _ _) as [[cq qs]| |]; simpl; try done.
  destruct (kmer_loop _ _ _ _ _) as [[[ck oe] bad]| |]; simpl; try done.
  destruct (pos_gc_loop _ _) as [cn pg].
  destruct (mapM _ _) as [rows| |]; simpl; try done.
  destruct (count_duplicates p); simpl.
  - destruct (py_div _ _); simpl; try done. intros [= <-]. by exists ck, oe, bad.
  - intros [= <-]. by exists ck, oe, bad.
Qed.

(** ** The quantile computation re-keys the quality tally *)

Lemma score_inj (c c' : ascii) : score c = score c' → c = c'.
Proof.
  unfold score. intros Hs.
  assert (Hn : nat_of_ascii c = nat_of_ascii c') by lia.
  by rewrite <-(ascii_nat_embedding c), <-(ascii_nat_embedding c'), Hn.
Qed.

Lemma rekey_chars (keys : list qkey) :
  ∀ v : gmap qkey nat,
  NoDup keys →
  (∀ q, q ∈ keys → ∃ c, q = inl c ∧ is_Some (v !! q)) →
  ∃ v', rekey keys v = Ok v'
    ∧ (∀ c, inl c ∈ keys → v' !! inl c = None)
    ∧ (∀ c, inl c ∉ keys → v' !! inl c = v !! inl c)
    ∧ (∀ c, inl c ∈ keys → v' !! inr (score c) = v !! inl c)
    ∧ (∀ z, (∀ c, inl c ∈ keys → score c ≠ z) → v' !! inr z = v !! inr z).
Proof.
  induction keys as [|q keys IH]; intros v Hnd Hkeys.
  - exists v. split_and!; try done; intros c Hc; by apply elem_of_nil in Hc.
  - apply NoDup_cons in Hnd as [Hq Hnd].
    destruct (Hkeys q) as (c0 & -> & [x Hx]); [by left|].
    cbn [rekey]. rewrite Hx. cbn [ord_str mbind outcome_bind].
    fold (score c0).
    set (v1 := <[inr (score c0) := x]> (delete (inl c0) v)).
    destruct (IH v1 Hnd) as (v' & Hv' & Hgone & Hkept & Hmoved & Hother).
    { intros q Hin. destruct (Hkeys q) as (c & -> & Hc); [by right|].
      exists c. split; [done|]. subst v1.
      rewrite lookup_insert_ne, lookup_delete_ne; [done| |done].
      intros [= ->]. done. }
    exists v'. split; [exact Hv'|]. split_and!.
    + intros c [[= ->]|Hc]%elem_of_cons; [|by apply Hgone].
      rewrite Hkept by done. subst v1.
      by rewrite lookup_insert_ne, lookup_delete_eq.
    + intros c Hc. apply not_elem_of_cons in Hc as [Hne Hc].
      rewrite Hkept by done. subst v1.
      rewrite lookup_insert_ne, lookup_delete_ne; congruence.
    + intros c [[= ->]|Hc]%elem_of_cons.
      * rewrite Hother; [subst v1; by rewrite lookup_insert_eq|].
        intros c Hc Hs. apply score_inj in Hs as ->. done.
      * rewrite Hmoved by done. subst v1.
        rewrite lookup_insert_ne, lookup_delete_ne; [done| |done].
        intros [= ->]. done.
    + intros z Hz. rewrite Hother.
      * subst v1. rewrite lookup_insert_ne, lookup_delete_ne; [done..|].
        intros [= <-]. by apply (Hz c0); [left|].
      * intros c Hc. apply Hz. by right.
Qed.

(** The counts after re-keying a tally whose keys are characters. *)
Lemma rekey_counts (v : gmap qkey nat) :
  (∀ q, is_Some (v !! q) → ∃ c, q = inl c) →
  ∃ v', rekey (map fst (map_to_list v)) v = Ok v'
    ∧ (∀ c, v' !!! inr (score c) = v !!! inl c)
    ∧ (∀ c, v' !! inl c = None).
Proof.
  intros Hchars.
  assert (Hin : ∀ q, q ∈ map fst (map_to_list v) ↔ is_Some (v !! q)).
  { intros q. change (map fst (map_to_list v)) with ((map_to_list v).*1).
    rewrite list_elem_of_fmap. split.
    - intros ([j x] & -> & Hjx). apply elem_of_map_to_list in Hjx. by exists x.
    - intros [x Hx]. exists (q, x). split; [done|].
      by apply elem_of_map_to_list. }
  destruct (rekey_chars (map fst (map_to_list v)) v)
    as (v' & Hv' & Hgone & Hkept & Hmoved & Hother).
  { apply NoDup_fst_map_to_list. }
  { intros q Hq. apply Hin in Hq. destruct (Hchars q Hq) as [c ->]. eauto. }
  exists v'. split; [exact Hv'|]. split.
  - intros c. rewrite !lookup_total_alt.
    destruct (decide (inl c ∈ map fst (map_to_list v))) as [Hc|Hc].
    + by rewrite Hmoved.
    + rewrite Hother.
      * assert (Hn : v !! inl c = None).
        { apply eq_None_not_Some. by rewrite <-Hin. }
        assert (Hz : v !! inr (score c) = None).
        { apply eq_None_not_Some. intros Hs. by destruct (Hchars _ Hs). }
        by rewrite Hn, Hz.
      * intros c' Hc' Hs. apply score_inj in Hs as ->. done.
  - intros c. destruct (decide (inl c ∈ map fst (map_to_list v))) as [Hc|Hc].
    + by apply Hgone.
    + rewrite Hkept by done. apply eq_None_not_Some. by rewrite <-Hin.
Qed.

Section quantiles.
Variable percentile : gmap qkey nat → Q → Q.

Lemma quantile_pass_counts (positions : list Z) :
  ∀ cq : gmap Z (gmap qkey nat),
  NoDup positions →
  (∀ k v q, k ∈ positions → cq !! k = Some v → is_Some (v !! q) →
            ∃ c, q = inl c) →
  ∃ cq' quantiles,
    quantile_pass percentile positions cq = Ok (cq', quantiles)
    ∧ (∀ k, k ∉ positions → cq' !! k = cq !! k)
    ∧ (∀ k c, k ∈ positions →
         get2 k (inr (score c)) cq' = get2 k (inl c) cq
         ∧ (cq' !!! k) !! inl c = None).
Proof.
  induction positions as [|k positions IH]; intros cq Hnd Hchars.
  - exists cq, []. split_and!; try done.
    intros k c Hk. by apply elem_of_nil in Hk.
  - apply NoDup_cons in Hnd as [Hk Hnd]. cbn [quantile_pass].
    destruct (rekey_counts (cq !!! k)) as (v' & -> & Hmoved & Hgone).
    { intros q Hq. rewrite lookup_total_alt in Hq.
      destruct (cq !! k) as [v|] eqn:Hv; simpl in Hq.
      - apply (Hchars k v q); [by left|done..].
      - rewrite lookup_empty in Hq. by destruct Hq. }
    cbn [mbind outcome_bind].
    destruct (IH (<[k := v']> cq) Hnd) as (cq' & qs & -> & Hout & Hin).
    { intros j v q Hj Hv Hq.
      rewrite lookup_insert_ne in Hv by (intros ->; done).
      apply (Hchars j v q); [by right|done..]. }
    cbn [mbind outcome_bind]. eexists _, _. split; [done|]. split.
    + intros j Hj. apply not_elem_of_cons in Hj as [Hne Hj].
      by rewrite Hout, lookup_insert_ne.
    + intros j c [->|Hj]%elem_of_cons.
      * unfold get2. rewrite (lookup_total_alt cq'), Hout by done.
        rewrite lookup_insert_eq. simpl. by rewrite Hmoved, Hgone.
      * destruct (Hin j c Hj) as [Hg Hn]. split; [|done].
        rewrite Hg. unfold get2. rewrite lookup_total_insert_ne; [done|].
        intros ->. done.
Qed.
End quantiles.

(** ** The pass keys the quality tally by characters *)

Lemma char_keyed_incr2 (cq : gmap Z (gmap qkey nat)) (pos : Z) (c : ascii) :
  char_keyed cq → char_keyed (incr2 pos (inl c) cq).
Proof.
  intros Hcq pos' v q. unfold incr2, incr.
  destruct (decide (pos = pos')) as [->|Hne].
  - rewrite lookup_insert_eq. intros [= <-].
    destruct (decide (q = inl c)) as [->|Hq]; [by eexists|].
    rewrite lookup_insert_ne by done. rewrite lookup_total_alt.
    destruct (cq !! pos') as [v|] eqn:Hv; simpl.
    + by apply (Hcq pos' v q).
    + rewrite lookup_empty. by intros [].
  - rewrite lookup_insert_ne by done. apply Hcq.
Qed.

Lemma char_keyed_tally_cycles (ll : Z) (seq qual : pystr) (t : tallies) :
  char_keyed (cycle_qual t) →
  char_keyed (cycle_qual (tally_cycles ll seq qual t)).
Proof.
  unfold tally_cycles, enumerate. generalize 0%nat.
  revert t. induction (zip seq qual) as [|[s q] l IH]; intros t i Ht; [done|].
  cbn [enumerate_from foldl]. apply IH. simpl. by apply char_keyed_incr2.
Qed.

Section keyed.
Context {B : Type} `{BloomFilter B}.
Variable (ev : env) (p : params) (est_nlines : option Z) (n : Z).

Lemma char_keyed_loop_body (st st' : state B) (read : Read) :
  loop_body ev p est_nlines n st read = Ok st' →
  char_keyed (cycle_qual (tal st)) → char_keyed (cycle_qual (tal st')).
Proof.
  unfold loop_body.
  destruct (select_read (args ev) read) as [[sq|]| |]; simpl; try done.
  - destruct (set_up_limits _ _ sq) as [s q].
    destruct (length s =? 0)%nat; intros [= <-]; [done|].
    rewrite tal_tally_read. intros Hcq.
    destruct (tally_mismatch_cycles (leftlimit p) read s
      (tally_kmers (leftlimit p) (kmer p) s
         (set_read_len (incr (length q))
            (tally_cycles (leftlimit p) s q
               (set_cycle_gc (incr (gc s)) (tal st)))))) as [_ ->].
    destruct (tally_kmers_cycles (leftlimit p) (kmer p) s
      (set_read_len (incr (length q))
            (tally_cycles (leftlimit p) s q
               (set_cycle_gc (incr (gc s)) (tal st))))) as [_ ->].
    cbn [set_read_len cycle_qual]. by apply char_keyed_tally_cycles.
  - by intros [= <-].
Qed.

Lemma char_keyed_run_reads (reads : list Read) :
  ∀ st st' : state B,
  run_reads ev p est_nlines n st reads = Ok st' →
  char_keyed (cycle_qual (tal st)) → char_keyed (cycle_qual (tal st')).
Proof.
  induction reads as [|read reads IH]; intros st st'; simpl.
  - by intros [= <-].
  - destruct (loop_body ev p est_nlines n st read) as [st1| |] eqn:Hbody;
      simpl; try done.
    intros Hrun Hst. apply (IH _ _ Hrun).
    by apply (char_keyed_loop_body _ _ _ Hbody).
Qed.
End keyed.

Lemma char_keyed_empty : char_keyed ∅.
Proof. intros pos v q Hv. by rewrite lookup_empty in Hv. Qed.

(** ** The other derived statistics read the tallies *)

Lemma kmer_loop_counts
    (linregress : list Z → list nat → outcome (pyfloat * pyfloat))
    (p : params) (rl : gmap nat nat) (kmers : list pystr) :
  ∀ (ck ck' : gmap Z (gmap pystr nat)) (oe oe' : list (pystr * Q))
    (bad bad' : list (pystr * pyfloat * pyfloat)),
  kmer_loop linregress p rl kmers (ck, oe, bad) = Ok (ck', oe', bad') →
  ∀ i b, get2 i b ck' = get2 i b ck.
Proof.
  induction kmers as [|k kmers IH]; intros ck ck' oe oe' bad bad'; simpl.
  - by intros [= <- <- <-].
  - destruct (kmer_body linregress p rl k (ck, oe, bad))
      as [[[ck1 oe1] bad1]| |] eqn:Hbody; simpl; try done.
    intros Hloop i b.
    destruct (kmer_body_spec _ _ _ _ _ _ _ _ _ _ Hbody) as (_ & Hget & _).
    by rewrite (IH _ _ _ _ _ _ Hloop), Hget.
Qed.

Lemma touch_bases_counts (bases : list ascii) (positions : list Z)
    (cn : gmap Z (gmap ascii nat)) :
  ∀ i b, get2 i b (touch_bases bases positions cn) = get2 i b cn.
Proof.
  unfold touch_bases. revert cn.
  induction bases as [|base bases IH]; intros cn i b; simpl; [done|].
  rewrite IH. clear IH. revert cn.
  induction positions as [|k positions IH]; intros cn; simpl; [done|].
  by rewrite IH, get2_touch2.
Qed.

Lemma touch_read_gc_counts (cgc : gmap nat nat) (g : nat) :
  touch_read_gc cgc !!! g = cgc !!! g.
Proof.
  unfold touch_read_gc. generalize (seq 0 101). intros l. revert cgc.
  induction l as [|i l IH]; intros cgc; simpl; [done|].
  by rewrite IH, lookup_total_touch.
Qed.

Lemma get2_absent `{Countable Sym} (d : gmap Z (gmap Sym nat)) (i : Z) (s : Sym) :
  d !! i = None → get2 i s d = 0%nat.
Proof.
  intros Hi. unfold get2. rewrite (lookup_total_alt d), Hi. simpl.
  by rewrite lookup_total_empty.
Qed.

(** C9, as the code has it: the tallies get their counts in the streaming
    pass only, and the derived statistics change no count; but they do
    write to the tallies.  The quantile computation re-keys the
    quality-by-cycle tally in place, from each quality character [c] to the
    integer [ord(c) - 33]: afterwards the count of [c] is found under that
    integer and no character key is left in the tally of any position.  The reads of the nucleotide,
    kmer and GC tallies keep every count (a missing key reads and stays 0);
    the read-length and mismatch tallies, the duplicate detector and the
    counters are unchanged. *)
Theorem derived_statistics_keep_counts_and_rekey_quality
    {B : Type} `{BloomFilter B}
    (pc : gmap qkey nat → Q → Q)
    (lr : list Z → list nat → outcome (pyfloat * pyfloat))
    (ev : env) (p : params) (est_nlines : option Z) (n : Z) (bf : B)
    (reads : list Read) (st : state B) (rep : report B) :
  run_reads ev p est_nlines n (initial_state bf) reads = Ok st →
  derive pc lr p st = Ok rep →
  let t := tal st in
  let t' := tal (final rep) in
  read_len t' = read_len t
  ∧ cycle_mismatch t' = cycle_mismatch t
  ∧ (∀ pos s, get2 pos s (cycle_nuc t') = get2 pos s (cycle_nuc t))
  ∧ (∀ pos k, get2 pos k (cycle_kmers t') = get2 pos k (cycle_kmers t))
  ∧ (∀ g, cycle_gc t' !!! g = cycle_gc t !!! g)
  ∧ (∀ pos c, get2 pos (inr (score c)) (cycle_qual t')
              = get2 pos (inl c) (cycle_qual t))
  ∧ (∀ pos c, get2 pos (inl c) (cycle_qual t') = 0%nat)
  ∧ bloom_filter (final rep) = bloom_filter st
  ∧ duplicates (final rep) = duplicates st
  ∧ act_nlines (final rep) = act_nlines st
  ∧ (∀ pos v c, cycle_qual t' !! pos = Some v → v !! inl c = None).
Proof.
  intros Hrun Hrep t t'.
  assert (Hkeyed : char_keyed (cycle_qual t)).
  { apply (char_keyed_run_reads _ _ _ _ _ _ _ Hrun). apply char_keyed_empty. }
  destruct (quantile_pass_counts pc (sorted_keys (cycle_qual t)) (cycle_qual t))
    as (cq' & qs & Hq & Hout & Hin).
  { apply NoDup_sorted_keys. }
  { intros k v q _. apply Hkeyed. }
  subst t'. revert Hrep. unfold derive. fold t. rewrite Hq.
  cbn [mbind outcome_bind].
  destruct (kmer_loop _ _ _ _ _) as [[[ck oe] bad]| |] eqn:Hloop;
    cbn [mbind outcome_bind]; try done.
  pose proof (pos_gc_loop_counts (sorted_keys (cycle_qual t)) (cycle_nuc t))
    as Hgc.
  destruct (pos_gc_loop _ _) as [cn pg]. cbn [fst] in Hgc.
  destruct (mapM _ _) as [rows| |]; cbn [mbind outcome_bind]; try done.
  intros Hrep.
  assert (Hfinal : final rep =
    {| tal := {| read_len := read_len t;
                 cycle_nuc :=
                   touch_bases (elements (all_symbols (cycle_nuc t)))
                     (sorted_keys (cycle_qual t)) cn;
                 cycle_qual := cq'; cycle_gc := touch_read_gc (cycle_gc t);
                 cycle_kmers := ck; cycle_mismatch := cycle_mismatch t |};
       bloom_filter := bloom_filter st; duplicates := duplicates st;
       percent_complete := percent_complete st;
       act_nlines := act_nlines st |}).
  { destruct (count_duplicates p).
    - destruct (py_div _ _); cbn [mbind outcome_bind] in Hrep; try done.
      by injection Hrep as <-.
    - by injection Hrep as <-. }
  rewrite Hfinal. cbn [tal read_len cycle_nuc cycle_qual cycle_gc cycle_kmers
    cycle_mismatch bloom_filter duplicates act_nlines].
  split_and!; try done.
  - intros pos s. by rewrite touch_bases_counts, Hgc.
  - intros pos k. apply (kmer_loop_counts _ _ _ _ _ _ _ _ _ _ Hloop).
  - intros g. apply touch_read_gc_counts.
  - intros pos c.
    destruct (decide (pos ∈ sorted_keys (cycle_qual t))) as [Hpos|Hpos].
    + by apply Hin.
    + assert (Hnone : cycle_qual t !! pos = None).
      { apply eq_None_not_Some. by rewrite <-elem_of_sorted_keys. }
      rewrite !get2_absent; [done..|]. by rewrite Hout.
  - intros pos c. unfold get2.
    destruct (decide (pos ∈ sorted_keys (cycle_qual t))) as [Hpos|Hpos].
    + destruct (Hin pos c Hpos) as [_ Hn]. by rewrite lookup_total_alt, Hn.
    + assert (Hnone : cycle_qual t !! pos = None).
      { apply eq_None_not_Some. by rewrite <-elem_of_sorted_keys. }
      apply get2_absent. by rewrite Hout.
  - intros pos v c Hv.
    destruct (decide (pos ∈ sorted_keys (cycle_qual t))) as [Hpos|Hpos].
    + destruct (Hin pos c Hpos) as [_ Hn].
      by rewrite (lookup_total_correct _ _ _ Hv) in Hn.
    + assert (Hnone : cycle_qual t !! pos = None).
      { apply eq_None_not_Some. by rewrite <-elem_of_sorted_keys. }
      rewrite Hout, Hnone in Hv by done. done.
Qed.

Lemma derived_statistics_keep_counts_and_rekey_quality_witness :
  ∃ st rep,
    run_reads plain_env default_params (Some 1) 1
      (initial_state (B := gset pystr) bloom_new) [one_base_read] = Ok st
    ∧ derive no_percentile flat_regress default_params st = Ok rep
    ∧ get2 1 (inr 40) (cycle_qual (tal (final rep))) = 1%nat
    ∧ get2 1 (inl "I"%char) (cycle_qual (tal (final rep))) = 0%nat
    ∧ get2 1 "A"%char (cycle_nuc (tal (final rep))) = 1%nat
    ∧ (cycle_qual (tal (final rep)) !!! 1) !! inl "I"%char = None.
Proof.
  destruct (run_reads plain_env default_params (Some 1) 1
              (initial_state (B := gset pystr) bloom_new) [one_base_read])
    as [st| |] eqn:Hrun; [|vm_compute in Hrun; discriminate..].
  destruct (derive no_percentile flat_regress default_params st)
    as [rep| |] eqn:Hrep;
    [|vm_compute in Hrun; injection Hrun as <-;
      vm_compute in Hrep; discriminate..].
  exists st, rep. split; [done|]. split; [done|].
  destruct (derived_statistics_keep_counts_and_rekey_quality
              _ _ _ _ _ _ _ _ _ _ Hrun Hrep)
    as (_ & _ & Hnuc & _ & _ & Hqual & Hgone & _ & _ & _ & Hnokey).
  split_and!.
  - transitivity (get2 1 (inl "I"%char) (cycle_qual (tal st)));
      [exact (Hqual 1 "I"%char)|].
    vm_compute in Hrun. injection Hrun as <-. reflexivity.
  - apply Hgone.
  - rewrite Hnuc. vm_compute in Hrun. injection Hrun as <-. reflexivity.
  - destruct (cycle_qual (tal (final rep)) !! 1) as [v|] eqn:Hv.
    + rewrite (lookup_total_correct _ _ _ Hv). by apply (Hnokey 1).
    + by rewrite lookup_total_alt, Hv.
Defined.

(** C9 fails as stated: after one read with base A and quality I, the
    quality-by-cycle tally holds [{1: {'I': 1}}] before the quantile
    computation and [{1: {40: 1}}] after it; the nucleotide tally has
    gained zero entries as well. *)
Lemma derived_statistics_change_the_quality_tally :
  ∃ st rep,
    run_reads plain_env default_params (Some 1) 1
      (initial_state (B := gset pystr) bloom_new) [one_base_read] = Ok st
    ∧ derive no_percentile flat_regress default_params st = Ok rep
    ∧ cycle_qual (tal st) = {[1 := {[inl "I"%char := 1%nat]}]}
    ∧ cycle_qual (tal (final rep)) = {[1 := {[inr 40 := 1%nat]}]}
    ∧ cycle_qual (tal (final rep)) ≠ cycle_qual (tal st)
    ∧ cycle_nuc (tal (final rep)) ≠ cycle_nuc (tal st).
Proof.
  eexists _, _. split; [vm_compute; reflexivity|].
  split; [vm_compute; reflexivity|].
  split_and!; [by vm_compute..| |]; by vm_compute.
Qed.

(** ** A left limit below 1 *)

Lemma set_up_limits_below_1 (ll rl : Z) (sq : pystr * pystr) :
  ll < 1 → set_up_limits ll rl sq = sq.
Proof.
  intros Hll. unfold set_up_limits. destruct sq as [seq qual].
  destruct (Z.eqb_spec ll 1), (Z.leb_spec 1 ll), (Z.ltb_spec 1 ll);
    simpl; try lia. done.
Qed.

Lemma set_up_limits_default (sq : pystr * pystr) : set_up_limits 1 (-1) sq = sq.
Proof. by destruct sq. Qed.

#[local] Instance Z_add_inj (d : Z) : Inj eq eq (Z.add d).
Proof. intros x y. lia. Qed.

Lemma shift_incr2 `{Countable Sym} (d pos : Z) (s : Sym)
    (m : gmap Z (gmap Sym nat)) :
  shift d (incr2 pos s m) = incr2 (d + pos) s (shift d m).
Proof.
  unfold incr2, shift. rewrite (kmap_insert (Z.add d)).
  by rewrite (lookup_total_kmap (Z.add d)).
Qed.

Section shifted.
Variable (ll : Z).
#[local] Abbreviation d := (ll - 1).

Lemma cycle_step_shift (t : tallies) (x : nat * (ascii * ascii)) :
  cycle_step ll (shift_tallies d t) x = shift_tallies d (cycle_step 1 t x).
Proof.
  destruct x as [i [s q]]. unfold cycle_step, shift_tallies. simpl.
  rewrite !shift_incr2.
  by replace (ll - 1 + (1 + Z.of_nat i)) with (ll + Z.of_nat i) by lia.
Qed.

Lemma kmer_step_shift (t : tallies) (x : nat * pystr) :
  kmer_step ll (shift_tallies d t) x = shift_tallies d (kmer_step 1 t x).
Proof.
  destruct x as [i k]. unfold kmer_step, shift_tallies. simpl.
  rewrite !shift_incr2.
  by replace (ll - 1 + (1 + Z.of_nat i)) with (ll + Z.of_nat i) by lia.
Qed.

Lemma mismatch_step_shift (t : tallies) (x : nat * (ascii * ascii)) :
  mismatch_step ll (shift_tallies d t) x
  = shift_tallies d (mismatch_step 1 t x).
Proof.
  destruct x as [i [s r]]. unfold mismatch_step.
  destruct (decide (s = r)); [done|].
  cbn [shift_tallies cycle_mismatch]. rewrite lookup_fmap.
  destruct (cycle_mismatch t !! r) as [m|]; [|done]. simpl.
  unfold shift_tallies. simpl. rewrite fmap_insert, shift_incr2.
  by replace (ll - 1 + (1 + Z.of_nat i)) with (ll + Z.of_nat i) by lia.
Qed.

Lemma foldl_shift {A} (f g : tallies → A → tallies) (l : list A) :
  (∀ t x, f (shift_tallies d t) x = shift_tallies d (g t x)) →
  ∀ t, foldl f (shift_tallies d t) l = shift_tallies d (foldl g t l).
Proof.
  intros Hfg. induction l as [|x l IH]; intros t; simpl; [done|].
  by rewrite Hfg, IH.
Qed.

Lemma tally_mismatch_shift (read : Read) (seq : pystr) (t : tallies) :
  tally_mismatch ll read seq (shift_tallies d t)
  = shift_tallies d (tally_mismatch 1 read seq t).
Proof.
  unfold tally_mismatch. destruct read as [|? ? [] ? [ref|]]; try done.
  apply foldl_shift, mismatch_step_shift.
Qed.
End shifted.

Section below_1.
Context {B : Type} `{BloomFilter B}.
Variable (ev : env) (p : params) (est_nlines : option Z) (n : Z).
#[local] Abbreviation d' := (leftlimit p - 1).
#[local] Abbreviation p1 := (with_window 1 (-1) p).

Lemma tally_read_shift (read : Read) (seq qual : pystr) (st : state B) :
  tally_read p est_nlines n read seq qual (shift_state d' st)
  = shift_state d' (tally_read p1 est_nlines n read seq qual st).
Proof.
  assert (Htal : tal (tally_read p est_nlines n read seq qual (shift_state d' st))
    = shift_tallies d' (tal (tally_read p1 est_nlines n read seq qual st))).
  { rewrite !tal_tally_read.
    cbn [shift_state tal with_window leftlimit kmer].
    change (set_cycle_gc (incr (gc seq)) (shift_tallies d' (tal st)))
      with (shift_tallies d' (set_cycle_gc (incr (gc seq)) (tal st))).
    unfold tally_cycles, tally_kmers.
    rewrite (foldl_shift (leftlimit p) _ (cycle_step 1))
      by apply cycle_step_shift.
    change (set_read_len (incr (length qual)) (shift_tallies d' ?t))
      with (shift_tallies d' (set_read_len (incr (length qual)) t)).
    rewrite (foldl_shift (leftlimit p) _ (kmer_step 1))
      by apply kmer_step_shift.
    by rewrite tally_mismatch_shift. }
  revert Htal. unfold tally_read.
  cbn [shift_state tal bloom_filter duplicates percent_complete act_nlines
    with_window count_duplicates].
  destruct (count_duplicates p), (bloom_contains seq (bloom_filter st));
    cbn [tal]; by intros ->.
Qed.

Lemma loop_body_shift (st : state B) (read : Read) :
  leftlimit p < 1 →
  loop_body ev p est_nlines n (shift_state d' st) read
  = shift_state d' <$> loop_body ev p1 est_nlines n st read.
Proof.
  intros Hll. unfold loop_body.
  destruct (select_read (args ev) read) as [[sq|]| |]; try done.
  cbn [mbind outcome_bind with_window leftlimit rightlimit].
  rewrite set_up_limits_below_1, set_up_limits_default by done.
  destruct sq as [seq qual]. destruct (length seq =? 0)%nat; [done|].
  cbn [fmap outcome_fmap]. f_equal. apply tally_read_shift.
Qed.

Lemma run_reads_shift (reads : list Read) :
  leftlimit p < 1 →
  ∀ st : state B,
  run_reads ev p est_nlines n (shift_state d' st) reads
  = shift_state d' <$> run_reads ev p1 est_nlines n st reads.
Proof.
  intros Hll. induction reads as [|read reads IH]; intros st; [done|].
  cbn [run_reads]. rewrite loop_body_shift by done.
  destruct (loop_body ev p1 est_nlines n st read) as [st1| |]; try done.
  apply IH.
Qed.

Lemma shift_initial_state (bf : B) :
  shift_state d' (initial_state bf) = initial_state bf.
Proof.
  unfold shift_state, initial_state, shift_tallies, empty_tallies, shift.
  cbn [tal bloom_filter duplicates percent_complete act_nlines read_len
    cycle_nuc cycle_qual cycle_gc cycle_kmers cycle_mismatch].
  rewrite !fmap_insert, fmap_empty, !kmap_empty. done.
Qed.
End below_1.

(** C10, as the code has it: with [leftlimit < 1] no trimming branch
    applies, whatever [rightlimit] is, and each read is handled as under
    the default window [leftlimit=1, rightlimit=-1] (the same reads are
    skipped, counted and found duplicate, and an error is raised only where
    the default window raises it), except that the tallies are entered at
    cycle positions [leftlimit + i]: the four cycle tallies are those of the
    default window moved by [leftlimit - 1] positions. *)
Theorem leftlimit_below_1_shifts_default_window
    {B : Type} `{BloomFilter B}
    (ev : env) (p : params) (est_nlines : option Z) (n : Z) (bf : B) :
  leftlimit p < 1 →
  let d := leftlimit p - 1 in
  let p1 := with_window 1 (-1) p in
  (∀ sq, set_up_limits (leftlimit p) (rightlimit p) sq = sq)
  ∧ (∀ (st : state B) read,
       loop_body ev p est_nlines n (shift_state d st) read
       = shift_state d <$> loop_body ev p1 est_nlines n st read)
  ∧ (∀ reads,
       run_reads ev p est_nlines n (initial_state bf) reads
       = shift_state d <$> run_reads ev p1 est_nlines n (initial_state bf) reads).
Proof.
  intros Hll d p1. split_and!.
  - intros sq. by apply set_up_limits_below_1.
  - intros st read. by apply loop_body_shift.
  - intros reads. rewrite <-(shift_initial_state p bf) at 1.
    by apply run_reads_shift.
Qed.

Lemma leftlimit_below_1_shifts_default_window_witness :
  let p := with_window 0 5 default_params in
  leftlimit p < 1
  ∧ ∃ st1,
      run_reads plain_env default_params (Some 1) 1
        (initial_state (B := gset pystr) bloom_new) [acgt] = Ok st1
      ∧ run_reads plain_env p (Some 1) 1
          (initial_state (B := gset pystr) bloom_new) [acgt]
        = Ok (shift_state (-1) st1).
Proof.
  intros p. split; [simpl; lia|].
  destruct (run_reads plain_env default_params (Some 1) 1
              (initial_state (B := gset pystr) bloom_new) [acgt])
    as [st1| |] eqn:Hrun; [|vm_compute in Hrun; discriminate..].
  exists st1. split; [done|].
  destruct (leftlimit_below_1_shifts_default_window (B := gset pystr)
              plain_env p (Some 1) 1 bloom_new) as (_ & _ & Hreads);
    [simpl; lia|].
  rewrite (Hreads [acgt]).
  change (with_window 1 (-1) p) with default_params. by rewrite Hrun.
Defined.

(** C10 fails as stated: with [leftlimit = 0] a read of one base A is
    tallied at cycle position 0, where the default window tallies it at
    position 1. *)
Lemma leftlimit_0_is_not_the_default_window :
  let st0 := initial_state (B := gset pystr) bloom_new in
  ∃ st st1,
    loop_body plain_env (with_window 0 (-1) default_params) (Some 1) 1 st0
      one_base_read = Ok st
    ∧ loop_body plain_env default_params (Some 1) 1 st0 one_base_read = Ok st1
    ∧ cycle_nuc (tal st) = {[0 := {["A"%char := 1%nat]}]}
    ∧ cycle_nuc (tal st1) = {[1 := {["A"%char := 1%nat]}]}
    ∧ st ≠ st1.
Proof.
  eexists _, _. split; [vm_compute; reflexivity|].
  split; [vm_compute; reflexivity|].
  split_and!; by vm_compute.
Qed.

(** * Properties of [fastqd] *)

Lemma split_blocks_loop (start avg total n_pieces : Z) (k : nat) :
  Z.of_nat k ≤ n_pieces →
  foldl (block_step avg total n_pieces) ([], start) (seqZ 0 (Z.of_nat k))
  = (nth_block start avg total n_pieces <$> seqZ 0 (Z.of_nat k),
     start + Z.of_nat k * avg).
Proof.
  induction k as [|k IH]; intros Hk; [simpl; f_equal; lia|].
  rewrite seqZ_S, foldl_snoc, IH by lia. rewrite fmap_app. cbn [fmap list_fmap].
  unfold block_step at 1. f_equal; [|lia].
  rewrite Z.add_0_l, Nat2Z.id.
  destruct (Z.eqb_spec (Z.of_nat k) (n_pieces - 1)) as [He|He].
  - rewrite alter_app_r_alt by (rewrite length_fmap, length_seqZ; lia).
    rewrite length_fmap, length_seqZ, Nat2Z.id, Nat.sub_diag.
    f_equal. cbn. unfold nth_block.
    rewrite (proj2 (Z.eqb_eq _ _) He). do 2 f_equal; lia.
  - f_equal. unfold nth_block.
    rewrite (proj2 (Z.eqb_neq _ _) He). do 2 f_equal; lia.
Qed.

Lemma split_blocks_closed (start end_ n_pieces : Z) :
  0 < n_pieces →
  split_blocks start end_ n_pieces
  = Ok (nth_block start ((end_ - start + 1) `quot` n_pieces)
          (end_ - start + 1) n_pieces <$> seqZ 0 n_pieces).
Proof.
  intros Hn. unfold split_blocks.
  destruct (Z.eqb_spec n_pieces 0); [lia|]. cbv zeta.
  pose proof (split_blocks_loop start ((end_ - start + 1) `quot` n_pieces)
                (end_ - start + 1) n_pieces (Z.to_nat n_pieces)) as Hloop.
  rewrite Z2Nat.id in Hloop by lia. by rewrite Hloop.
Qed.

Lemma tiles_le (blocks : list (Z * Z)) :
  ∀ lo hi, tiles lo blocks hi → lo ≤ hi + 1.
Proof.
  induction blocks as [|b blocks IH]; intros lo hi; simpl; [lia|].
  intros (_ & Hb & Ht). apply IH in Ht. lia.
Qed.

Lemma tiles_app (l1 l2 : list (Z * Z)) :
  ∀ lo mid hi,
  tiles lo l1 mid → tiles (mid + 1) l2 hi → tiles lo (l1 ++ l2) hi.
Proof.
  induction l1 as [|b l1 IH]; intros lo mid hi; simpl.
  - by intros ->.
  - intros (Hlo & Hb & Ht) Hl2. split_and!; [done..|]. by apply IH with mid.
Qed.

Lemma tiles_count (blocks : list (Z * Z)) (s : Z) :
  ∀ lo hi, tiles lo blocks hi →
  count_blocks s blocks = if bool_decide (lo ≤ s ≤ hi) then 1%nat else 0%nat.
Proof.
  unfold count_blocks.
  induction blocks as [|[a b] blocks IH]; intros lo hi; simpl.
  - intros ->. case_bool_decide; [lia|done].
  - intros (Ha & Hb & Ht). simpl in Ha, Hb, Ht. subst lo.
    pose proof (tiles_le _ _ _ Ht) as Hle.
    specialize (IH _ _ Ht). unfold in_block at 1. simpl.
    destruct (Z.leb_spec a s), (Z.leb_spec s b); simpl; rewrite ?IH;
      repeat case_bool_decide; lia.
Qed.

Lemma tiles_uniform (start avg total n_pieces : Z) (m : nat) :
  0 ≤ avg →
  ∀ j0 : Z,
  j0 + Z.of_nat m ≤ n_pieces - 1 →
  tiles (start + j0 * avg)
    (nth_block start avg total n_pieces <$> seqZ j0 (Z.of_nat m))
    (start + (j0 + Z.of_nat m) * avg - 1).
Proof.
  intros Havg. induction m as [|m IH]; intros j0 Hj.
  - simpl. lia.
  - rewrite seqZ_cons by lia. cbn [fmap list_fmap tiles].
    unfold nth_block at 1 2 3. cbn [fst snd].
    destruct (Z.eqb_spec j0 (n_pieces - 1)); [lia|].
    split_and!; [done|lia|].
    replace (Z.pred (Z.of_nat (S m))) with (Z.of_nat m) by lia.
    replace (start + (j0 + 1) * avg - 1 + 0 + 1)
      with (start + Z.succ j0 * avg) by lia.
    replace (start + (j0 + Z.of_nat (S m)) * avg - 1)
      with (start + (Z.succ j0 + Z.of_nat m) * avg - 1) by lia.
    apply IH. lia.
Qed.

Lemma split_blocks_tiled (start end_ n_pieces : Z) :
  0 < n_pieces → start ≤ end_ + 1 →
  ∃ blocks,
    split_blocks start end_ n_pieces = Ok blocks
    ∧ length blocks = Z.to_nat n_pieces
    ∧ tiles start blocks end_.
Proof.
  intros Hn Hrange. eexists. split; [by apply split_blocks_closed|].
  set (total := end_ - start + 1). set (avg := total `quot` n_pieces).
  assert (Hq : avg = total `div` n_pieces)
    by (apply Z.quot_div_nonneg; lia).
  assert (Havg : 0 ≤ avg) by (rewrite Hq; apply Z.div_pos; lia).
  pose proof (Z.mod_pos_bound total n_pieces Hn) as Hr.
  pose proof (Z.div_mod total n_pieces ltac:(lia)) as Hdm.
  split; [by rewrite length_fmap, length_seqZ|].
  replace n_pieces with (Z.of_nat (Z.to_nat (n_pieces - 1)) + 1) at 2 by lia.
  rewrite seqZ_app, fmap_app by lia.
  apply tiles_app
    with (start + (0 + Z.of_nat (Z.to_nat (n_pieces - 1))) * avg - 1).
  - replace start with (start + 0 * avg) at 1 by lia.
    apply tiles_uniform; lia.
  - rewrite seqZ_cons, seqZ_nil by lia. cbn [fmap list_fmap tiles].
    unfold nth_block. cbn [fst snd].
    replace (0 + Z.of_nat (Z.to_nat (n_pieces - 1))) with (n_pieces - 1)
      by lia.
    rewrite Z.eqb_refl. split_and!; nia.
Qed.

(** [split_blocks] cuts [start..end] into [n_pieces] consecutive blocks:
    each block starts right after the one before, the first at [start], the
    last ends at [end]; so every spot id of the range lies in exactly one
    block and no other id lies in any. *)
Theorem split_blocks_tiles_range (start end_ n_pieces : Z) :
  0 < n_pieces → start ≤ end_ + 1 → end_ - start + 1 < 2 ^ 53 →
  ∃ blocks,
    split_blocks start end_ n_pieces = Ok blocks
    ∧ length blocks = Z.to_nat n_pieces
    ∧ tiles start blocks end_
    ∧ ∀ s, count_blocks s blocks
           = if bool_decide (start ≤ s ≤ end_) then 1%nat else 0%nat.
Proof.
  intros Hn Hrange _.
  destruct (split_blocks_tiled start end_ n_pieces Hn Hrange)
    as (blocks & Hb & Hlen & Htiles).
  exists blocks. split_and!; [done..|]. intros s. by apply tiles_count.
Qed.

Lemma split_blocks_tiles_range_witness :
  0 < 3 ∧ 1 ≤ 10 + 1 ∧ 10 - 1 + 1 < 2 ^ 53
  ∧ split_blocks 1 10 3 = Ok [(1, 3); (4, 6); (7, 10)]
  ∧ count_blocks 7 [(1, 3); (4, 6); (7, 10)] = 1%nat.
Proof.
  split; [lia|]. split; [lia|]. split; [lia|].
  destruct (split_blocks_tiles_range 1 10 3) as (blocks & Hb & _ & _ & Hc);
    [lia..|].
  assert (He : split_blocks 1 10 3 = Ok [(1, 3); (4, 6); (7, 10)])
    by reflexivity.
  split; [exact He|].
  rewrite He in Hb. injection Hb as <-. exact (Hc 7).
Defined.

(** With more pieces than spots, every block but the last is the empty
    block [[start, start - 1]] and the last block is the whole range. *)
Theorem split_blocks_more_pieces_than_spots
    (start end_ n_pieces : Z) (blocks : list (Z * Z)) :
  start ≤ end_ + 1 → end_ - start + 1 < n_pieces →
  end_ - start + 1 < 2 ^ 53 →
  split_blocks start end_ n_pieces = Ok blocks →
  ∀ (i : nat) (b : Z * Z), blocks !! i = Some b →
    if Z.of_nat i =? n_pieces - 1 then b = (start, end_)
    else b = (start, start - 1).
Proof.
  intros Hrange Hfew _. rewrite split_blocks_closed by lia.
  intros [= <-] i b. rewrite list_lookup_fmap.
  destruct (seqZ 0 n_pieces !! i) as [j|] eqn:Hj; [|done].
  apply lookup_seqZ in Hj as [-> Hi]. intros [= <-].
  unfold nth_block. rewrite Z.add_0_l.
  rewrite Z.quot_small by lia.
  destruct (Z.eqb_spec (Z.of_nat i) (n_pieces - 1)).
  - rewrite Z.mod_small by lia. f_equal; lia.
  - f_equal; lia.
Qed.

Lemma split_blocks_more_pieces_than_spots_witness :
  5 ≤ 6 + 1 ∧ 6 - 5 + 1 < 4 ∧ 6 - 5 + 1 < 2 ^ 53
  ∧ split_blocks 5 6 4 = Ok [(5, 4); (5, 4); (5, 4); (5, 6)]
  ∧ ∀ (i : nat) (b : Z * Z),
      [(5, 4); (5, 4); (5, 4); (5, 6)] !! i = Some b →
      if Z.of_nat i =? 4 - 1 then b = (5, 6) else b = (5, 5 - 1).
Proof.
  split; [lia|]. split; [lia|]. split; [lia|].
  assert (He : split_blocks 5 6 4 = Ok [(5, 4); (5, 4); (5, 4); (5, 6)])
    by reflexivity.
  split; [exact He|].
  apply (split_blocks_more_pieces_than_spots 5 6 4); [lia..|exact He].
Defined.

(** ** [partition] *)

Lemma partition_foldl {A} (f : A → bool) (l : list A) :
  ∀ r : list A * list A,
  foldl (λ r i, if f i then (r.1 ++ [i], r.2) else (r.1, r.2 ++ [i])) r l
  = (r.1 ++ List.filter f l, r.2 ++ List.filter (λ i, negb (f i)) l).
Proof.
  induction l as [|i l IH]; intros [yes no]; simpl.
  - by rewrite !app_nil_r.
  - rewrite IH. destruct (f i); simpl; by rewrite <-?app_assoc.
Qed.

(** [partition] returns the elements that satisfy [f] and those that do
    not, each in the order of the input; together they are a rearrangement
    of the input, so no element is lost or doubled. *)
Theorem partition_splits_in_order {A} (f : A → bool) (l : list A) :
  partition f l = (List.filter f l, List.filter (λ i, negb (f i)) l)
  ∧ (partition f l).1 ++ (partition f l).2 ≡ₚ l
  ∧ Forall (λ i, f i = true) (partition f l).1
  ∧ Forall (λ i, f i = false) (partition f l).2.
Proof.
  assert (Hp : partition f l
    = (List.filter f l, List.filter (λ i, negb (f i)) l)).
  { unfold partition. by rewrite partition_foldl. }
  rewrite Hp. cbn [fst snd]. split_and!; [done| | |].
  - clear Hp. induction l as [|i l IH]; simpl; [done|].
    destruct (f i); simpl; [by constructor|].
    by rewrite <-Permutation_middle, IH.
  - apply Forall_forall. intros i Hi.
    apply list_elem_of_In, filter_In in Hi. tauto.
  - apply Forall_forall. intros i Hi.
    apply list_elem_of_In, filter_In in Hi as [_ Hi].
    by apply negb_true_iff.
Qed.

(** ** The blocks of [pfd] *)

Lemma py_index_app {A} (l1 l2 : list A) (x : A) :
  py_index (l1 ++ x :: l2) (Z.of_nat (length l1)) = Ok x.
Proof.
  unfold py_index. rewrite length_app. cbn [length].
  destruct (Z.ltb_spec (Z.of_nat (length l1)) 0); [lia|].
  destruct (Z.leb_spec 0 (Z.of_nat (length l1))); [|lia].
  destruct (Z.ltb_spec (Z.of_nat (length l1))
              (Z.of_nat (length l1 + S (length l2)))); [|lia].
  cbn [andb]. rewrite Nat2Z.id.
  by rewrite lookup_app_r, Nat.sub_diag by lia.
Qed.

Lemma mapM_py_index {A} (l2 : list A) :
  ∀ l1 : list A,
  mapM (py_index (l1 ++ l2))
       (seqZ (Z.of_nat (length l1)) (Z.of_nat (length l2)))
  = Ok l2.
Proof.
  induction l2 as [|x l2 IH]; intros l1; [done|].
  rewrite seqZ_cons by (simpl; lia). cbn [mapM].
  rewrite py_index_app. cbn [mbind outcome_bind].
  replace (Z.pred (Z.of_nat (length (x :: l2)))) with (Z.of_nat (length l2))
    by (simpl; lia).
  replace (Z.succ (Z.of_nat (length l1)))
    with (Z.of_nat (length (l1 ++ [x]))) by (rewrite length_app; simpl; lia).
  replace (l1 ++ x :: l2) with ((l1 ++ [x]) ++ l2) by (by rewrite <-app_assoc).
  by rewrite IH.
Qed.

(** For at least one thread and a non-empty request, [pfd] gets one block
    per thread; the blocks cut the spots from [max(minSpotId, 1)] to
    [min(maxSpotId, n_spots)] (to [n_spots] without [maxSpotId]) into
    consecutive pieces, so each requested spot is fetched by exactly one
    process and no block reaches below spot 1 or past [n_spots]. *)
Theorem pfd_blocks_cover_requested_spots (a : pfd_args) (n_spots : Z) :
  let start := Z.max (minSpotId a) 1 in
  let end_ := match maxSpotId a with
              | Some m => Z.min m n_spots
              | None => n_spots
              end in
  0 < threads a → start ≤ end_ → end_ < 2 ^ 53 →
  ∃ blocks,
    pfd_blocks a n_spots = Ok blocks
    ∧ length blocks = Z.to_nat (threads a)
    ∧ tiles start blocks end_
    ∧ (∀ s, count_blocks s blocks
            = if bool_decide (start ≤ s ≤ end_) then 1%nat else 0%nat)
    ∧ (∀ s, count_blocks s blocks ≠ 0%nat → 1 ≤ s ≤ n_spots).
Proof.
  intros start end_ Hthreads Hrange Hbig.
  destruct (split_blocks_tiled start end_ (threads a))
    as (blocks & Hsplit & Hlen & Htiles); [lia..|].
  pose proof (λ s, tiles_count blocks s _ _ Htiles) as Hcount.
  exists blocks. unfold pfd_blocks. fold start end_.
  rewrite Hsplit. cbn [mbind outcome_bind].
  pose proof (mapM_py_index blocks []) as Hm.
  rewrite app_nil_l in Hm. change (Z.of_nat (length [])) with 0 in Hm.
  rewrite Hlen, Z2Nat.id in Hm by lia.
  split; [exact Hm|]. split_and!; try done.
  intros s. rewrite Hcount. case_bool_decide; [|done].
  intros _. subst start end_. destruct (maxSpotId a); lia.
Qed.

Lemma pfd_blocks_cover_requested_spots_witness :
  0 < threads sample_pfd_args
  ∧ Z.max (minSpotId sample_pfd_args) 1 ≤ Z.min 100 9
  ∧ Z.min 100 9 < 2 ^ 53
  ∧ pfd_blocks sample_pfd_args 9 = Ok [(1, 4); (5, 9)]
  ∧ ∀ s, count_blocks s [(1, 4); (5, 9)] ≠ 0%nat → 1 ≤ s ≤ 9.
Proof.
  split; [done|]. split; [simpl; lia|]. split; [simpl; lia|].
  destruct (pfd_blocks_cover_requested_spots sample_pfd_args 9)
    as (blocks & Hb & _ & _ & _ & Hin); [done|simpl; lia..|].
  assert (He : pfd_blocks sample_pfd_args 9 = Ok [(1, 4); (5, 9)])
    by reflexivity.
  split; [exact He|]. rewrite He in Hb. by injection Hb as <-.
Defined.

(** * Further properties of [get_metrics] *)

(** ** Sampling *)

(** Without an override and with a positive sample budget [nreads], the
    stride is at least 1 and keeps the expected sample, [est_nlines / n],
    below twice the budget; when the input has at least [nreads] records
    the sample does not fall below the budget. *)
Theorem bin_size_keeps_sample_near_budget (e nr : Z) (b : option Z) :
  0 < e < 2 ^ 53 → 0 < nr → truthy b = None →
  ∃ n, bin_size (Some e) b nr = Ok n
    ∧ 1 ≤ n
    ∧ e < 2 * nr * n
    ∧ (nr ≤ e → nr * n ≤ e).
Proof.
  intros He Hnr Hb. exists (Z.max 1 (e / nr)).
  split; [apply bin_size_estimate; [lia..|done]|].
  pose proof (Z.div_mod e nr ltac:(lia)) as Hdm.
  pose proof (Z.mod_pos_bound e nr Hnr) as Hm.
  assert (Hq : 0 ≤ e / nr) by (apply Z.div_pos; lia).
  split_and!; [lia|nia|]. intros Hle.
  assert (1 ≤ e / nr) by (apply Z.div_le_lower_bound; lia). nia.
Qed.

Lemma bin_size_keeps_sample_near_budget_witness :
  0 < 5000000 < 2 ^ 53 ∧ 0 < 2000000
  ∧ ∃ n, bin_size (Some 5000000) None 2000000 = Ok n
      ∧ 5000000 < 2 * 2000000 * n ∧ 2000000 * n ≤ 5000000.
Proof.
  split; [lia|]. split; [lia|].
  destruct (bin_size_keeps_sample_near_budget 5000000 2000000 None)
    as (n & Hn & _ & Hup & Hlow); [lia|lia|done|].
  exists n. split_and!; [done..|]. apply Hlow. lia.
Defined.


(** ** Fatal conditions *)

(** When duplicate counting is asked for and [pybloom] cannot be imported,
    [get_metrics] ends in [sys.exit] with the pybloom message and status 1
    once the stride is set, whatever the reader holds (no read is looked
    at); an input found empty exits with its own message first. *)
Theorem missing_pybloom_is_fatal_before_reading
    {B : Type} `{BloomFilter B}
    (pc : gmap qkey nat → Q → Q)
    (lr : list Z → list nat → outcome (pyfloat * pyfloat))
    (ev : env) (p : params) (est_nlines : option Z) (n : Z)
    (infile : Z → list Read) :
  count_duplicates p = true → pybloom ev = false →
  (bin_size est_nlines (binsize p) (nreads p) = Ok n →
   get_metrics (B := B) pc lr ev p est_nlines infile
   = SysExit 1 pybloom_message)
  ∧ get_metrics (B := B) pc lr ev p (Some 0) infile
    = SysExit 1 empty_message.
Proof.
  intros Hcd Hpb. split; [|done].
  intros Hn. unfold get_metrics. by rewrite Hn, Hcd, Hpb.
Qed.

Lemma missing_pybloom_is_fatal_before_reading_witness :
  count_duplicates counting_params = true
  ∧ pybloom {| args := None; pybloom := false |} = false
  ∧ get_metrics (B := gset pystr) no_percentile flat_regress
      {| args := None; pybloom := false |} counting_params (Some 7)
      (λ _, [unmapped_read])
    = SysExit 1 pybloom_message.
Proof.
  split; [done|]. split; [done|].
  apply (missing_pybloom_is_fatal_before_reading (B := gset pystr)
           no_percentile flat_regress {| args := None; pybloom := false |}
           counting_params (Some 7) 1 (λ _, [unmapped_read]));
    reflexivity.
Defined.

(** ** The reported total and the duplicate counter *)

Lemma derive_text_reads {B : Type}
    (pc : gmap qkey nat → Q → Q)
    (lr : list Z → list nat → outcome (pyfloat * pyfloat))
    (p : params) (st : state B) (rep : report B) :
  derive pc lr p st = Ok rep → text_reads rep = act_nlines st.
Proof.
  unfold derive.
  destruct (quantile_pass _ _ _) as [[cq qs]| |]; simpl; try done.
  destruct (kmer_loop _ _ _ _ _) as [[[ck oe] bad]| |]; simpl; try done.
  destruct (pos_gc_loop _ _) as [cn pg].
  destruct (mapM _ _) as [rows| |]; simpl; try done.
  destruct (count_duplicates p); simpl.
  - destruct (py_div _ _); simpl; try done. by intros [= <-].
  - by intros [= <-].
Qed.

(** The total written in the [reads] row is the stride times the number of
    reads that passed the role filters: every sampled read stands for [n]
    reads, whether it was tallied or skipped for its window. *)
Theorem reported_total_is_stride_times_processed
    {B : Type} `{BloomFilter B}
    (pc : gmap qkey nat → Q → Q)
    (lr : list Z → list nat → outcome (pyfloat * pyfloat))
    (ev : env) (p : params) (est_nlines : option Z) (n : Z)
    (infile : Z → list Read) (rep : report B) :
  bin_size est_nlines (binsize p) (nreads p) = Ok n →
  get_metrics pc lr ev p est_nlines infile = Ok rep →
  text_reads rep = n * Z.of_nat (count_reads (processed ev) (infile n)).
Proof.
  intros Hn. unfold get_metrics. rewrite Hn. cbn [mbind outcome_bind].
  destruct (if count_duplicates p then _ else _) as [bf| |];
    cbn [mbind outcome_bind]; try done.
  destruct (run_reads _ _ _ _ _ _) as [st| |] eqn:Hrun;
    cbn [mbind outcome_bind]; try done.
  intros Hrep. rewrite (derive_text_reads _ _ _ _ _ Hrep).
  by rewrite (run_reads_act_nlines _ _ _ _ _ _ _ Hrun).
Qed.

Lemma reported_total_is_stride_times_processed_witness :
  bin_size (Some 5000000) (binsize default_params) (nreads default_params)
    = Ok 2
  ∧ ∃ rep, get_metrics (B := gset pystr) no_percentile flat_regress plain_env
             default_params (Some 5000000)
             (λ _, [short_read; FastqRead [] []; short_read]) = Ok rep
      ∧ text_reads rep = 2 * Z.of_nat 3.
Proof.
  split; [reflexivity|].
  destruct (get_metrics (B := gset pystr) no_percentile flat_regress plain_env
              default_params (Some 5000000)
              (λ _, [short_read; FastqRead [] []; short_read]))
    as [rep| |] eqn:Hrep; [|vm_compute in Hrep; discriminate..].
  exists rep. split; [done|].
  exact (reported_total_is_stride_times_processed (B := gset pystr)
           no_percentile flat_regress plain_env default_params
           (Some 5000000) 2 _ rep eq_refl Hrep).
Defined.

Section duplicate_bound.
Context {B : Type} `{BloomFilter B}.
Variable (ev : env) (p : params) (est_nlines : option Z) (n : Z).

Lemma loop_body_duplicates_bound (st st' : state B) (read : Read) :
  loop_body ev p est_nlines n st read = Ok st' →
  (duplicates st' ≤ (if is_retained ev p read then 1 else 0) + duplicates st)%nat
  ∧ (duplicates st ≤ duplicates st')%nat
  ∧ (count_duplicates p = false →
     duplicates st' = duplicates st ∧ bloom_filter st' = bloom_filter st).
Proof.
  unfold loop_body, is_retained, retained.
  destruct (select_read (args ev) read) as [[sq|]| |]; simpl; try done.
  - destruct (set_up_limits _ _ sq) as [s q]. simpl.
    destruct (length s =? 0)%nat; intros [= <-]; [simpl; by split_and!|].
    unfold tally_read.
    destruct (count_duplicates p), (bloom_contains s (bloom_filter st));
      simpl; split_and!; (done || lia).
  - intros [= <-]. by split_and!.
Qed.
End duplicate_bound.

(** The duplicate counter never exceeds the number of retained reads, and
    without duplicate counting it stays 0 and the detector is never
    touched. *)
Theorem duplicates_at_most_retained_reads
    {B : Type} `{BloomFilter B}
    (ev : env) (p : params) (est_nlines : option Z) (n : Z) (bf : B)
    (reads : list Read) (st : state B) :
  run_reads ev p est_nlines n (initial_state bf) reads = Ok st →
  (duplicates st ≤ count_reads (is_retained ev p) reads)%nat
  ∧ (count_duplicates p = false →
     duplicates st = 0%nat ∧ bloom_filter st = bf).
Proof.
  assert (Hgen : ∀ reads (st0 st : state B),
    run_reads ev p est_nlines n st0 reads = Ok st →
    (duplicates st ≤ count_reads (is_retained ev p) reads + duplicates st0)%nat
    ∧ (count_duplicates p = false →
       duplicates st = duplicates st0 ∧ bloom_filter st = bloom_filter st0)).
  { clear reads st. induction reads as [|read reads IH]; intros st0 st; simpl.
    - intros [= <-]. split; [lia|done].
    - destruct (loop_body ev p est_nlines n st0 read) as [st1| |] eqn:Hbody;
        simpl; try done.
      intros Hrun. destruct (IH _ _ Hrun) as [Hle Hoff].
      destruct (loop_body_duplicates_bound _ _ _ _ _ _ _ Hbody)
        as (Hle1 & _ & Hoff1).
      split; [lia|]. intros Hcd.
      destruct (Hoff Hcd) as [-> ->]. by apply Hoff1. }
  intros Hrun. destruct (Hgen _ _ _ Hrun) as [Hle Hoff].
  split; [simpl in Hle; lia|done].
Qed.

Lemma duplicates_at_most_retained_reads_witness :
  ∃ st, run_reads plain_env counting_params (Some 3) 1
          (initial_state (B := gset pystr) bloom_new)
          [short_read; FastqRead [] []; short_read] = Ok st
    ∧ (duplicates st ≤ 2)%nat.
Proof.
  destruct (run_reads plain_env counting_params (Some 3) 1
              (initial_state (B := gset pystr) bloom_new)
              [short_read; FastqRead [] []; short_read])
    as [st| |] eqn:Hrun; [|vm_compute in Hrun; discriminate..].
  exists st. split; [done|].
  exact (proj1 (duplicates_at_most_retained_reads _ _ _ _ _ _ _ Hrun)).
Defined.

(** ** The cycle window *)

(** With a 1-based left limit and a right limit that is a position or
    negative, trimming keeps the cycle numbers: the symbol at index [i] of
    the trimmed sequence (and quality) is the one at 1-based cycle
    [leftlimit + i] of the read, and nothing past [rightlimit] is kept. *)
Theorem window_keeps_cycle_numbers
    (ll rl : Z) (seq qual : pystr) (i : nat) :
  1 ≤ ll → rl ≠ 0 →
  let inside := bool_decide (rl < 0 ∨ ll + Z.of_nat i ≤ rl) in
  (set_up_limits ll rl (seq, qual)).1 !! i
  = (if inside then seq !! (Z.to_nat (ll - 1) + i)%nat else None)
  ∧ (set_up_limits ll rl (seq, qual)).2 !! i
    = (if inside then qual !! (Z.to_nat (ll - 1) + i)%nat else None).
Proof.
  intros Hll Hrl inside. subst inside.
  unfold set_up_limits, slice, slice_from.
  destruct (Z.eqb_spec ll 1), (Z.ltb_spec rl 0), (Z.leb_spec 1 ll),
    (Z.ltb_spec 0 rl), (Z.ltb_spec 1 ll); cbn [andb fst snd]; try lia;
    subst; rewrite ?lookup_take, ?lookup_drop;
    repeat case_decide; repeat case_bool_decide; try done; lia.
Qed.

Lemma window_keeps_cycle_numbers_witness :
  1 ≤ 2 ∧ 3 ≠ 0
  ∧ (set_up_limits 2 3 (["A"; "C"; "G"; "T"]%char, ["I"; "J"; "K"; "L"]%char)).1
      !! 1%nat = Some "G"%char
  ∧ (set_up_limits 2 3 (["A"; "C"; "G"; "T"]%char, ["I"; "J"; "K"; "L"]%char)).2
      !! 2%nat = None.
Proof.
  split; [lia|]. split; [lia|].
  destruct (window_keeps_cycle_numbers 2 3 ["A"; "C"; "G"; "T"]%char
              ["I"; "J"; "K"; "L"]%char 1) as [Hs _]; [lia..|].
  destruct (window_keeps_cycle_numbers 2 3 ["A"; "C"; "G"; "T"]%char
              ["I"; "J"; "K"; "L"]%char 2) as [_ Hq]; [lia..|].
  split; [exact Hs|exact Hq].
Defined.

(** ** Histograms *)

Lemma sequenced_bases_incr (l : nat) (rl : gmap nat nat) :
  sequenced_bases (incr l rl) = (l + sequenced_bases rl)%nat.
Proof.
  unfold sequenced_bases, incr. rewrite lookup_total_alt.
  destruct (rl !! l) as [x|] eqn:Hl; simpl.
  - rewrite <-insert_delete_eq.
    rewrite map_fold_insert_L; [|intros; lia|apply lookup_delete_eq].
    rewrite (map_fold_delete_L _ _ l x rl); [lia|intros; lia|done].
  - rewrite map_fold_insert_L; [lia|intros; lia|done].
Qed.

Lemma tally_read_histograms {B : Type} `{BloomFilter B}
    (p : params) (est_nlines : option Z) (n : Z)
    (read : Read) (seq qual : pystr) (st : state B) :
  cycle_gc (tal (tally_read p est_nlines n read seq qual st))
  = incr (gc seq) (cycle_gc (tal st))
  ∧ read_len (tal (tally_read p est_nlines n read seq qual st))
    = incr (length qual) (read_len (tal st)).
Proof.
  rewrite tal_tally_read.
  assert (Hm : ∀ t, cycle_gc (tally_mismatch (leftlimit p) read seq t)
                    = cycle_gc t
                  ∧ read_len (tally_mismatch (leftlimit p) read seq t)
                    = read_len t).
  { intros t. unfold tally_mismatch.
    destruct read as [|? ? [] ? [ref|]]; try done.
    split; [apply (foldl_preserves cycle_gc)|apply (foldl_preserves read_len)];
      intros t' [i [s r]]; unfold mismatch_step;
      destruct (decide (s = r)); try done;
      by destruct (cycle_mismatch t' !! r). }
  assert (Hk : ∀ t, cycle_gc (tally_kmers (leftlimit p) (kmer p) seq t)
                    = cycle_gc t
                  ∧ read_len (tally_kmers (leftlimit p) (kmer p) seq t)
                    = read_len t).
  { intros t. unfold tally_kmers.
    split; [apply (foldl_preserves cycle_gc)|apply (foldl_preserves read_len)];
      by intros t' [i k]. }
  assert (Hc : ∀ t, cycle_gc (tally_cycles (leftlimit p) seq qual t)
                    = cycle_gc t
                  ∧ read_len (tally_cycles (leftlimit p) seq qual t)
                    = read_len t).
  { intros t. unfold tally_cycles.
    split; [apply (foldl_preserves cycle_gc)|apply (foldl_preserves read_len)];
      by intros t' [i [s q]]. }
  destruct (Hm (tally_kmers (leftlimit p) (kmer p) seq
         (set_read_len (incr (length qual))
            (tally_cycles (leftlimit p) seq qual
               (set_cycle_gc (incr (gc seq)) (tal st)))))) as [-> ->].
  destruct (Hk (set_read_len (incr (length qual))
            (tally_cycles (leftlimit p) seq qual
               (set_cycle_gc (incr (gc seq)) (tal st))))) as [-> ->].
  cbn [set_read_len cycle_gc read_len].
  destruct (Hc (set_cycle_gc (incr (gc seq)) (tal st))) as [-> ->].
  done.
Qed.

Section histograms.
Context {B : Type} `{BloomFilter B}.
Variable (ev : env) (p : params) (est_nlines : option Z) (n : Z).

Lemma loop_body_histograms (st st' : state B) (read : Read) :
  loop_body ev p est_nlines n st read = Ok st' →
  let hit := if is_retained ev p read then 1%nat else 0%nat in
  total (cycle_gc (tal st')) = (hit + total (cycle_gc (tal st)))%nat
  ∧ total (read_len (tal st')) = (hit + total (read_len (tal st)))%nat
  ∧ sequenced_bases (read_len (tal st'))
    = (trimmed_bases ev p [read] + sequenced_bases (read_len (tal st)))%nat.
Proof.
  unfold loop_body, is_retained, trimmed_bases, retained. cbn [map sum_list].
  destruct (select_read (args ev) read) as [[sq|]| |]; simpl; try done.
  - destruct (set_up_limits _ _ sq) as [s q]. simpl.
    destruct (length s =? 0)%nat; intros [= <-]; [done|].
    destruct (tally_read_histograms p est_nlines n read s q st) as [-> ->].
    rewrite !total_incr, sequenced_bases_incr. split_and!; lia.
  - by intros [= <-].
Qed.

Lemma run_reads_histograms (reads : list Read) :
  ∀ st st' : state B,
  run_reads ev p est_nlines n st reads = Ok st' →
  total (cycle_gc (tal st'))
    = (count_reads (is_retained ev p) reads + total (cycle_gc (tal st)))%nat
  ∧ total (read_len (tal st'))
    = (count_reads (is_retained ev p) reads + total (read_len (tal st)))%nat
  ∧ sequenced_bases (read_len (tal st'))
    = (trimmed_bases ev p reads + sequenced_bases (read_len (tal st)))%nat.
Proof.
  induction reads as [|read reads IH]; intros st st'.
  - by intros [= <-].
  - cbn [run_reads].
    destruct (loop_body ev p est_nlines n st read) as [st1| |] eqn:Hbody;
      cbn [mbind outcome_bind]; try done.
    intros Hrun. destruct (IH _ _ Hrun) as (-> & -> & ->).
    destruct (loop_body_histograms _ _ _ Hbody) as (-> & -> & ->).
    unfold trimmed_bases. cbn [map sum_list count_reads]. split_and!; lia.
Qed.
End histograms.

(** After the pass, the GC histogram and the read-length histogram each
    hold one count per retained read, and the bases the kmer expectation
    is scaled by, [sum(l * n for l, n in read_len.items())], are the
    quality symbols the retained reads keep after trimming. *)
Theorem histograms_count_retained_reads
    {B : Type} `{BloomFilter B}
    (ev : env) (p : params) (est_nlines : option Z) (n : Z) (bf : B)
    (reads : list Read) (st : state B) :
  run_reads ev p est_nlines n (initial_state bf) reads = Ok st →
  total (cycle_gc (tal st)) = count_reads (is_retained ev p) reads
  ∧ total (read_len (tal st)) = count_reads (is_retained ev p) reads
  ∧ sequenced_bases (read_len (tal st)) = trimmed_bases ev p reads.
Proof.
  intros Hrun.
  destruct (run_reads_histograms ev p est_nlines n reads _ _ Hrun)
    as (-> & -> & ->).
  cbn [initial_state tal empty_tallies cycle_gc read_len].
  unfold total, sequenced_bases. rewrite !map_fold_empty. lia.
Qed.

Lemma histograms_count_retained_reads_witness :
  ∃ st, run_reads plain_env default_params (Some 3) 1
          (initial_state (B := gset pystr) bloom_new)
          [acgt; FastqRead [] []; short_read] = Ok st
    ∧ total (cycle_gc (tal st)) = 2%nat
    ∧ sequenced_bases (read_len (tal st)) = 6%nat.
Proof.
  destruct (run_reads plain_env default_params (Some 3) 1
              (initial_state (B := gset pystr) bloom_new)
              [acgt; FastqRead [] []; short_read])
    as [st| |] eqn:Hrun; [|vm_compute in Hrun; discriminate..].
  exists st. split; [done|].
  destruct (histograms_count_retained_reads _ _ _ _ _ _ _ Hrun)
    as (-> & _ & ->).
  by vm_compute.
Defined.

(** ** Positions of the cycle tallies *)

Lemma incr2_is_Some `{Countable Sym} (i pos : Z) (s : Sym)
    (d : gmap Z (gmap Sym nat)) :
  is_Some (incr2 i s d !! pos) ↔ pos = i ∨ is_Some (d !! pos).
Proof.
  unfold incr2. destruct (decide (i = pos)) as [->|Hne].
  - rewrite lookup_insert_eq. split; [by left|by eexists].
  - rewrite lookup_insert_ne by done. split; [by right|].
    intros [->|?]; done.
Qed.

Lemma tally_cycles_positions (ll pos : Z) (l : list (ascii * ascii)) :
  ∀ (i : nat) (t : tallies),
  let t' := foldl (cycle_step ll) t (enumerate_from i l) in
  let hit := ll + Z.of_nat i ≤ pos < ll + Z.of_nat i + Z.of_nat (length l) in
  (is_Some (cycle_nuc t' !! pos) ↔ hit ∨ is_Some (cycle_nuc t !! pos))
  ∧ (is_Some (cycle_qual t' !! pos) ↔ hit ∨ is_Some (cycle_qual t !! pos)).
Proof.
  induction l as [|[s q] l IH]; intros i t; cbn [foldl enumerate_from length].
  - split; (split; [by right|intros [?|?]; [lia|done]]).
  - destruct (IH (S i) (cycle_step ll t (i, (s, q)))) as [IHn IHq].
    rewrite IHn, IHq. simpl. rewrite !incr2_is_Some.
    split; (split; [intros [?|[?|?]]|intros [?|?]]); try tauto;
      try (left; lia).
    + destruct (decide (pos = ll + Z.of_nat i)); [right; by left|left; lia].
    + destruct (decide (pos = ll + Z.of_nat i)); [right; by left|left; lia].
Qed.

Section positions.
Context {B : Type} `{BloomFilter B}.
Variable (ev : env) (p : params) (est_nlines : option Z) (n : Z).

Lemma loop_body_positions (st st' : state B) (read : Read) (pos : Z) :
  loop_body ev p est_nlines n st read = Ok st' →
  (is_Some (cycle_nuc (tal st') !! pos)
   ↔ tallied_at ev p pos read = true ∨ is_Some (cycle_nuc (tal st) !! pos))
  ∧ (is_Some (cycle_qual (tal st') !! pos)
     ↔ tallied_at ev p pos read = true
       ∨ is_Some (cycle_qual (tal st) !! pos)).
Proof.
  unfold loop_body, tallied_at, retained.
  destruct (select_read (args ev) read) as [[sq|]| |]; simpl; try done.
  - destruct (set_up_limits _ _ sq) as [s q]. simpl.
    destruct (length s =? 0)%nat; intros [= <-].
    + simpl. split; (split; [by right|by intros [?|?]]).
    + rewrite tal_tally_read.
      destruct (tally_mismatch_cycles (leftlimit p) read s
        (tally_kmers (leftlimit p) (kmer p) s
           (set_read_len (incr (length q))
              (tally_cycles (leftlimit p) s q
                 (set_cycle_gc (incr (gc s)) (tal st)))))) as [-> ->].
      destruct (tally_kmers_cycles (leftlimit p) (kmer p) s
        (set_read_len (incr (length q))
              (tally_cycles (leftlimit p) s q
                 (set_cycle_gc (incr (gc s)) (tal st))))) as [-> ->].
      cbn [set_read_len cycle_nuc cycle_qual].
      destruct (tally_cycles_positions (leftlimit p) pos (zip s q) 0
                  (set_cycle_gc (incr (gc s)) (tal st))) as [Hn Hq].
      unfold tally_cycles, enumerate. rewrite Hn, Hq.
      cbn [set_cycle_gc cycle_nuc cycle_qual].
      rewrite bool_decide_eq_true.
      replace (leftlimit p + Z.of_nat 0) with (leftlimit p) by lia. done.
  - intros [= <-]. split; (split; [by right|by intros [?|?]]).
Qed.

Lemma run_reads_positions (reads : list Read) (pos : Z) :
  ∀ st st' : state B,
  run_reads ev p est_nlines n st reads = Ok st' →
  (is_Some (cycle_nuc (tal st') !! pos)
   ↔ (0 < count_reads (tallied_at ev p pos) reads)%nat
     ∨ is_Some (cycle_nuc (tal st) !! pos))
  ∧ (is_Some (cycle_qual (tal st') !! pos)
     ↔ (0 < count_reads (tallied_at ev p pos) reads)%nat
       ∨ is_Some (cycle_qual (tal st) !! pos)).
Proof.
  induction reads as [|read reads IH]; intros st st'.
  - intros [= <-]. simpl. split; (split; [by right|intros [?|?]; [lia|done]]).
  - cbn [run_reads count_reads].
    destruct (loop_body ev p est_nlines n st read) as [st1| |] eqn:Hbody;
      cbn [mbind outcome_bind]; try done.
    intros Hrun. destruct (IH _ _ Hrun) as [-> ->].
    destruct (loop_body_positions _ _ _ pos Hbody) as [-> ->].
    destruct (tallied_at ev p pos read);
      split; (split; [intros [?|[?|?]]|intros [?|?]]);
      try tauto; try (left; lia); try done.
    all: right; by left.
Qed.
End positions.

Lemma tallied_at_inside_window (ev : env) (p : params) (pos : Z) (read : Read) :
  tallied_at ev p pos read = true →
  leftlimit p ≤ pos
  ∧ (1 ≤ leftlimit p → 0 < rightlimit p → pos ≤ rightlimit p).
Proof.
  unfold tallied_at, retained.
  destruct (select_read (args ev) read) as [[[s q]|]| |]; try done.
  cbv zeta.
  destruct (set_up_limits (leftlimit p) (rightlimit p) (s, q))
    as [s' q'] eqn:Hsq. cbn [fst].
  destruct (length s' =? 0)%nat; [done|].
  rewrite bool_decide_eq_true, length_zip. intros [Hlo Hhi].
  split; [done|]. intros Hll Hrl.
  assert (Hlen : (length s' ≤ Z.to_nat (rightlimit p - (leftlimit p - 1)))%nat).
  { replace s' with (set_up_limits (leftlimit p) (rightlimit p) (s, q)).1
      by (by rewrite Hsq).
    unfold set_up_limits, slice.
    destruct (Z.eqb_spec (leftlimit p) 1), (Z.ltb_spec (rightlimit p) 0),
      (Z.leb_spec 1 (leftlimit p)), (Z.ltb_spec 0 (rightlimit p));
      cbn [andb fst]; try lia; rewrite length_take; lia. }
  lia.
Qed.

(** After the pass, a cycle position has a nucleotide tally exactly when it
    has a quality tally, and exactly when some retained read has a base and
    a quality symbol there; such a position is never below [leftlimit] and,
    for a window with a 1-based start and a right end, never past
    [rightlimit]. *)
Theorem tallied_positions_lie_in_window
    {B : Type} `{BloomFilter B}
    (ev : env) (p : params) (est_nlines : option Z) (n : Z) (bf : B)
    (reads : list Read) (st : state B) (pos : Z) :
  run_reads ev p est_nlines n (initial_state bf) reads = Ok st →
  (is_Some (cycle_nuc (tal st) !! pos) ↔ is_Some (cycle_qual (tal st) !! pos))
  ∧ (is_Some (cycle_qual (tal st) !! pos)
     ↔ (0 < count_reads (tallied_at ev p pos) reads)%nat)
  ∧ (is_Some (cycle_qual (tal st) !! pos) →
     leftlimit p ≤ pos
     ∧ (1 ≤ leftlimit p → 0 < rightlimit p → pos ≤ rightlimit p)).
Proof.
  intros Hrun.
  destruct (run_reads_positions ev p est_nlines n reads pos _ _ Hrun)
    as [Hn Hq].
  cbn [initial_state tal empty_tallies cycle_nuc cycle_qual] in Hn, Hq.
  assert (Hnone : ¬ is_Some ((∅ : gmap Z (gmap ascii nat)) !! pos))
    by (rewrite lookup_empty; by intros []).
  assert (Hnone' : ¬ is_Some ((∅ : gmap Z (gmap qkey nat)) !! pos))
    by (rewrite lookup_empty; by intros []).
  split_and!.
  - rewrite Hn, Hq. tauto.
  - rewrite Hq. tauto.
  - intros Hpos. apply Hq in Hpos as [Hpos|?]; [|done].
    clear Hn Hq Hrun. induction reads as [|read reads IH]; simpl in Hpos;
      [lia|].
    destruct (tallied_at ev p pos read) eqn:Ht.
    + by apply (tallied_at_inside_window ev p pos read).
    + apply IH. lia.
Qed.

Lemma tallied_positions_lie_in_window_witness :
  ∃ st, run_reads plain_env (with_window 2 3 default_params) (Some 1) 1
          (initial_state (B := gset pystr) bloom_new) [acgt] = Ok st
    ∧ is_Some (cycle_qual (tal st) !! 3)
    ∧ is_Some (cycle_nuc (tal st) !! 3)
    ∧ ¬ is_Some (cycle_nuc (tal st) !! 4).
Proof.
  destruct (run_reads plain_env (with_window 2 3 default_params) (Some 1) 1
              (initial_state (B := gset pystr) bloom_new) [acgt])
    as [st| |] eqn:Hrun; [|vm_compute in Hrun; discriminate..].
  exists st. split; [done|].
  destruct (tallied_positions_lie_in_window _ _ _ _ _ _ _ 3 Hrun)
    as (Hnq & Hq & _).
  destruct (tallied_positions_lie_in_window _ _ _ _ _ _ _ 4 Hrun)
    as (Hnq4 & _ & Hin4).
  assert (H3 : is_Some (cycle_qual (tal st) !! 3)).
  { apply Hq. vm_compute. lia. }
  split_and!; [done|by apply Hnq|].
  intros H4. apply Hnq4, Hin4 in H4 as [_ H4].
  specialize (H4 ltac:(simpl; lia) ltac:(simpl; lia)). simpl in H4. lia.
Defined.

(** ** The tallied positions are contiguous *)

Lemma StronglySorted_seqZ (n : nat) :
  ∀ m : Z, StronglySorted Z.le (seqZ m (Z.of_nat n)).
Proof.
  induction n as [|n IH]; intros m; [constructor|].
  rewrite seqZ_cons by lia.
  replace (Z.pred (Z.of_nat (S n))) with (Z.of_nat n) by lia.
  constructor; [apply IH|]. apply Forall_seqZ. lia.
Qed.

Lemma some_read_tallied_at (ev : env) (p : params) (pos : Z)
    (reads : list Read) :
  (0 < count_reads (tallied_at ev p pos) reads)%nat
  ↔ leftlimit p ≤ pos
    < leftlimit p + Z.of_nat (longest_retained ev p reads).
Proof.
  unfold longest_retained.
  induction reads as [|read reads IH]; cbn [count_reads map foldr]; [lia|].
  unfold tallied_at at 1.
  destruct (retained ev p read) as [[s q]|].
  - case_bool_decide; lia.
  - rewrite Nat.max_0_l. rewrite <-IH. lia.
Qed.

Lemma positions_keys
    {B : Type} `{BloomFilter B}
    (ev : env) (p : params) (est_nlines : option Z) (n : Z) (bf : B)
    (reads : list Read) (st : state B) :
  run_reads ev p est_nlines n (initial_state bf) reads = Ok st →
  sorted_keys (cycle_qual (tal st))
  = seqZ (leftlimit p) (Z.of_nat (longest_retained ev p reads))
  ∧ sorted_keys (cycle_nuc (tal st)) = sorted_keys (cycle_qual (tal st)).
Proof.
  intros Hrun.
  assert (Hpos : ∀ pos,
    (is_Some (cycle_nuc (tal st) !! pos)
     ↔ (0 < count_reads (tallied_at ev p pos) reads)%nat)
    ∧ (is_Some (cycle_qual (tal st) !! pos)
       ↔ (0 < count_reads (tallied_at ev p pos) reads)%nat)).
  { intros pos.
    destruct (run_reads_positions ev p est_nlines n reads pos _ _ Hrun)
      as [Hn Hq].
    cbn [initial_state tal empty_tallies cycle_nuc cycle_qual] in Hn, Hq.
    assert (Hnone : ¬ is_Some ((∅ : gmap Z (gmap ascii nat)) !! pos))
      by (rewrite lookup_empty; by intros []).
    assert (Hnone' : ¬ is_Some ((∅ : gmap Z (gmap qkey nat)) !! pos))
      by (rewrite lookup_empty; by intros []).
    rewrite Hn, Hq. tauto. }
  split.
  - apply (StronglySorted_unique Z.le);
      [apply sorted_keys_sorted|apply StronglySorted_seqZ|].
    apply NoDup_Permutation; [apply NoDup_sorted_keys|apply NoDup_seqZ|].
    intros pos. rewrite elem_of_sorted_keys, elem_of_seqZ.
    destruct (Hpos pos) as [_ ->]. apply some_read_tallied_at.
  - apply sorted_keys_ext. intros pos. destruct (Hpos pos) as [-> ->]. done.
Qed.

(** After the pass the sorted positions of the quality tally, which are
    those of the nucleotide tally, are the consecutive cycle numbers that
    start at [leftlimit], as many as the longest retained read has
    (base, quality) pairs. *)
Theorem positions_run_from_leftlimit
    {B : Type} `{BloomFilter B}
    (ev : env) (p : params) (est_nlines : option Z) (n : Z) (bf : B)
    (reads : list Read) (st : state B) :
  run_reads ev p est_nlines n (initial_state bf) reads = Ok st →
  sorted_keys (cycle_qual (tal st))
  = seqZ (leftlimit p) (Z.of_nat (longest_retained ev p reads))
  ∧ sorted_keys (cycle_nuc (tal st)) = sorted_keys (cycle_qual (tal st)).
Proof. apply positions_keys. Qed.

Lemma positions_run_from_leftlimit_witness :
  ∃ st, run_reads plain_env (with_window 2 3 default_params) (Some 1) 1
          (initial_state (B := gset pystr) bloom_new) [acgt; short_read]
        = Ok st
    ∧ sorted_keys (cycle_qual (tal st)) = [2; 3].
Proof.
  destruct (run_reads plain_env (with_window 2 3 default_params) (Some 1) 1
              (initial_state (B := gset pystr) bloom_new) [acgt; short_read])
    as [st| |] eqn:Hrun; [|vm_compute in Hrun; discriminate..].
  exists st. split; [done|].
  destruct (positions_run_from_leftlimit _ _ _ _ _ _ _ Hrun) as [-> _].
  reflexivity.
Defined.

(** ** GC rows of the text output *)

Lemma py_index_past_end {A} (l : list A) (i : Z) :
  Z.of_nat (length l) ≤ i → py_index l i = Raised IndexError.
Proof.
  intros Hi. unfold py_index.
  destruct (Z.ltb_spec i 0); [lia|].
  destruct (Z.leb_spec 0 i), (Z.ltb_spec i (Z.of_nat (length l)));
    cbn [andb]; try done; lia.
Qed.

Lemma py_index_outcome {A} (l : list A) (i : Z) :
  (∃ x, py_index l i = Ok x) ∨ py_index l i = Raised IndexError.
Proof.
  unfold py_index.
  destruct (_ && _); [|by right].
  destruct (l !! _); [left; by eexists|by right].
Qed.

(** Writing the rows stops with [IndexError] at the first position whose
    index is out of range. *)
Lemma gc_rows_index_error {A} (pos_gc : list A) (positions : list Z) :
  Exists (λ position, Z.of_nat (length pos_gc) ≤ position - 1) positions →
  mapM (λ position, pg ← py_index pos_gc (position - 1); Ok (position, pg))
       positions
  = Raised IndexError.
Proof.
  induction positions as [|pos positions IH]; intros Hex;
    [by apply Exists_nil in Hex|].
  cbn [mapM].
  destruct (py_index_outcome pos_gc (pos - 1)) as [[x Hx]|Hx]; rewrite Hx;
    cbn [mbind outcome_bind]; [|done].
  apply Exists_cons in Hex as [Hpos|Hex].
  - by rewrite py_index_past_end in Hx.
  - by rewrite (IH Hex).
Qed.

Lemma gc_rows_aligned {A} (l2 : list A) :
  ∀ l1 : list A,
  mapM (λ position, pg ← py_index (l1 ++ l2) (position - 1); Ok (position, pg))
       (seqZ (1 + Z.of_nat (length l1)) (Z.of_nat (length l2)))
  = Ok (zip (seqZ (1 + Z.of_nat (length l1)) (Z.of_nat (length l2))) l2).
Proof.
  induction l2 as [|x l2 IH]; intros l1; [done|].
  rewrite seqZ_cons by (simpl; lia). cbn [mapM zip zip_with].
  replace (1 + Z.of_nat (length l1) - 1) with (Z.of_nat (length l1)) by lia.
  rewrite py_index_app. cbn [mbind outcome_bind].
  replace (Z.pred (Z.of_nat (length (x :: l2)))) with (Z.of_nat (length l2))
    by (simpl; lia).
  replace (Z.succ (1 + Z.of_nat (length l1)))
    with (1 + Z.of_nat (length (l1 ++ [x])))
    by (rewrite length_app; simpl; lia).
  replace (l1 ++ x :: l2) with ((l1 ++ [x]) ++ l2) by (by rewrite <-app_assoc).
  by rewrite IH.
Qed.

(** With [leftlimit = 1] the text output has one [pos_gc] row per position,
    in order, and the row of a position carries the GC percentage derived
    for that position. *)
Theorem gc_rows_pair_positions_with_their_gc
    {B : Type} `{BloomFilter B}
    (pc : gmap qkey nat → Q → Q)
    (lr : list Z → list nat → outcome (pyfloat * pyfloat))
    (ev : env) (p : params) (est_nlines : option Z) (n : Z) (bf : B)
    (reads : list Read) (st : state B) (rep : report B) :
  leftlimit p = 1 →
  run_reads ev p est_nlines n (initial_state bf) reads = Ok st →
  derive pc lr p st = Ok rep →
  text_pos_gc rep = zip (positions rep) (pos_gc rep)
  ∧ length (pos_gc rep) = length (positions rep)
  ∧ positions rep = seqZ 1 (Z.of_nat (longest_retained ev p reads)).
Proof.
  intros Hll Hrun.
  destruct (positions_keys ev p est_nlines n bf reads st Hrun) as [Hpos _].
  rewrite Hll in Hpos. unfold derive. rewrite Hpos.
  destruct (quantile_pass _ _ _) as [[cq qs]| |]; simpl; try done.
  destruct (kmer_loop _ _ _ _ _) as [[[ck oe] bad]| |]; simpl; try done.
  pose proof (pos_gc_loop_length
    (seqZ 1 (Z.of_nat (longest_retained ev p reads))) (cycle_nuc (tal st)))
    as Hlen.
  destruct (pos_gc_loop _ _) as [cn pg]. cbn [snd] in Hlen.
  rewrite length_seqZ, Nat2Z.id in Hlen. rewrite <-Hlen.
  pose proof (gc_rows_aligned pg []) as Hrows. cbn [length app] in Hrows.
  change (1 + Z.of_nat 0) with 1 in Hrows. rewrite Hrows.
  cbn [mbind outcome_bind].
  destruct (count_duplicates p); simpl.
  - destruct (py_div _ _); simpl; try done. intros [= <-]. simpl.
    by rewrite length_seqZ, Nat2Z.id.
  - intros [= <-]. simpl. by rewrite length_seqZ, Nat2Z.id.
Qed.

Lemma gc_rows_pair_positions_with_their_gc_witness :
  ∃ rep,
    get_metrics (B := gset pystr) no_percentile flat_regress plain_env
      default_params (Some 1) (λ _, [short_read]) = Ok rep
    ∧ text_pos_gc rep = zip (positions rep) (pos_gc rep)
    ∧ positions rep = [1; 2].
Proof.
  destruct (run_reads plain_env default_params (Some 1) 1
              (initial_state (B := gset pystr) bloom_new) [short_read])
    as [st| |] eqn:Hrun; [|vm_compute in Hrun; discriminate..].
  destruct (derive no_percentile flat_regress default_params st)
    as [rep| |] eqn:Hrep.
  - exists rep.
    split.
    { unfold get_metrics.
      change (bin_size (Some 1) (binsize default_params)
                (nreads default_params)) with (Ok 1 : outcome Z).
      cbn [mbind outcome_bind].
      change (count_duplicates default_params) with false.
      cbn [mbind outcome_bind]. rewrite Hrun. cbn [mbind outcome_bind].
      exact Hrep. }
    destruct (gc_rows_pair_positions_with_their_gc no_percentile flat_regress
                plain_env default_params (Some 1) 1 bloom_new [short_read]
                st rep eq_refl Hrun Hrep) as (Hrows & _ & Hpos).
    split; [exact Hrows|]. rewrite Hpos. reflexivity.
  - apply (f_equal (λ o, st' ← o; derive no_percentile flat_regress
                                    default_params st')) in Hrun.
    cbn [mbind outcome_bind] in Hrun. rewrite Hrep in Hrun.
    vm_compute in Hrun. discriminate.
  - apply (f_equal (λ o, st' ← o; derive no_percentile flat_regress
                                    default_params st')) in Hrun.
    cbn [mbind outcome_bind] in Hrun. rewrite Hrep in Hrun.
    vm_compute in Hrun. discriminate.
Defined.

(** With [leftlimit] of 2 or more and at least one retained read, no report
    is returned: once the quantiles and the kmer statistics are computed,
    writing the [pos_gc] rows raises [IndexError]. *)
Theorem leftlimit_above_1_fails_writing_gc_rows
    {B : Type} `{BloomFilter B}
    (pc : gmap qkey nat → Q → Q)
    (lr : list Z → list nat → outcome (pyfloat * pyfloat))
    (ev : env) (p : params) (est_nlines : option Z) (n : Z) (bf : B)
    (reads : list Read) (st : state B) :
  2 ≤ leftlimit p →
  (0 < longest_retained ev p reads)%nat →
  run_reads ev p est_nlines n (initial_state bf) reads = Ok st →
  (∀ rep, derive pc lr p st ≠ Ok rep)
  ∧ (∀ qs acc,
       quantile_pass pc (sorted_keys (cycle_qual (tal st)))
         (cycle_qual (tal st)) = Ok qs →
       kmer_loop lr p (read_len (tal st))
         (elements (all_symbols (cycle_kmers (tal st))))
         (cycle_kmers (tal st), [], []) = Ok acc →
       derive pc lr p st = Raised IndexError).
Proof.
  intros Hll Hlong Hrun.
  destruct (positions_keys ev p est_nlines n bf reads st Hrun) as [Hpos _].
  assert (Hrows : ∀ cn pg,
    pos_gc_loop (sorted_keys (cycle_qual (tal st))) (cycle_nuc (tal st))
      = (cn, pg) →
    mapM (λ position, pg ← py_index pg (position - 1); Ok (position, pg))
         (sorted_keys (cycle_qual (tal st)))
    = Raised IndexError).
  { intros cn pg Hloop.
    pose proof (pos_gc_loop_length (sorted_keys (cycle_qual (tal st)))
                  (cycle_nuc (tal st))) as Hlen.
    rewrite Hloop in Hlen. cbn [snd] in Hlen.
    apply gc_rows_index_error. rewrite Hlen, Hpos, length_seqZ, Nat2Z.id.
    apply Exists_exists.
    exists (leftlimit p + Z.of_nat (longest_retained ev p reads) - 1).
    split; [apply elem_of_seqZ|]; lia. }
  split.
  - intros rep. unfold derive.
    destruct (quantile_pass _ _ _) as [[cq qs]| |]; simpl; try done.
    destruct (kmer_loop _ _ _ _ _) as [[[ck oe] bad]| |]; simpl; try done.
    destruct (pos_gc_loop _ _) as [cn pg] eqn:Hloop.
    by rewrite (Hrows cn pg eq_refl).
  - intros [cq qs] [[ck oe] bad] Hq Hk. unfold derive.
    rewrite Hq. cbn [mbind outcome_bind]. rewrite Hk. cbn [mbind outcome_bind].
    destruct (pos_gc_loop _ _) as [cn pg] eqn:Hloop.
    by rewrite (Hrows cn pg eq_refl).
Qed.

Lemma leftlimit_above_1_fails_writing_gc_rows_witness :
  get_metrics (B := gset pystr) no_percentile flat_regress plain_env
    (with_window 2 (-1) default_params) (Some 1) (λ _, [acgt])
  = Raised IndexError.
Proof.
  set (p := with_window 2 (-1) default_params).
  destruct (run_reads plain_env p (Some 1) 1
              (initial_state (B := gset pystr) bloom_new) [acgt])
    as [st| |] eqn:Hrun; [|vm_compute in Hrun; discriminate..].
  unfold get_metrics.
  change (bin_size (Some 1) (binsize p) (nreads p)) with (Ok 1 : outcome Z).
  cbn [mbind outcome_bind]. change (count_duplicates p) with false.
  cbn [mbind outcome_bind]. rewrite Hrun. cbn [mbind outcome_bind].
  destruct (leftlimit_above_1_fails_writing_gc_rows no_percentile flat_regress
              plain_env p (Some 1) 1 bloom_new [acgt] st)
    as [_ Herr]; [simpl; lia|vm_compute; lia|exact Hrun|].
  destruct (quantile_pass no_percentile (sorted_keys (cycle_qual (tal st)))
              (cycle_qual (tal st))) as [qs| |] eqn:Hq.
  2,3: apply (f_equal (λ o, st' ← o;
         quantile_pass no_percentile (sorted_keys (cycle_qual (tal st')))
           (cycle_qual (tal st')))) in Hrun;
       cbn [mbind outcome_bind] in Hrun; rewrite Hq in Hrun;
       vm_compute in Hrun; discriminate.
  destruct (kmer_loop flat_regress p (read_len (tal st))
              (elements (all_symbols (cycle_kmers (tal st))))
              (cycle_kmers (tal st), [], [])) as [acc| |] eqn:Hk.
  2,3: apply (f_equal (λ o, st' ← o;
         kmer_loop flat_regress p (read_len (tal st'))
              (elements (all_symbols (cycle_kmers (tal st'))))
              (cycle_kmers (tal st'), [], []))) in Hrun;
       cbn [mbind outcome_bind] in Hrun; rewrite Hk in Hrun;
       vm_compute in Hrun; discriminate.
  exact (Herr qs acc eq_refl eq_refl).
Defined.

(** ** Counts by symbol *)

Lemma at_cycle_cons {A} (ll pos : Z) (x : A) (l : list A) :
  at_cycle ll (x :: l) pos
  = if decide (pos = ll) then Some x else at_cycle (ll + 1) l pos.
Proof.
  unfold at_cycle. case_decide as Hp.
  - subst. by rewrite Z.leb_refl, Z.sub_diag.
  - destruct (Z.leb_spec ll pos), (Z.leb_spec (ll + 1) pos); try lia; [|done].
    by replace (Z.to_nat (pos - ll)) with (S (Z.to_nat (pos - (ll + 1))))
      by lia.
Qed.

Lemma at_cycle_before {A} (ll pos : Z) (l : list A) :
  pos < ll → at_cycle ll l pos = None.
Proof. intros Hp. unfold at_cycle. by destruct (Z.leb_spec ll pos); [lia|]. Qed.

Lemma at_cycle_nil {A} (ll pos : Z) : at_cycle ll (@nil A) pos = None.
Proof. unfold at_cycle. by destruct (ll <=? pos). Qed.

Lemma get2_incr2 `{Countable Sym} (i pos : Z) (x s : Sym)
    (d : gmap Z (gmap Sym nat)) :
  get2 pos s (incr2 i x d)
  = ((if bool_decide (i = pos ∧ x = s) then 1 else 0) + get2 pos s d)%nat.
Proof.
  unfold get2, incr2, incr. destruct (decide (i = pos)) as [->|Hne].
  - rewrite lookup_total_insert_eq. destruct (decide (x = s)) as [->|Hx].
    + by rewrite lookup_total_insert_eq, bool_decide_eq_true_2.
    + by rewrite lookup_total_insert_ne, bool_decide_eq_false_2 by tauto.
  - by rewrite lookup_total_insert_ne, bool_decide_eq_false_2 by tauto.
Qed.

Lemma tally_cycles_symbols (ll pos : Z) (b q : ascii) (z : Z)
    (l : list (ascii * ascii)) :
  ∀ (i : nat) (t : tallies),
  let t' := foldl (cycle_step ll) t (enumerate_from i l) in
  let o := at_cycle (ll + Z.of_nat i) l pos in
  get2 pos b (cycle_nuc t')
    = ((if bool_decide (fst <$> o = Some b) then 1 else 0)
       + get2 pos b (cycle_nuc t))%nat
  ∧ get2 pos (inl q) (cycle_qual t')
    = ((if bool_decide (snd <$> o = Some q) then 1 else 0)
       + get2 pos (inl q) (cycle_qual t))%nat
  ∧ get2 pos (inr z) (cycle_qual t') = get2 pos (inr z) (cycle_qual t).
Proof.
  induction l as [|[s q'] l IH]; intros i t; cbn [foldl enumerate_from].
  - rewrite at_cycle_nil. done.
  - destruct (IH (S i) (cycle_step ll t (i, (s, q')))) as (IHn & IHq & IHz).
    rewrite IHn, IHq, IHz. rewrite at_cycle_cons.
    replace (ll + Z.of_nat i + 1) with (ll + Z.of_nat (S i)) by lia.
    simpl. rewrite !get2_incr2.
    destruct (decide (pos = ll + Z.of_nat i)) as [->|Hne].
    + rewrite at_cycle_before by lia. simpl.
      repeat case_bool_decide; simpl in *; try done; exfalso; intuition congruence.
    + repeat case_bool_decide; simpl in *; try done; exfalso; intuition congruence.
Qed.

Lemma tally_kmers_symbols (ll pos : Z) (k_mer : pystr) (l : list pystr) :
  ∀ (i : nat) (t : tallies),
  let t' := foldl (kmer_step ll) t (enumerate_from i l) in
  get2 pos k_mer (cycle_kmers t')
  = ((if bool_decide (at_cycle (ll + Z.of_nat i) l pos = Some k_mer)
      then 1 else 0) + get2 pos k_mer (cycle_kmers t))%nat.
Proof.
  induction l as [|x l IH]; intros i t; cbn [foldl enumerate_from].
  - by rewrite at_cycle_nil.
  - rewrite (IH (S i)). rewrite at_cycle_cons.
    replace (ll + Z.of_nat i + 1) with (ll + Z.of_nat (S i)) by lia.
    simpl. rewrite get2_incr2.
    destruct (decide (pos = ll + Z.of_nat i)) as [->|Hne].
    + rewrite at_cycle_before by lia.
      repeat case_bool_decide; simpl in *; try done; exfalso; intuition congruence.
    + repeat case_bool_decide; simpl in *; try done; exfalso; intuition congruence.
Qed.

Lemma mismatch_step_keys (ll : Z) (t : tallies) (x : nat * (ascii * ascii))
    (r : ascii) :
  is_Some (cycle_mismatch (mismatch_step ll t x) !! r)
  ↔ is_Some (cycle_mismatch t !! r).
Proof.
  destruct x as [i [s0 r0]]. unfold mismatch_step.
  destruct (decide (s0 = r0)); [done|].
  destruct (cycle_mismatch t !! r0) as [d|] eqn:Hr0; [|done]. simpl.
  destruct (decide (r0 = r)) as [->|Hne].
  - rewrite lookup_insert_eq, Hr0. split; by eexists.
  - by rewrite lookup_insert_ne.
Qed.

Lemma mismatch_step_symbols (ll pos : Z) (s r s0 r0 : ascii) (i : nat)
    (t : tallies) :
  get2 pos s (cycle_mismatch (mismatch_step ll t (i, (s0, r0))) !!! r)
  = ((if bool_decide ((ll + Z.of_nat i = pos)%Z ∧ (s0, r0) = (s, r)
                      ∧ s ≠ r ∧ is_Some (cycle_mismatch t !! r))
      then 1 else 0) + get2 pos s (cycle_mismatch t !!! r))%nat.
Proof.
  unfold mismatch_step. destruct (decide (s0 = r0)) as [->|Hsr].
  { rewrite bool_decide_eq_false_2; [done|].
    intros (_ & [= -> ->] & Hne & _). done. }
  destruct (cycle_mismatch t !! r0) as [d|] eqn:Hr0.
  - simpl. destruct (decide (r0 = r)) as [->|Hne].
    + rewrite lookup_total_insert_eq, get2_incr2.
      rewrite (lookup_total_correct _ _ _ Hr0).
      assert (Hd : is_Some (cycle_mismatch t !! r)) by (by exists d).
      f_equal. apply (f_equal (λ b : bool, if b then 1%nat else 0%nat)).
      apply bool_decide_ext. split.
      * intros [-> ->]. by split_and!.
      * intros (-> & [= ->] & _). done.
    + rewrite lookup_total_insert_ne by done.
      rewrite bool_decide_eq_false_2; [done|].
      intros (_ & [= -> ->] & _). done.
  - rewrite bool_decide_eq_false_2; [done|].
    intros (_ & [= -> ->] & _ & [d Hd]). congruence.
Qed.

Lemma tally_mismatch_symbols (ll pos : Z) (s r : ascii)
    (l : list (ascii * ascii)) :
  ∀ (i : nat) (t : tallies),
  let t' := foldl (mismatch_step ll) t (enumerate_from i l) in
  get2 pos s (cycle_mismatch t' !!! r)
  = ((if bool_decide (at_cycle (ll + Z.of_nat i) l pos = Some (s, r)
                      ∧ s ≠ r ∧ is_Some (cycle_mismatch t !! r))
      then 1 else 0) + get2 pos s (cycle_mismatch t !!! r))%nat.
Proof.
  induction l as [|[s0 r0] l IH]; intros i t; cbn [foldl enumerate_from].
  - rewrite at_cycle_nil. rewrite bool_decide_eq_false_2; [done|].
    by intros [? _].
  - rewrite (IH (S i)), mismatch_step_symbols, at_cycle_cons.
    replace (ll + Z.of_nat i + 1) with (ll + Z.of_nat (S i)) by lia.
    assert (Hkeys := mismatch_step_keys ll t (i, (s0, r0)) r).
    destruct (decide (pos = ll + Z.of_nat i)) as [->|Hne].
    + rewrite at_cycle_before by lia.
      rewrite (bool_decide_eq_false_2 (None = _ ∧ _)) by (by intros [? _]).
      simpl. f_equal.
      apply (f_equal (λ b : bool, if b then 1%nat else 0%nat)).
      apply bool_decide_ext. split.
      * intros (_ & [= -> ->] & ? & ?). done.
      * intros ([= -> ->] & ? & ?). done.
    + rewrite (bool_decide_eq_false_2 ((ll + Z.of_nat i)%Z = pos ∧ _))
        by (intros [? _]; lia).
      cbn [Nat.add]. f_equal.
      apply (f_equal (λ b : bool, if b then 1%nat else 0%nat)).
      apply bool_decide_ext. by rewrite Hkeys.
Qed.

Lemma tally_kmers_others (ll : Z) (k : nat) (seq : pystr) (t : tallies) :
  cycle_mismatch (tally_kmers ll k seq t) = cycle_mismatch t.
Proof.
  unfold tally_kmers. apply (foldl_preserves cycle_mismatch). by intros ? [].
Qed.

Lemma tally_cycles_others (ll : Z) (seq qual : pystr) (t : tallies) :
  cycle_kmers (tally_cycles ll seq qual t) = cycle_kmers t
  ∧ cycle_mismatch (tally_cycles ll seq qual t) = cycle_mismatch t.
Proof.
  unfold tally_cycles. split.
  - apply (foldl_preserves cycle_kmers). by intros ? [? []].
  - apply (foldl_preserves cycle_mismatch). by intros ? [? []].
Qed.

Lemma tally_mismatch_kmers (ll : Z) (read : Read) (seq : pystr) (t : tallies) :
  cycle_kmers (tally_mismatch ll read seq t) = cycle_kmers t.
Proof.
  unfold tally_mismatch.
  destruct read as [|? ? [] ? [ref|]]; try done.
  apply (foldl_preserves cycle_kmers). intros t' [i [s r]].
  unfold mismatch_step. destruct (decide (s = r)); [done|].
  by destruct (cycle_mismatch t' !! r).
Qed.

Lemma tally_mismatch_keys (ll : Z) (read : Read) (seq : pystr) (t : tallies)
    (r : ascii) :
  is_Some (cycle_mismatch (tally_mismatch ll read seq t) !! r)
  ↔ is_Some (cycle_mismatch t !! r).
Proof.
  unfold tally_mismatch.
  destruct read as [|? ? [] ? [ref|]]; try done.
  generalize (enumerate (zip seq ref)). intros l. revert t.
  induction l as [|x l IH]; intros t; simpl; [done|].
  by rewrite IH, mismatch_step_keys.
Qed.

Lemma initial_mismatch_keys (r : ascii) :
  is_Some (cycle_mismatch empty_tallies !! r)
  ↔ r ∈ ["C"; "G"; "A"; "T"]%char.
Proof.
  cbn [empty_tallies cycle_mismatch].
  rewrite !lookup_insert_is_Some, lookup_empty, !elem_of_cons, elem_of_nil.
  split.
  - intros [?|[_ [?|[_ [?|[_ [?|[_ []%is_Some_None]]]]]]]]; subst; tauto.
  - intros [->|[->|[->|[->|[]]]]]; [by left|right; split; [done|]..].
    + by left.
    + right. split; [done|]. by left.
    + right. split; [done|]. right. split; [done|]. by left.
Qed.

Section symbols.
Context {B : Type} `{BloomFilter B}.
Variable (ev : env) (p : params) (est_nlines : option Z) (n : Z).

Lemma loop_body_cases (st st' : state B) (read : Read) :
  loop_body ev p est_nlines n st read = Ok st' →
  (retained ev p read = None ∧ tal st' = tal st)
  ∨ (∃ seq qual, retained ev p read = Some (seq, qual)
       ∧ st' = tally_read p est_nlines n read seq qual st).
Proof.
  unfold loop_body, retained.
  destruct (select_read (args ev) read) as [[sq|]| |]; simpl; try done.
  - destruct (set_up_limits _ _ sq) as [s q]. simpl.
    destruct (length s =? 0)%nat; intros [= <-]; [by left|].
    right. by eexists _, _.
  - intros [= <-]. by left.
Qed.

(** One invariant and three counters, advanced together by a read. *)
Lemma run_reads_counts (I : tallies → Prop) (m : tallies → nat)
    (f : Read → bool) :
  (∀ (st : state B) read seq qual,
     I (tal st) → retained ev p read = Some (seq, qual) →
     let t' := tal (tally_read p est_nlines n read seq qual st) in
     I t' ∧ m t' = ((if f read then 1 else 0) + m (tal st))%nat) →
  (∀ read, retained ev p read = None → f read = false) →
  ∀ reads (st st' : state B),
  I (tal st) → run_reads ev p est_nlines n st reads = Ok st' →
  I (tal st') ∧ m (tal st') = (count_reads f reads + m (tal st))%nat.
Proof.
  intros Hstep Hnone. induction reads as [|read reads IH]; intros st st' HI.
  - by intros [= <-].
  - cbn [run_reads count_reads].
    destruct (loop_body ev p est_nlines n st read) as [st1| |] eqn:Hbody;
      cbn [mbind outcome_bind]; try done.
    intros Hrun.
    apply loop_body_cases in Hbody as [[Hret Htal]|(s & q & Hret & ->)].
    + destruct (IH st1 st') as [HI' ->]; [by rewrite Htal|done|].
      by rewrite (Hnone _ Hret), Htal.
    + destruct (Hstep st read s q HI Hret) as [HI1 Hm].
      destruct (IH _ st' HI1 Hrun) as [HI' ->]. split; [done|].
      rewrite Hm. lia.
Qed.

Lemma run_reads_nuc (pos : Z) (b : ascii) (reads : list Read)
    (st st' : state B) :
  run_reads ev p est_nlines n st reads = Ok st' →
  get2 pos b (cycle_nuc (tal st'))
  = (count_reads (λ read, bool_decide (fst <$> pair_at ev p pos read = Some b))
       reads + get2 pos b (cycle_nuc (tal st)))%nat.
Proof.
  intros Hrun.
  refine (proj2 (run_reads_counts (λ _, True)
    (λ t, get2 pos b (cycle_nuc t)) _ _ _ reads st st' I Hrun)).
  - intros st0 read s q _ Hret. split; [done|]. cbv zeta.
    rewrite tal_tally_read.
    destruct (tally_mismatch_cycles (leftlimit p) read s
      (tally_kmers (leftlimit p) (kmer p) s
         (set_read_len (incr (length q))
            (tally_cycles (leftlimit p) s q
               (set_cycle_gc (incr (gc s)) (tal st0)))))) as [-> _].
    destruct (tally_kmers_cycles (leftlimit p) (kmer p) s
      (set_read_len (incr (length q))
            (tally_cycles (leftlimit p) s q
               (set_cycle_gc (incr (gc s)) (tal st0))))) as [-> _].
    cbn [set_read_len cycle_nuc].
    destruct (tally_cycles_symbols (leftlimit p) pos b b 0 (zip s q) 0
                (set_cycle_gc (incr (gc s)) (tal st0))) as (Hn & _ & _).
    unfold tally_cycles, enumerate. rewrite Hn.
    unfold pair_at. rewrite Hret. cbn [mbind option_bind set_cycle_gc cycle_nuc].
    by replace (leftlimit p + Z.of_nat 0) with (leftlimit p) by lia.
  - intros read Hret. unfold pair_at. by rewrite Hret.
Qed.

Lemma run_reads_qual (pos : Z) (q : ascii) (z : Z) (reads : list Read)
    (st st' : state B) :
  run_reads ev p est_nlines n st reads = Ok st' →
  get2 pos (inl q) (cycle_qual (tal st'))
  = (count_reads (λ read, bool_decide (snd <$> pair_at ev p pos read = Some q))
       reads + get2 pos (inl q) (cycle_qual (tal st)))%nat
  ∧ get2 pos (inr z) (cycle_qual (tal st'))
    = get2 pos (inr z) (cycle_qual (tal st)).
Proof.
  intros Hrun.
  assert (Htal : ∀ (st0 : state B) read s q0,
    cycle_qual (tal (tally_read p est_nlines n read s q0 st0))
    = cycle_qual (foldl (cycle_step (leftlimit p))
        (set_cycle_gc (incr (gc s)) (tal st0))
        (enumerate_from 0 (zip s q0)))).
  { intros st0 read s q0. rewrite tal_tally_read.
    destruct (tally_mismatch_cycles (leftlimit p) read s
      (tally_kmers (leftlimit p) (kmer p) s
         (set_read_len (incr (length q0))
            (tally_cycles (leftlimit p) s q0
               (set_cycle_gc (incr (gc s)) (tal st0)))))) as [_ ->].
    destruct (tally_kmers_cycles (leftlimit p) (kmer p) s
      (set_read_len (incr (length q0))
            (tally_cycles (leftlimit p) s q0
               (set_cycle_gc (incr (gc s)) (tal st0))))) as [_ ->].
    done. }
  split.
  - refine (proj2 (run_reads_counts (λ _, True)
      (λ t, get2 pos (inl q) (cycle_qual t)) _ _ _ reads st st' I Hrun)).
    + intros st0 read s q0 _ Hret. split; [done|]. cbv zeta. rewrite Htal.
      destruct (tally_cycles_symbols (leftlimit p) pos q q 0 (zip s q0) 0
                  (set_cycle_gc (incr (gc s)) (tal st0))) as (_ & Hq & _).
      rewrite Hq. unfold pair_at. rewrite Hret.
      cbn [mbind option_bind set_cycle_gc cycle_qual].
      by replace (leftlimit p + Z.of_nat 0) with (leftlimit p) by lia.
    + intros read Hret. unfold pair_at. by rewrite Hret.
  - pose proof (proj2 (run_reads_counts (λ _, True)
      (λ t, get2 pos (inr z) (cycle_qual t)) (λ _, false)
      ltac:(intros st0 read s q0 _ Hret; split; [done|]; cbv zeta;
            rewrite Htal;
            by destruct (tally_cycles_symbols (leftlimit p) pos q q z
                  (zip s q0) 0 (set_cycle_gc (incr (gc s)) (tal st0)))
              as (_ & _ & ->))
      ltac:(done) reads st st' I Hrun)) as Hz.
    cbv beta in Hz. rewrite Hz.
    clear. induction reads as [|r reads IH]; simpl; [done|]. exact IH.
Qed.

Lemma run_reads_kmers (pos : Z) (k_mer : pystr) (reads : list Read)
    (st st' : state B) :
  run_reads ev p est_nlines n st reads = Ok st' →
  get2 pos k_mer (cycle_kmers (tal st'))
  = (count_reads (λ read, bool_decide (kmer_at ev p pos read = Some k_mer))
       reads + get2 pos k_mer (cycle_kmers (tal st)))%nat.
Proof.
  intros Hrun.
  refine (proj2 (run_reads_counts (λ _, True)
    (λ t, get2 pos k_mer (cycle_kmers t)) _ _ _ reads st st' I Hrun)).
  - intros st0 read s q _ Hret. split; [done|]. cbv zeta.
    rewrite tal_tally_read, tally_mismatch_kmers.
    unfold tally_kmers, enumerate. rewrite tally_kmers_symbols.
    cbn [set_read_len cycle_kmers].
    destruct (tally_cycles_others (leftlimit p) s q
                (set_cycle_gc (incr (gc s)) (tal st0))) as [-> _].
    unfold kmer_at. rewrite Hret. cbn [mbind option_bind set_cycle_gc cycle_kmers].
    by replace (leftlimit p + Z.of_nat 0) with (leftlimit p) by lia.
  - intros read Hret. unfold kmer_at. by rewrite Hret.
Qed.

Lemma run_reads_mismatch (pos : Z) (s r : ascii) (reads : list Read)
    (st st' : state B) :
  (∀ r', is_Some (cycle_mismatch (tal st) !! r')
         ↔ r' ∈ ["C"; "G"; "A"; "T"]%char) →
  run_reads ev p est_nlines n st reads = Ok st' →
  (∀ r', is_Some (cycle_mismatch (tal st') !! r')
         ↔ r' ∈ ["C"; "G"; "A"; "T"]%char)
  ∧ get2 pos s (cycle_mismatch (tal st') !!! r)
    = (count_reads (mismatch_at ev p pos s r) reads
       + get2 pos s (cycle_mismatch (tal st) !!! r))%nat.
Proof.
  intros Hinit Hrun.
  refine (run_reads_counts
    (λ t, ∀ r', is_Some (cycle_mismatch t !! r')
                ↔ r' ∈ ["C"; "G"; "A"; "T"]%char)
    (λ t, get2 pos s (cycle_mismatch t !!! r)) _ _ _ reads st st' Hinit Hrun).
  - intros st0 read sq q HI Hret. cbv zeta. rewrite tal_tally_read.
    set (t1 := tally_kmers (leftlimit p) (kmer p) sq
         (set_read_len (incr (length q))
            (tally_cycles (leftlimit p) sq q
               (set_cycle_gc (incr (gc sq)) (tal st0))))).
    assert (Ht1 : cycle_mismatch t1 = cycle_mismatch (tal st0)).
    { unfold t1. rewrite tally_kmers_others. cbn [set_read_len cycle_mismatch].
      by destruct (tally_cycles_others (leftlimit p) sq q
                (set_cycle_gc (incr (gc sq)) (tal st0))) as [_ ->]. }
    split.
    + intros r'. by rewrite tally_mismatch_keys, Ht1.
    + unfold mismatch_at, tally_mismatch.
      destruct read as [|? ? [] ? [ref|]]; rewrite ?Hret; try by rewrite Ht1.
      unfold enumerate. rewrite tally_mismatch_symbols, Ht1.
      replace (leftlimit p + Z.of_nat 0) with (leftlimit p) by lia.
      f_equal. apply (f_equal (λ b : bool, if b then 1%nat else 0%nat)).
      apply bool_decide_ext. by rewrite HI.
  - intros read Hret. unfold mismatch_at.
    by destruct read as [|? ? [] ? [ref|]]; rewrite ?Hret.
Qed.
End symbols.

(** After the pass, the count a position holds for a base is the number of
    retained reads with that base there, the count for a quality character
    the number with that quality symbol there, and the count for a kmer the
    number whose kmer starting there is that kmer; no quality count is
    keyed by an integer yet. *)
Theorem cycle_tallies_count_symbols
    {B : Type} `{BloomFilter B}
    (ev : env) (p : params) (est_nlines : option Z) (n : Z) (bf : B)
    (reads : list Read) (st : state B)
    (pos : Z) (b q : ascii) (z : Z) (k_mer : pystr) :
  run_reads ev p est_nlines n (initial_state bf) reads = Ok st →
  get2 pos b (cycle_nuc (tal st))
  = count_reads (λ read, bool_decide (fst <$> pair_at ev p pos read = Some b))
      reads
  ∧ get2 pos (inl q) (cycle_qual (tal st))
    = count_reads
        (λ read, bool_decide (snd <$> pair_at ev p pos read = Some q)) reads
  ∧ get2 pos (inr z) (cycle_qual (tal st)) = 0%nat
  ∧ get2 pos k_mer (cycle_kmers (tal st))
    = count_reads (λ read, bool_decide (kmer_at ev p pos read = Some k_mer))
        reads.
Proof.
  intros Hrun.
  rewrite (run_reads_nuc ev p est_nlines n pos b reads _ _ Hrun).
  destruct (run_reads_qual ev p est_nlines n pos q z reads _ _ Hrun)
    as [-> ->].
  rewrite (run_reads_kmers ev p est_nlines n pos k_mer reads _ _ Hrun).
  cbn [initial_state tal empty_tallies cycle_nuc cycle_qual cycle_kmers].
  rewrite !get2_absent by apply lookup_empty. lia.
Qed.

Lemma cycle_tallies_count_symbols_witness :
  ∃ st, run_reads plain_env default_params (Some 2) 1
          (initial_state (B := gset pystr) bloom_new) [acgt; short_read]
        = Ok st
    ∧ get2 2 "C"%char (cycle_nuc (tal st)) = 2%nat
    ∧ get2 3 "C"%char (cycle_nuc (tal st)) = 0%nat.
Proof.
  destruct (run_reads plain_env default_params (Some 2) 1
              (initial_state (B := gset pystr) bloom_new) [acgt; short_read])
    as [st| |] eqn:Hrun; [|vm_compute in Hrun; discriminate..].
  exists st. split; [done|].
  destruct (cycle_tallies_count_symbols _ _ _ _ _ _ _ 2 "C"%char "I"%char 0
              [] Hrun) as (-> & _).
  destruct (cycle_tallies_count_symbols _ _ _ _ _ _ _ 3 "C"%char "I"%char 0
              [] Hrun) as (-> & _).
  by vm_compute.
Defined.

(** After the pass the mismatch tally still has exactly the keys C, G, A
    and T, and the count it holds for reference symbol [r], position [pos]
    and read base [s] is the number of retained mapped reads with an MD
    reference string whose sequence as tallied (trimmed, and reversed for a
    reverse-strand read) has [s] at index [pos - leftlimit] while the
    reference string, as [parse_md] returns it, has [r] at the same index,
    [s] differing from [r]; it holds no count of a base against itself.
    The two strings are paired by index, not by cycle: a reverse-strand
    read that equals its reference is counted wherever it is not its own
    reverse. *)
Theorem mismatch_tally_counts_substitutions
    {B : Type} `{BloomFilter B}
    (ev : env) (p : params) (est_nlines : option Z) (n : Z) (bf : B)
    (reads : list Read) (st : state B) (pos : Z) (s r : ascii) :
  run_reads ev p est_nlines n (initial_state bf) reads = Ok st →
  (∀ r', is_Some (cycle_mismatch (tal st) !! r')
         ↔ r' ∈ ["C"; "G"; "A"; "T"]%char)
  ∧ get2 pos s (cycle_mismatch (tal st) !!! r)
    = count_reads (mismatch_at ev p pos s r) reads
  ∧ get2 pos r (cycle_mismatch (tal st) !!! r) = 0%nat.
Proof.
  intros Hrun.
  assert (Hzero : ∀ s', get2 pos s'
    (cycle_mismatch (tal (initial_state (B := B) bf)) !!! r) = 0%nat).
  { intros s'. unfold get2.
    destruct (cycle_mismatch (tal (initial_state (B := B) bf)) !! r)
      as [d|] eqn:Hd.
    - rewrite (lookup_total_correct _ _ _ Hd).
      cbn [initial_state tal empty_tallies cycle_mismatch] in Hd.
      assert (d = ∅) as ->.
      { repeat (apply lookup_insert_Some in Hd as [[_ <-]|[_ Hd]]; [done|]).
        by rewrite lookup_empty in Hd. }
      by rewrite !lookup_total_empty.
    - rewrite (lookup_total_alt
                 (cycle_mismatch (tal (initial_state (B := B) bf))) r), Hd.
      simpl. by rewrite !lookup_total_empty. }
  destruct (run_reads_mismatch ev p est_nlines n pos s r reads
              (initial_state bf) st initial_mismatch_keys Hrun) as [Hkeys Hs].
  destruct (run_reads_mismatch ev p est_nlines n pos r r reads
              (initial_state bf) st initial_mismatch_keys Hrun) as [_ Hr].
  split_and!; [done|by rewrite Hs, Hzero|].
  rewrite Hr, Hzero. clear.
  induction reads as [|read reads IH]; simpl; [done|].
  rewrite Nat.add_0_r in IH. rewrite IH.
  unfold mismatch_at. destruct read as [|? ? [] ? [ref|]]; try done.
  destruct (retained _ _ _) as [[? ?]|]; [|done].
  rewrite bool_decide_eq_false_2; [done|]. by intros (_ & ? & _).
Qed.

Lemma mismatch_tally_counts_substitutions_witness :
  ∃ st, run_reads aligned_only_env default_params (Some 2) 1
          (initial_state (B := gset pystr) bloom_new)
          [mismatched_read; mismatched_read] = Ok st
    ∧ get2 3 "G"%char (cycle_mismatch (tal st) !!! "T"%char) = 2%nat
    ∧ get2 4 "T"%char (cycle_mismatch (tal st) !!! "N"%char) = 0%nat
    ∧ ∃ st', run_reads aligned_only_env default_params (Some 1) 1
               (initial_state (B := gset pystr) bloom_new)
               [reverse_matching_read] = Ok st'
        ∧ get2 1 "C"%char (cycle_mismatch (tal st') !!! "A"%char) = 1%nat.
Proof.
  destruct (run_reads aligned_only_env default_params (Some 2) 1
              (initial_state (B := gset pystr) bloom_new)
              [mismatched_read; mismatched_read])
    as [st| |] eqn:Hrun; [|vm_compute in Hrun; discriminate..].
  exists st. split; [done|].
  destruct (mismatch_tally_counts_substitutions _ _ _ _ _ _ _ 3
              "G"%char "T"%char Hrun) as (_ & -> & _).
  destruct (mismatch_tally_counts_substitutions _ _ _ _ _ _ _ 4
              "T"%char "N"%char Hrun) as (_ & -> & _).
  split_and!; [by vm_compute..|].
  destruct (run_reads aligned_only_env default_params (Some 1) 1
              (initial_state (B := gset pystr) bloom_new)
              [reverse_matching_read])
    as [st'| |] eqn:Hrun'; [|vm_compute in Hrun'; discriminate..].
  exists st'. split; [done|].
  destruct (mismatch_tally_counts_substitutions _ _ _ _ _ _ _ 1
              "C"%char "A"%char Hrun') as (_ & -> & _).
  by vm_compute.
Defined.

(** ** Quantile lines *)

Section quantile_lines.
Variable percentile : gmap qkey nat → Q → Q.

Lemma quantile_pass_lines (positions : list Z) :
  ∀ (cq cq' : gmap Z (gmap qkey nat)) (qs : list (list Q)),
  NoDup positions →
  quantile_pass percentile positions cq = Ok (cq', qs) →
  (∀ k, k ∉ positions → cq' !! k = cq !! k)
  ∧ length qs = length positions
  ∧ (∀ (i : nat) k, positions !! i = Some k →
       qs !! i = Some (map (percentile (cq' !!! k)) quantile_values)).
Proof.
  induction positions as [|k positions IH]; intros cq cq' qs Hnd.
  - intros [= <- <-]. by split_and!.
  - apply NoDup_cons in Hnd as [Hk Hnd]. cbn [quantile_pass].
    destruct (rekey _ _) as [v'| |]; cbn [mbind outcome_bind]; try done.
    destruct (quantile_pass percentile positions (<[k:=v']> cq))
      as [[cq1 qs1]| |] eqn:Hpass; cbn [mbind outcome_bind]; try done.
    intros [= <- <-].
    destruct (IH _ _ _ Hnd Hpass) as (Hout & Hlen & Hline).
    split_and!.
    + intros j [Hne Hj]%not_elem_of_cons.
      by rewrite Hout, lookup_insert_ne.
    + simpl. by rewrite Hlen.
    + intros [|i] j; simpl.
      * intros [= <-].
        by rewrite (lookup_total_alt cq1), Hout, lookup_insert_eq.
      * apply Hline.
Qed.
End quantile_lines.

(** The report has one quantile line per position, in the order of the
    positions; the line of a position holds the five percentiles (5%, 25%,
    50%, 75%, 95%) of the quality tally of that position as it is left
    re-keyed in the returned tally. *)
Theorem quantile_lines_follow_positions
    {B : Type}
    (pc : gmap qkey nat → Q → Q)
    (lr : list Z → list nat → outcome (pyfloat * pyfloat))
    (p : params) (st : state B) (rep : report B) :
  derive pc lr p st = Ok rep →
  length (quantiles rep) = length (positions rep)
  ∧ (∀ (i : nat) pos, positions rep !! i = Some pos →
       ∃ q05 q25 q50 q75 q95,
         quantiles rep !! i = Some [q05; q25; q50; q75; q95]
         ∧ [q05; q25; q50; q75; q95]
           = map (pc (cycle_qual (tal (final rep)) !!! pos))
                 [1 # 20; 1 # 4; 1 # 2; 3 # 4; 19 # 20]%Q).
Proof.
  unfold derive.
  destruct (quantile_pass _ _ _) as [[cq qs]| |] eqn:Hpass; simpl; try done.
  destruct (quantile_pass_lines pc _ _ _ _
              (NoDup_sorted_keys (cycle_qual (tal st))) Hpass)
    as (_ & Hlen & Hline).
  destruct (kmer_loop _ _ _ _ _) as [[[ck oe] bad]| |]; simpl; try done.
  destruct (pos_gc_loop _ _) as [cn pg].
  destruct (mapM _ _) as [rows| |]; simpl; try done.
  assert (Hgoal : ∀ rep : report B,
    positions rep = sorted_keys (cycle_qual (tal st)) →
    quantiles rep = qs → cycle_qual (tal (final rep)) = cq →
    length (quantiles rep) = length (positions rep)
    ∧ (∀ (i : nat) pos, positions rep !! i = Some pos →
       ∃ q05 q25 q50 q75 q95,
         quantiles rep !! i = Some [q05; q25; q50; q75; q95]
         ∧ [q05; q25; q50; q75; q95]
           = map (pc (cycle_qual (tal (final rep)) !!! pos))
                 [1 # 20; 1 # 4; 1 # 2; 3 # 4; 19 # 20]%Q)).
  { intros r -> -> ->. split; [done|]. intros i pos Hpos.
    rewrite (Hline i pos Hpos). unfold quantile_values. cbn [map].
    by eexists _, _, _, _, _. }
  destruct (count_duplicates p); simpl.
  - destruct (py_div _ _); simpl; try done. intros [= <-]. by apply Hgoal.
  - intros [= <-]. by apply Hgoal.
Qed.

Lemma quantile_lines_follow_positions_witness :
  ∃ rep,
    get_metrics (B := gset pystr) no_percentile flat_regress plain_env
      default_params (Some 1) (λ _, [short_read]) = Ok rep
    ∧ length (quantiles rep) = 2%nat.
Proof.
  destruct (get_metrics (B := gset pystr) no_percentile flat_regress plain_env
      default_params (Some 1) (λ _, [short_read])) as [rep| |] eqn:Hrep;
    [|vm_compute in Hrep; discriminate..].
  exists rep. split; [done|].
  unfold get_metrics in Hrep.
  change (bin_size (Some 1) (binsize default_params)
            (nreads default_params)) with (Ok 1 : outcome Z) in Hrep.
  cbn [mbind outcome_bind] in Hrep.
  change (count_duplicates default_params) with false in Hrep.
  cbn [mbind outcome_bind] in Hrep.
  destruct (run_reads plain_env default_params (Some 1) 1
              (initial_state (B := gset pystr) bloom_new) [short_read])
    as [st| |] eqn:Hrun; cbn [mbind outcome_bind] in Hrep; try done.
  destruct (quantile_lines_follow_positions _ _ _ _ _ Hrep) as [-> _].
  destruct (derive_pos_gc _ _ _ _ _ Hrep) as [-> _].
  injection Hrun as <-. reflexivity.
Defined.

(** ** Observed over expected *)

Section observed_expected.
Variable linregress : list Z → list nat → outcome (pyfloat * pyfloat).
Variable p : params.
Variable rl : gmap nat nat.

Lemma kmer_body_ratio (k_mer : pystr) (ck ck' : gmap Z (gmap pystr nat))
    (oe oe' : list (pystr * Q)) (bad bad' : list (pystr * pyfloat * pyfloat)) :
  kmer_body linregress p rl k_mer (ck, oe, bad) = Ok (ck', oe', bad') →
  Qeq_bool (expected p rl k_mer) 0 = false
  ∧ oe' = oe ++ [(k_mer,
                  (inject_Z (Z.of_nat (observed ck k_mer))
                   / expected p rl k_mer)%Q)].
Proof.
  unfold kmer_body, observed, expected, kmer_profile, py_div. cbn [fst snd].
  rewrite !map_map. cbn [fst snd].
  destruct (Qeq_bool _ 0); cbn [mbind outcome_bind]; [done|].
  destruct (linregress _ _) as [[slope p_value]| |]; simpl; try done.
  by intros [= <- <- <-].
Qed.

Lemma kmer_loop_ratios (kmers : list pystr) :
  ∀ (ck ck' : gmap Z (gmap pystr nat)) (oe oe' : list (pystr * Q))
    (bad bad' : list (pystr * pyfloat * pyfloat)),
  kmer_loop linregress p rl kmers (ck, oe, bad) = Ok (ck', oe', bad') →
  Forall (λ k_mer, Qeq_bool (expected p rl k_mer) 0 = false) kmers
  ∧ oe' = oe ++ map (λ k_mer,
                   (k_mer, (inject_Z (Z.of_nat (observed ck k_mer))
                            / expected p rl k_mer)%Q)) kmers
  ∧ (∀ i, is_Some (ck' !! i) ↔ is_Some (ck !! i))
  ∧ (∀ i b, get2 i b ck' = get2 i b ck).
Proof.
  induction kmers as [|k kmers IH]; intros ck ck' oe oe' bad bad'; simpl.
  - intros [= <- <- <-]. by rewrite app_nil_r.
  - destruct (kmer_body linregress p rl k (ck, oe, bad))
      as [[[ck1 oe1] bad1]| |] eqn:Hbody; simpl; try done.
    intros Hloop.
    destruct (kmer_body_spec _ _ _ _ _ _ _ _ _ _ Hbody) as (Hdom & Hget & _).
    destruct (kmer_body_ratio _ _ _ _ _ _ _ Hbody) as [Hexp ->].
    destruct (IH _ _ _ _ _ _ Hloop) as (Hall & -> & Hdom' & Hget').
    split_and!.
    + by constructor.
    + rewrite <-app_assoc. simpl. do 2 f_equal.
      apply map_ext. intros k_mer. unfold observed.
      by rewrite (kmer_profile_ext ck ck1 k_mer Hdom Hget).
    + intros i. by rewrite Hdom', Hdom.
    + intros i b. by rewrite Hget', Hget.
Qed.
End observed_expected.

(** When the kmer loop completes, every kmer has a non-zero expected count
    and the observed/expected table has one entry per kmer, in the order the
    kmers are visited: the count of the kmer summed over the positions, as
    tallied before the loop, divided by
    [expected_fraction * sequenced_bases].  A kmer whose expected count is
    zero stops the loop with no table. *)
Theorem observed_expected_is_count_over_expectation
    (linregress : list Z → list nat → outcome (pyfloat * pyfloat))
    (p : params) (rl : gmap nat nat) (kmers : list pystr)
    (ck0 ck : gmap Z (gmap pystr nat)) (oe : list (pystr * Q))
    (bad : list (pystr * pyfloat * pyfloat)) :
  kmer_loop linregress p rl kmers (ck0, [], []) = Ok (ck, oe, bad) →
  oe = map (λ k_mer, (k_mer, (inject_Z (Z.of_nat (observed ck0 k_mer))
                              / expected p rl k_mer)%Q)) kmers
  ∧ (∀ k_mer, k_mer ∈ kmers → ¬ (expected p rl k_mer == 0)%Q)
  ∧ (∀ i k_mer, observed ck k_mer = observed ck0 k_mer
                ∧ get2 i k_mer ck = get2 i k_mer ck0).
Proof.
  intros Hloop.
  destruct (kmer_loop_ratios _ _ _ _ _ _ _ _ _ _ Hloop)
    as (Hall & -> & Hdom & Hget).
  split; [done|]. split.
  - intros k_mer Hk Hz. rewrite Forall_forall in Hall.
    specialize (Hall k_mer Hk). apply Qeq_bool_iff in Hz. congruence.
  - intros i k_mer. split; [|apply Hget].
    unfold observed. by rewrite (kmer_profile_ext ck0 ck k_mer Hdom Hget).
Qed.

Lemma observed_expected_is_count_over_expectation_witness :
  ∃ ck oe bad,
    kmer_loop flat_regress default_params sample_read_len
      [["A"; "C"]%char; ["G"; "T"]%char] (sample_kmers, [], [])
    = Ok (ck, oe, bad)
    ∧ map fst oe = [["A"; "C"]%char; ["G"; "T"]%char]
    ∧ observed ck ["A"; "C"]%char = 18%nat.
Proof.
  destruct (kmer_loop flat_regress default_params sample_read_len
      [["A"; "C"]%char; ["G"; "T"]%char] (sample_kmers, [], []))
    as [[[ck oe] bad]| |] eqn:Hloop; [|vm_compute in Hloop; discriminate..].
  exists ck, oe, bad. split; [done|].
  destruct (observed_expected_is_count_over_expectation _ _ _ _ _ _ _ _ Hloop)
    as (-> & _ & Hobs).
  split; [reflexivity|].
  destruct (Hobs 0 ["A"; "C"]%char) as [-> _]. reflexivity.
Defined.

(** ** Sample name and extension *)

Lemma split_no_sep (sep : ascii) (s : pystr) :
  sep ∉ s → split sep s = [s].
Proof.
  induction s as [|c s IH]; [done|].
  intros [Hc Hs]%not_elem_of_cons. cbn [split].
  rewrite decide_False by done. by rewrite IH.
Qed.

Lemma split_app (sep : ascii) (a r : pystr) :
  sep ∉ a → split sep (a ++ sep :: r) = a :: split sep r.
Proof.
  induction a as [|c a IH]; intros Ha.
  - cbn [app split]. by rewrite decide_True.
  - apply not_elem_of_cons in Ha as [Hc Ha]. cbn [app split].
    rewrite decide_False by done. by rewrite IH.
Qed.

Lemma split_nonempty (sep : ascii) (s : pystr) : split sep s ≠ [].
Proof.
  destruct s as [|c s]; [done|]. cbn [split].
  destruct (decide (c = sep)); [done|]. by destruct (split sep s).
Qed.

Lemma split_two_inv (sep : ascii) (s : pystr) :
  ∀ (w w' : pystr) (ws : list pystr),
  split sep s = w :: w' :: ws →
  ∃ r, s = w ++ sep :: r ∧ (sep ∉ w) ∧ split sep r = w' :: ws.
Proof.
  induction s as [|c s IH]; intros w w' ws; [done|]. cbn [split].
  destruct (decide (c = sep)) as [->|Hc].
  - intros [= <- Hs]. exists s. split_and!; [done| |done].
    apply not_elem_of_nil.
  - destruct (split sep s) as [|v [|v' vs]] eqn:Hs; try done.
    intros [= <- <- <-].
    destruct (IH v v' vs eq_refl) as (r & -> & Hv & Hr).
    exists r. split_and!; [done| |done].
    apply not_elem_of_cons. split; [congruence|done].
Qed.

Lemma split_head_inv (sep : ascii) (s w : pystr) (ws : list pystr) :
  split sep s = w :: ws →
  (sep ∉ w) ∧ (ws = [] → s = w)
  ∧ ∀ w' ws', ws = w' :: ws' → ∃ r, s = w ++ sep :: r ∧ split sep r = ws.
Proof.
  intros Hs. destruct ws as [|w' ws'].
  - split_and!; [| |by intros ? ? [=]].
    + revert w Hs. induction s as [|c s IH]; intros w; cbn [split].
      * intros [= <-]. apply not_elem_of_nil.
      * destruct (decide (c = sep));
          [intros [= _ Hnil]; by apply split_nonempty in Hnil|].
        destruct (split sep s) as [|v [|? ?]] eqn:Hv;
          [by apply split_nonempty in Hv| |done].
        intros [= <-]. apply not_elem_of_cons. split; [congruence|].
        by apply IH.
    + intros _. revert w Hs. induction s as [|c s IH]; intros w; cbn [split].
      * by intros [= <-].
      * destruct (decide (c = sep));
          [intros [= _ Hnil]; by apply split_nonempty in Hnil|].
        destruct (split sep s) as [|v [|? ?]] eqn:Hv;
          [by apply split_nonempty in Hv| |done].
        intros [= <-]. f_equal. by apply IH.
  - destruct (split_two_inv sep s w w' ws' Hs) as (r & -> & Hw & Hr).
    split_and!; [done|done|].
    intros ? ? [= <- <-]. by exists r.
Qed.

#[local] Ltac no_sep :=
  repeat (apply not_elem_of_cons; split; [done|]); apply not_elem_of_nil.

Lemma name_ext_parts (in_file : pystr) :
  name_ext in_file
  = match split "." in_file with
    | name :: e :: _ => Ok (name, "."%char :: e)
    | _ => Raised IndexError
    end.
Proof.
  unfold name_ext. destruct (split "." in_file) as [|name [|e ws]] eqn:Hs.
  - done.
  - done.
  - unfold py_index. cbn [length]. cbn [Z.ltb Z.compare].
    assert (H0 : (0 <? Z.of_nat (S (S (length ws)))) = true)
      by (apply Z.ltb_lt; lia).
    assert (H1 : (1 <? Z.of_nat (S (S (length ws)))) = true)
      by (apply Z.ltb_lt; lia).
    rewrite H0, H1. done.
Qed.

Lemma name_ext_iff (in_file name ext : pystr) :
  name_ext in_file = Ok (name, ext)
  ↔ ∃ e, ext = "."%char :: e ∧ ("."%char ∉ name) ∧ ("."%char ∉ e)
      ∧ (in_file = name ++ "."%char :: e
         ∨ ∃ rest, in_file = name ++ "."%char :: e ++ "."%char :: rest).
Proof.
  rewrite name_ext_parts. split.
  - destruct (split "." in_file) as [|w [|e ws]] eqn:Hs; try done.
    intros [= <- <-]. exists e.
    destruct (split_two_inv _ _ _ _ _ Hs) as (r & -> & Hw & Hr).
    destruct (split_head_inv _ _ _ _ Hr) as (He & Hnil & Hcons).
    split_and!; [done..|].
    destruct ws as [|w' ws'].
    + left. by rewrite (Hnil eq_refl).
    + right. destruct (Hcons w' ws' eq_refl) as (rest & -> & _).
      by exists rest.
  - intros (e & -> & Hn & He & [->|[rest ->]]).
    + by rewrite split_app, split_no_sep.
    + by rewrite split_app, split_app.
Qed.

(** The sample name is the text before the first dot of the file name and
    the extension the dot with the text up to the second dot, whatever
    follows; a name without a dot raises [IndexError]. *)
Theorem name_ext_splits_at_first_two_dots (in_file name ext : pystr) :
  (name_ext in_file = Ok (name, ext)
   ↔ ∃ e, ext = "."%char :: e ∧ ("."%char ∉ name) ∧ ("."%char ∉ e)
       ∧ (in_file = name ++ "."%char :: e
          ∨ ∃ rest, in_file = name ++ "."%char :: e ++ "."%char :: rest))
  ∧ ("."%char ∉ in_file → name_ext in_file = Raised IndexError).
Proof.
  split.
  - apply name_ext_iff.
  - intros Hdot. rewrite name_ext_parts. by rewrite split_no_sep.
Qed.

Lemma name_ext_splits_at_first_two_dots_witness :
  name_ext (list_ascii_of_string "reads.fastq.gz")
  = Ok (list_ascii_of_string "reads", list_ascii_of_string ".fastq")
  ∧ name_ext (list_ascii_of_string "<stdin>") = Raised IndexError.
Proof.
  split.
  - apply (proj1 (name_ext_splits_at_first_two_dots _ _ _)).
    exists (list_ascii_of_string "fastq").
    split_and!; [reflexivity|no_sep..|].
    right. by exists (list_ascii_of_string "gz").
  - apply (proj2 (name_ext_splits_at_first_two_dots
                    (list_ascii_of_string "<stdin>") [] [])).
    no_sep.
Defined.

(** The branch that estimates the number of reads follows the first
    extension only: a file named [x.fastq.gz] is sampled as plain FASTQ
    text, not counted through gzip, and the branch for standard input is
    reached only by a file name that starts with [<stdin>.]. *)
Theorem estimate_branch_follows_first_extension (in_file name ext : pystr) :
  name_ext in_file = Ok (name, ext) →
  (estimate_branch name ext = from_stdin →
   ∃ rest, in_file = list_ascii_of_string "<stdin>." ++ rest)
  ∧ (∀ x, in_file = x ++ list_ascii_of_string ".fastq.gz" →
          "."%char ∉ x → estimate_branch name ext = from_fastq)
  ∧ (estimate_branch name ext = from_gz ↔ ext = list_ascii_of_string ".gz").
Proof.
  intros Hne. split_and!.
  - unfold estimate_branch. repeat (case_bool_decide; [done|]).
    case_bool_decide as Hname; [|done]. intros _. subst name.
    apply name_ext_iff in Hne as (e & -> & _ & _ & [->|[rest ->]]).
    + by exists e.
    + by exists (e ++ "."%char :: rest).
  - intros x -> Hx.
    change (x ++ list_ascii_of_string ".fastq.gz")
      with (x ++ "."%char :: list_ascii_of_string "fastq"
              ++ "."%char :: list_ascii_of_string "gz") in Hne.
    rewrite name_ext_parts, !split_app in Hne;
      [|no_sep|done].
    injection Hne; intros <- <-. reflexivity.
  - unfold estimate_branch. split.
    + repeat (case_bool_decide; [done|]). done.
    + intros ->. reflexivity.
Qed.

Lemma estimate_branch_follows_first_extension_witness :
  ∃ name ext,
    name_ext (list_ascii_of_string "reads.fastq.gz") = Ok (name, ext)
    ∧ estimate_branch name ext = from_fastq.
Proof.
  exists (list_ascii_of_string "reads"), (list_ascii_of_string ".fastq").
  assert (Hne : name_ext (list_ascii_of_string "reads.fastq.gz")
    = Ok (list_ascii_of_string "reads", list_ascii_of_string ".fastq"))
    by reflexivity.
  split; [exact Hne|].
  destruct (estimate_branch_follows_first_extension _ _ _ Hne)
    as (_ & Hfq & _).
  apply (Hfq (list_ascii_of_string "reads")); [reflexivity|].
  no_sep.
Defined.
